(** * ADA: query compiler and result rendering

    A shallow embedding of [src/ada/query_parser.py] (entity resolution and
    the clause handlers of the query compiler) and of [src/ada/result.py]
    (status rendering, the message length cap, the extraction of a solution
    and the flow graph), followed by the properties proved about them.

    Conventions of the embedding:
    - Python [str] values are Rocq [string]s over ASCII; [str.lower],
      [str.strip] and the character classes of [re.split] act on ASCII.
    - Python exceptions are the [Raise] branch of [result]; statements that
      run in sequence are chained with the monadic bind of [result].
    - Python [dict]s whose iteration order is never observed by a property
      are [gmap]s; the dicts whose order decides the order of emitted graph
      edges are association lists with in-place update.
    - Python [int]s are [Z]. The values read from the solver are floats:
      where the code only tests their sign or compares them with zero they
      are exact rationals [Qc] (module [Result]); where it computes with
      them, in the amounts of the flow graph, they are binary64 numbers
      (module [Flow64]). *)

From Stdlib Require Import ZArith QArith Qcanon Ascii String List Lia Floats.
From stdpp Require Import base option list gmap strings.

Local Open Scope string_scope.
Local Open Scope list_scope.

(** ** Python runtime: exceptions and sequencing *)

Module Py.

(** The exceptions that the modelled code can raise. [NotModelled] marks a
    regular expression that uses syntax outside the fragment of [re]
    embedded below. *)
Inductive exn : Type :=
| QueryParseException (msg : string)
| IndexError
| KeyError (key : string)
| ZeroDivisionError
| re_error
| NotModelled.

Inductive result (A : Type) : Type :=
| Ok (a : A)
| Raise (e : exn).

Arguments Ok {A} a.
Arguments Raise {A} e.

#[global] Instance result_ret : MRet result := fun A a => Ok a.

#[global] Instance result_bind : MBind result := fun A B f m =>
  match m with
  | Ok a => f a
  | Raise e => Raise e
  end.

#[global] Instance result_fmap : FMap result := fun A B f m =>
  match m with
  | Ok a => Ok (f a)
  | Raise e => Raise e
  end.

Definition is_ok {A} (m : result A) : bool :=
  match m with Ok _ => true | Raise _ => false end.

(** [for x in l: body] over a state threaded through the loop. *)
Fixpoint for_each {A S : Type} (body : A -> S -> result S) (l : list A) (s : S)
  : result S :=
  match l with
  | [] => Ok s
  | x :: l' => s' ← body x s; for_each body l' s'
  end.

(** [[x for x in l if p(x)]] with a predicate that may raise. *)
Fixpoint filter_raising {A : Type} (p : A -> result bool) (l : list A)
  : result (list A) :=
  match l with
  | [] => Ok []
  | x :: l' =>
      b ← p x;
      rest ← filter_raising p l';
      Ok (if b : bool then x :: rest else rest)
  end.

(** *** Strings *)

Definition is_upper (c : ascii) : bool :=
  let n := nat_of_ascii c in (65 <=? n)%nat && (n <=? 90)%nat.

Definition lower_char (c : ascii) : ascii :=
  if is_upper c then ascii_of_nat (nat_of_ascii c + 32) else c.

(** [str.lower()] *)
Fixpoint lower (s : string) : string :=
  match s with
  | EmptyString => EmptyString
  | String c s' => String (lower_char c) (lower s')
  end.

(** ASCII white space, as [str.isspace] and the class [\s] see it. *)
Definition is_space (c : ascii) : bool :=
  let n := nat_of_ascii c in
  ((9 <=? n)%nat && (n <=? 13)%nat) || ((28 <=? n)%nat && (n <=? 32)%nat).

Fixpoint lstrip (s : string) : string :=
  match s with
  | EmptyString => EmptyString
  | String c s' => if is_space c then lstrip s' else s
  end.

Fixpoint rstrip (s : string) : string :=
  match s with
  | EmptyString => EmptyString
  | String c s' =>
      match rstrip s' with
      | EmptyString => if is_space c then EmptyString else String c EmptyString
      | t => String c t
      end
  end.

(** [str.strip()] *)
Definition strip (s : string) : string := rstrip (lstrip s).

(** [re.split(r'[...]', s)] for a one-character class [sep]: the pieces
    between consecutive separators, empty pieces included. *)
Fixpoint re_split (sep : ascii -> bool) (s : string) : list string :=
  match s with
  | EmptyString => [EmptyString]
  | String c s' =>
      if sep c then EmptyString :: re_split sep s'
      else match re_split sep s' with
           | [] => [String c EmptyString]
           | w :: ws => String c w :: ws
           end
  end.

Definition nonempty (s : string) : bool :=
  match s with EmptyString => false | _ => true end.

(** [list(filter(None, l))] on a list of strings. *)
Definition filter_None (l : list string) : list string := List.filter nonempty l.

(** [s.split(':', 1)[1]] : what follows the first colon. *)
Fixpoint split_colon_1 (s : string) : result string :=
  match s with
  | EmptyString => Raise IndexError
  | String c s' => if Ascii.eqb c ":" then Ok s' else split_colon_1 s'
  end.

(** [s.startswith(p)] *)
Definition startswith (s p : string) : bool := String.prefix p s.

Definition list_string_eqb (a b : list string) : bool :=
  bool_decide (a = b).

Definition nl : string := String (ascii_of_nat 10) EmptyString.

(** [sep.join(l)] *)
Fixpoint join (sep : string) (l : list string) : string :=
  match l with
  | [] => EmptyString
  | [x] => x
  | x :: l' => x +:+ sep +:+ join sep l'
  end.

(** *** Dictionaries *)

(** A dict comprehension [{k: v for ...}] over the pairs in order: a later
    pair with the same key overwrites the earlier one. *)
Definition dict_of (l : list (string * Z)) : gmap string Z :=
  fold_left (fun m kv => <[kv.1 := kv.2]> m) l ∅.

(** [d.update(d2)] : the entries of [d2] take precedence. *)
Definition dict_update (d d2 : gmap string Z) : gmap string Z := d2 ∪ d.

End Py.

Export Py.

(** ** The fragment of Python's [re] that entity expressions can reach

    The grammar admits in an entity expression only letters and the
    characters [:], [.], [*], [-], joined by single spaces; after
    [lower()] such a pattern is built from literal characters, the
    wildcard [.] and the postfix star. Other metacharacters are outside
    the embedded fragment. *)

Module Re.

Inductive regex : Type :=
| Nul
| Eps
| Lit (c : ascii)
| Dot
| Seq (r1 r2 : regex)
| Alt (r1 r2 : regex)
| Star (r : regex).

Definition is_meta (c : ascii) : bool :=
  existsb (Ascii.eqb c)
    ["^"; "$"; "+"; "?"; "{"; "}"; "["; "]"; "\"; "|"; "("; ")"]%char.

Definition atom (c : ascii) : regex :=
  if Ascii.eqb c "." then Dot else Lit c.

(** The items of a pattern, left to right; a star with nothing before it
    is the error "nothing to repeat" (or "multiple repeat"). *)
Fixpoint items (p : string) : result (list regex) :=
  match p with
  | EmptyString => Ok []
  | String c p' =>
      if Ascii.eqb c "*" then Raise re_error
      else match p' with
           | String d p'' =>
               if Ascii.eqb d "*"
               then rest ← items p''; Ok (Star (atom c) :: rest)
               else rest ← items p'; Ok (atom c :: rest)
           | EmptyString => Ok [atom c]
           end
  end.

Fixpoint any_meta (p : string) : bool :=
  match p with
  | EmptyString => false
  | String c p' => is_meta c || any_meta p'
  end.

(** [re.compile(p)] *)
Definition compile (p : string) : result regex :=
  if any_meta p then Raise NotModelled
  else its ← items p; Ok (fold_right Seq Eps its).

Fixpoint nullable (r : regex) : bool :=
  match r with
  | Nul => false
  | Eps => true
  | Lit _ => false
  | Dot => false
  | Seq r1 r2 => nullable r1 && nullable r2
  | Alt r1 r2 => nullable r1 || nullable r2
  | Star _ => true
  end.

Definition newline : ascii := ascii_of_nat 10.

(** Brzozowski derivative; [.] matches any character but a newline. *)
Fixpoint deriv (a : ascii) (r : regex) : regex :=
  match r with
  | Nul => Nul
  | Eps => Nul
  | Lit c => if Ascii.eqb a c then Eps else Nul
  | Dot => if Ascii.eqb a newline then Nul else Eps
  | Seq r1 r2 =>
      if nullable r1 then Alt (Seq (deriv a r1) r2) (deriv a r2)
      else Seq (deriv a r1) r2
  | Alt r1 r2 => Alt (deriv a r1) (deriv a r2)
  | Star r1 => Seq (deriv a r1) (Star r1)
  end.

Fixpoint accepts (r : regex) (s : string) : bool :=
  match s with
  | EmptyString => nullable r
  | String a s' => accepts (deriv a r) s'
  end.

(** [re.fullmatch(p, s)] as a truth value. *)
Definition fullmatch (p s : string) : result bool :=
  r ← compile p; Ok (accepts r s).

End Re.

(** ** The catalog (Game Database)

    The database module is an external collaborator: only the interface
    that the parser and the result renderer call is represented. Every
    catalog entity answers [var()], [human_readable_name()] and [slug()]. *)

Module Catalog.

Class CatalogEntity (A : Type) : Type := {
  var : A -> string;
  human_readable_name : A -> string;
  slug : A -> string;
  viz_name : A -> string
}.

Record Item : Type := {
  item_var : string;
  item_name : string;
  item_slug : string;
  item_viz_name : string;
  is_resource : bool
}.

Record Crafter : Type := {
  crafter_var : string;
  crafter_name : string;
  crafter_slug : string;
  crafter_viz_name : string
}.

Record Generator : Type := {
  generator_var : string;
  generator_name : string;
  generator_slug : string;
  generator_viz_name : string
}.

(** [ingredients()] and [products()] are dicts from item var to an object
    with a [minute_rate()]; they are kept as the sequences of their
    [items()]. *)
Record Recipe : Type := {
  recipe_var : string;
  recipe_name : string;
  recipe_slug : string;
  recipe_viz_name : string;
  is_alternate : bool;
  crafter : Crafter;
  ingredients : list (string * Qc);
  products : list (string * Qc)
}.

Record PowerRecipe : Type := {
  power_recipe_var : string;
  power_recipe_name : string;
  power_recipe_slug : string;
  power_recipe_viz_name : string;
  generator : Generator;
  fuel_item : Item;
  fuel_minute_rate : Qc;
  power_production : Qc
}.

#[global] Instance Item_entity : CatalogEntity Item :=
  {| var := item_var; human_readable_name := item_name;
     slug := item_slug; viz_name := item_viz_name |}.
#[global] Instance Recipe_entity : CatalogEntity Recipe :=
  {| var := recipe_var; human_readable_name := recipe_name;
     slug := recipe_slug; viz_name := recipe_viz_name |}.
#[global] Instance PowerRecipe_entity : CatalogEntity PowerRecipe :=
  {| var := power_recipe_var; human_readable_name := power_recipe_name;
     slug := power_recipe_slug; viz_name := power_recipe_viz_name |}.
#[global] Instance Crafter_entity : CatalogEntity Crafter :=
  {| var := crafter_var; human_readable_name := crafter_name;
     slug := crafter_slug; viz_name := crafter_viz_name |}.
#[global] Instance Generator_entity : CatalogEntity Generator :=
  {| var := generator_var; human_readable_name := generator_name;
     slug := generator_slug; viz_name := generator_viz_name |}.

(** The objects that entity resolution ranges over. *)
Inductive Entity : Type :=
| EItem (i : Item)
| ERecipe (r : Recipe)
| EPowerRecipe (p : PowerRecipe)
| ECrafter (c : Crafter)
| EGenerator (g : Generator).

#[global] Instance Entity_entity : CatalogEntity Entity :=
  {| var := fun e => match e with
       | EItem i => var i | ERecipe r => var r | EPowerRecipe p => var p
       | ECrafter c => var c | EGenerator g => var g end;
     human_readable_name := fun e => match e with
       | EItem i => human_readable_name i | ERecipe r => human_readable_name r
       | EPowerRecipe p => human_readable_name p
       | ECrafter c => human_readable_name c
       | EGenerator g => human_readable_name g end;
     slug := fun e => match e with
       | EItem i => slug i | ERecipe r => slug r | EPowerRecipe p => slug p
       | ECrafter c => slug c | EGenerator g => slug g end;
     viz_name := fun e => match e with
       | EItem i => viz_name i | ERecipe r => viz_name r
       | EPowerRecipe p => viz_name p
       | ECrafter c => viz_name c | EGenerator g => viz_name g end |}.

(** The dicts of the database keep their insertion order; [values d] is
    [d.values()]. *)
Definition values {A : Type} (d : list (string * A)) : list A := map snd d.

Record DB : Type := {
  items : list (string * Item);
  recipes : list (string * Recipe);
  power_recipes : list (string * PowerRecipe);
  crafters : list (string * Crafter);
  generators : list (string * Generator);
  recipes_for_product : string -> list Recipe;
  recipes_for_ingredient : string -> list Recipe
}.

#[global] Instance Qc_eq_dec : EqDecision Qc := Qc_eq_dec.
#[global] Instance Item_eq_dec : EqDecision Item.
Proof. solve_decision. Defined.
#[global] Instance Crafter_eq_dec : EqDecision Crafter.
Proof. solve_decision. Defined.
#[global] Instance Recipe_eq_dec : EqDecision Recipe.
Proof. solve_decision. Defined.

End Catalog.

Export Catalog.

(** ** Query objects

    [ada/query.py] is not among the sources; the query objects are
    records with the fields that the parser assigns. *)

Module Query.

(** Modelled from the spec: the class [OptimizationQuery] of
    [ada/query.py], with the fields of spec section 3. *)
Record OptimizationQuery : Type := {
  raw_query : string;
  maximize_objective : bool;
  objective_coefficients : gmap string Z;
  eq_constraints : gmap string Z;
  ge_constraints : gmap string Z;
  le_constraints : gmap string Z;
  strict_inputs : bool;
  strict_outputs : bool;
  strict_recipes : bool;
  strict_power_recipes : bool;
  strict_crafters : bool;
  strict_generators : bool;
  has_power_output : bool
}.

(** Modelled from the spec: the constructor of [OptimizationQuery]. The
    constraint maps and the objective are empty and the flags are false;
    the spec gives no initial direction, so it is an argument. *)
Definition OptimizationQuery_new (maximize0 : bool) (raw : string)
  : OptimizationQuery :=
  {| raw_query := raw;
     maximize_objective := maximize0;
     objective_coefficients := ∅;
     eq_constraints := ∅;
     ge_constraints := ∅;
     le_constraints := ∅;
     strict_inputs := false;
     strict_outputs := false;
     strict_recipes := false;
     strict_power_recipes := false;
     strict_crafters := false;
     strict_generators := false;
     has_power_output := false |}.

Definition set_objective (mx : bool) (c : gmap string Z) (q : OptimizationQuery)
  : OptimizationQuery :=
  {| raw_query := raw_query q;
     maximize_objective := mx;
     objective_coefficients := c;
     eq_constraints := eq_constraints q;
     ge_constraints := ge_constraints q;
     le_constraints := le_constraints q;
     strict_inputs := strict_inputs q;
     strict_outputs := strict_outputs q;
     strict_recipes := strict_recipes q;
     strict_power_recipes := strict_power_recipes q;
     strict_crafters := strict_crafters q;
     strict_generators := strict_generators q;
     has_power_output := has_power_output q |}.

Definition update_eq (d : gmap string Z) (q : OptimizationQuery)
  : OptimizationQuery :=
  {| raw_query := raw_query q;
     maximize_objective := maximize_objective q;
     objective_coefficients := objective_coefficients q;
     eq_constraints := dict_update (eq_constraints q) d;
     ge_constraints := ge_constraints q;
     le_constraints := le_constraints q;
     strict_inputs := strict_inputs q;
     strict_outputs := strict_outputs q;
     strict_recipes := strict_recipes q;
     strict_power_recipes := strict_power_recipes q;
     strict_crafters := strict_crafters q;
     strict_generators := strict_generators q;
     has_power_output := has_power_output q |}.

Definition update_ge (d : gmap string Z) (q : OptimizationQuery)
  : OptimizationQuery :=
  {| raw_query := raw_query q;
     maximize_objective := maximize_objective q;
     objective_coefficients := objective_coefficients q;
     eq_constraints := eq_constraints q;
     ge_constraints := dict_update (ge_constraints q) d;
     le_constraints := le_constraints q;
     strict_inputs := strict_inputs q;
     strict_outputs := strict_outputs q;
     strict_recipes := strict_recipes q;
     strict_power_recipes := strict_power_recipes q;
     strict_crafters := strict_crafters q;
     strict_generators := strict_generators q;
     has_power_output := has_power_output q |}.

Definition update_le (d : gmap string Z) (q : OptimizationQuery)
  : OptimizationQuery :=
  {| raw_query := raw_query q;
     maximize_objective := maximize_objective q;
     objective_coefficients := objective_coefficients q;
     eq_constraints := eq_constraints q;
     ge_constraints := ge_constraints q;
     le_constraints := dict_update (le_constraints q) d;
     strict_inputs := strict_inputs q;
     strict_outputs := strict_outputs q;
     strict_recipes := strict_recipes q;
     strict_power_recipes := strict_power_recipes q;
     strict_crafters := strict_crafters q;
     strict_generators := strict_generators q;
     has_power_output := has_power_output q |}.

(** The boolean attributes that the handlers switch on. *)
Inductive flag : Type :=
| Strict_inputs | Strict_outputs | Strict_recipes | Strict_power_recipes
| Strict_crafters | Strict_generators | Has_power_output.

Definition set_flag (f : flag) (q : OptimizationQuery) : OptimizationQuery :=
  {| raw_query := raw_query q;
     maximize_objective := maximize_objective q;
     objective_coefficients := objective_coefficients q;
     eq_constraints := eq_constraints q;
     ge_constraints := ge_constraints q;
     le_constraints := le_constraints q;
     strict_inputs :=
       match f with Strict_inputs => true | _ => strict_inputs q end;
     strict_outputs :=
       match f with Strict_outputs => true | _ => strict_outputs q end;
     strict_recipes :=
       match f with Strict_recipes => true | _ => strict_recipes q end;
     strict_power_recipes :=
       match f with Strict_power_recipes => true
                  | _ => strict_power_recipes q end;
     strict_crafters :=
       match f with Strict_crafters => true | _ => strict_crafters q end;
     strict_generators :=
       match f with Strict_generators => true | _ => strict_generators q end;
     has_power_output :=
       match f with Has_power_output => true | _ => has_power_output q end |}.

(** [if c: query.<flag> = True] *)
Definition set_flag_if (c : bool) (f : flag) (q : OptimizationQuery)
  : OptimizationQuery := if c then set_flag f q else q.

(** Modelled from the spec: [InfoQuery], the raw text and the ordered
    sequence of matched entities, empty when constructed. *)
Record InfoQuery : Type := {
  info_raw_query : string;
  vars : list Entity
}.

(** Modelled from the spec: [RecipeCompareQuery]. *)
Record RecipeCompareQuery : Type := {
  compare_raw_query : string;
  product_item : Entity;
  base_recipe : Recipe;
  related_recipes : list Recipe;
  exclude_alternates : bool
}.

Inductive AnyQuery : Type :=
| AHelpQuery
| AOptimizationQuery (q : OptimizationQuery)
| AInfoQuery (q : InfoQuery)
| ARecipeCompareQuery (q : RecipeCompareQuery).

End Query.

Export Query.

(** ** [query_parser.py] *)

Module QueryParser.

(** *** What the grammar hands to the handlers

    The grammar is a composition of pyparsing objects; the handlers only
    read the named results it produces. A clause value is the named result
    ["value"]: ["?"], ["_"] (also for [any] and for an omitted value) or an
    unsigned integer. *)
Inductive value : Type :=
| objective_value
| any_value
| num_value (n : N).

(** [output_var], [input_var], [include_var]: either the named result
    ["literal"] or the named result ["entity"]. *)
Inductive var_expr : Type :=
| literal (s : string)
| entity (s : string).

(** [output_expr], [input_expr]: [Group(strict + value + var)]; [power] is
    the named result ["power"], which the grammar sets on the output
    literal [power]. *)
Record value_expr : Type := {
  strict : bool;
  clause_value : value;
  target : var_expr;
  power : bool
}.

(** [exclude_var = exclude_literal | byproducts | entity_expr] *)
Inductive exclude_expr : Type :=
| exclude_var (v : var_expr)
| byproducts.

(** The alternatives of [query_grammar] with the named results that each
    one carries:
    - [help_query]: [help];
    - [optimization_query]: the output clauses and the optional input,
      include and exclude clause lists (empty when absent);
    - [single_recipe_query]: [recipe <X>];
    - [recipe_for_query]: [recipe for <X>] or [<X> recipe];
    - [recipes_for_query]: [recipes for <X>] or [<X> recipes];
    - [recipes_from_query]: [recipes from|using|with <X>];
    - [compare_recipe_query]: [compare recipes for <X>], optionally
      followed by [without alternate recipes];
    - [entity_query]: a bare entity expression. *)
Inductive ParseResults : Type :=
| help_query
| optimization_query (outputs inputs : list value_expr)
    (includes : list var_expr) (excludes : list exclude_expr)
| single_recipe_query (e : string)
| recipe_for_query (e : string)
| recipes_for_query (e : string)
| recipes_from_query (e : string)
| compare_recipe_query (e : string) (exclude_alts : bool)
| entity_query (e : string).

Definition sep_expr (c : ascii) : bool :=
  is_space c || Ascii.eqb c "-" || Ascii.eqb c "_" || Ascii.eqb c ":".

Definition sep_name (c : ascii) : bool :=
  is_space c || Ascii.eqb c ":" || Ascii.eqb c "-".

Definition sep_var (c : ascii) : bool :=
  Ascii.eqb c ":" || Ascii.eqb c "-".

(** [expr.strip().lower()] *)
Definition normalize (expr : string) : string := lower (strip expr).

(** [list(filter(None, re.split(r'[\s\-\_:]', expr)))] *)
Definition expr_parts_of (expr : string) : list string :=
  filter_None (re_split sep_expr expr).

(** [list(filter(None, re.split(r'[\s:\-]', name)))] *)
Definition name_parts_of (name : string) : list string :=
  filter_None (re_split sep_name name).

Definition could_not_parse (what e : string) : exn :=
  QueryParseException ("Could not parse " +:+ what +:+ " expression '" +:+ e +:+ "'.").

Section Parser.

(** [inflect.engine().plural], as a function of the words for which it
    returns. The exception that it raises on a word it refuses, such as the
    empty word, is not represented. *)
Variable plural_of : string -> string.

(** [self._db] *)
Variable db : DB.

(** The direction a fresh [OptimizationQuery] starts with. *)
Variable maximize0 : bool.

(** The comparisons of [_check_var] that precede the regular-expression
    fallback, up to and including the comparison with the tokenized var;
    they read the expression only through its token list. *)
Definition check_names (expr_parts : list string) (v : Entity) : bool :=
  let singular := lower (human_readable_name v) in
  let singular_parts := name_parts_of singular in
  if list_string_eqb expr_parts singular_parts then true else
  let plural := plural_of singular in
  let plural_parts := name_parts_of plural in
  if list_string_eqb expr_parts plural_parts then true else
  if startswith singular "recipe: alternate: " &&
     (list_string_eqb expr_parts (drop 2 singular_parts)
      || list_string_eqb expr_parts (take 1 singular_parts ++ drop 2 singular_parts)
      || list_string_eqb expr_parts (drop 2 plural_parts)
      || list_string_eqb expr_parts (take 1 plural_parts ++ drop 2 plural_parts))
  then true else
  let var_parts := filter_None (re_split sep_var (var v)) in
  list_string_eqb expr_parts var_parts.

Definition _check_var (expr : string) (v : Entity) : result bool :=
  let expr := normalize expr in
  let expr_parts := expr_parts_of expr in
  if check_names expr_parts v then Ok true else
  typeless_var ← split_colon_1 (var v);
  let typeless_var_parts := re_split sep_var typeless_var in
  if list_string_eqb expr_parts typeless_var_parts then Ok true else
  let singular := lower (human_readable_name v) in
  let plural := plural_of singular in
  r ← Re.compile expr;
  Ok (Re.accepts r singular || Re.accepts r plural
      || Re.accepts r (var v) || Re.accepts r typeless_var).

Definition allowed (ty : string) (allowed_types : list string) : bool :=
  existsb (String.eqb ty) allowed_types.

(** The candidates that [_get_matches] collects. The source gathers them
    in a [set] of objects, whose iteration order is unspecified; the order
    used here is the order of insertion. *)
Definition allowed_vars (allowed_types : list string) : list Entity :=
  (if allowed "resource" allowed_types
   then map EItem (List.filter is_resource (values (items db))) else [])
  ++ (if allowed "item" allowed_types
      then map EItem (List.filter (fun i => negb (is_resource i)) (values (items db)))
      else [])
  ++ (if allowed "recipe" allowed_types
      then map ERecipe (values (recipes db)) else [])
  ++ (if allowed "power-recipe" allowed_types
      then map EPowerRecipe (values (power_recipes db)) else [])
  ++ (if allowed "crafter" allowed_types
      then map ECrafter (values (crafters db)) else [])
  ++ (if allowed "generator" allowed_types
      then map EGenerator (values (generators db)) else []).

Definition _get_matches (expr : string) (allowed_types : list string)
  : result (list Entity) :=
  filter_raising (_check_var expr) (allowed_vars allowed_types).

(** The resolution step that the four clause handlers share: the vars of
    a clause, or the handler's error when an entity matches nothing. *)
Definition clause_vars (v : var_expr) (allowed_types : list string)
  (what : string) : result (list string) :=
  match v with
  | literal s => Ok [s]
  | entity e =>
      ms ← _get_matches e allowed_types;
      if (length ms =? 0)%nat
      then Raise (could_not_parse what e)
      else Ok (map var ms)
  end.

Definition only_one_objective : exn :=
  QueryParseException "Only one objective may be specified.".

Definition _parse_output (output : value_expr) (query : OptimizationQuery)
  : result OptimizationQuery :=
  output_vars ← clause_vars (target output) ["item"] "item";
  query ← match clause_value output with
          | objective_value =>
              if (0 <? size (objective_coefficients query))%nat
              then Raise only_one_objective
              else Ok (set_objective true
                         (dict_of (map (fun v => (v, 1%Z)) output_vars)) query)
          | any_value =>
              Ok (update_ge (dict_of (map (fun v => (v, 0%Z)) output_vars)) query)
          | num_value n =>
              Ok (update_eq (dict_of (map (fun v => (v, Z.of_N n)) output_vars)) query)
          end;
  let query := set_flag_if (strict output) Strict_outputs query in
  let query := set_flag_if (power output) Has_power_output query in
  Ok query.

Definition _parse_outputs (outputs : list value_expr) (query : OptimizationQuery)
  : result OptimizationQuery :=
  match outputs with
  | [] => Raise (QueryParseException "No outputs specified in optimization query.")
  | _ => for_each _parse_output outputs query
  end.

Definition _parse_input (input_ : value_expr) (query : OptimizationQuery)
  : result OptimizationQuery :=
  input_vars ← clause_vars (target input_) ["resource"; "item"] "resource or item";
  query ← match clause_value input_ with
          | objective_value =>
              if (0 <? size (objective_coefficients query))%nat
              then Raise only_one_objective
              else Ok (set_objective false
                         (dict_of (map (fun v => (v, (-1)%Z)) input_vars)) query)
          | any_value =>
              Ok (update_le (dict_of (map (fun v => (v, 0%Z)) input_vars)) query)
          | num_value n =>
              Ok (update_ge
                    (dict_of (map (fun v => (v, (- Z.of_N n)%Z)) input_vars)) query)
          end;
  Ok (set_flag_if (strict input_) Strict_inputs query).

Definition _parse_inputs (inputs : list value_expr) (query : OptimizationQuery)
  : result OptimizationQuery :=
  match inputs with
  | [] => Ok (set_objective false {[ "unweighted-resources" := (-1)%Z ]} query)
  | _ => for_each _parse_input inputs query
  end.

Definition building_expr : string :=
  "recipe, power recipe, crafter, or generator".

Definition building_types : list string :=
  ["recipe"; "power-recipe"; "crafter"; "generator"].

Definition include_flags (v : string) (query : OptimizationQuery)
  : OptimizationQuery :=
  let query := set_flag_if (startswith v "recipe:") Strict_recipes query in
  let query := set_flag_if (startswith v "power-recipe:") Strict_power_recipes query in
  let query := set_flag_if (startswith v "crafter:") Strict_crafters query in
  set_flag_if (startswith v "generator:") Strict_generators query.

Definition _parse_include (include : var_expr) (query : OptimizationQuery)
  : result OptimizationQuery :=
  include_vars ← clause_vars include building_types building_expr;
  let query := update_ge (dict_of (map (fun v => (v, 0%Z)) include_vars)) query in
  Ok (fold_left (fun q v => include_flags v q) include_vars query).

Definition _parse_includes (includes : list var_expr) (query : OptimizationQuery)
  : result OptimizationQuery :=
  for_each _parse_include includes query.

Definition _parse_exclude (exclude : exclude_expr) (query : OptimizationQuery)
  : result OptimizationQuery :=
  exclude_vars ← match exclude with
                 | exclude_var v => clause_vars v building_types building_expr
                 | byproducts => Ok []
                 end;
  let query :=
    set_flag_if (match exclude with byproducts => true | _ => false end)
      Strict_outputs query in
  Ok (update_eq (dict_of (map (fun v => (v, 0%Z)) exclude_vars)) query).

Definition _parse_excludes (excludes : list exclude_expr) (query : OptimizationQuery)
  : result OptimizationQuery :=
  for_each _parse_exclude excludes query.

Definition _parse_optimization_query (raw : string)
  (outputs inputs : list value_expr) (includes : list var_expr)
  (excludes : list exclude_expr) : result OptimizationQuery :=
  let query := OptimizationQuery_new maximize0 raw in
  query ← _parse_outputs outputs query;
  query ← _parse_inputs inputs query;
  query ← _parse_includes includes query;
  query ← _parse_excludes excludes query;
  Ok query.

(** The two lists that the nested loops of [_parse_recipe_for_query]
    fill: every producing recipe, and the ones not flagged alternate. *)
Definition collect_recipes (matches : list Entity) : list Recipe * list Recipe :=
  fold_left
    (fun acc m =>
       fold_left
         (fun acc recipe =>
            let '(all_vars, non_alternate_vars) := acc in
            (all_vars ++ [recipe],
             if negb (is_alternate recipe)
             then non_alternate_vars ++ [recipe] else non_alternate_vars))
         (recipes_for_product db (var m)) acc)
    matches ([], []).

Definition _parse_recipe_for_query (raw e : string) : result InfoQuery :=
  matches ← _get_matches e ["item"];
  if (length matches =? 0)%nat then Raise (could_not_parse "item" e) else
  let '(all_vars, non_alternate_vars) := collect_recipes matches in
  if (0 <? length non_alternate_vars)%nat
  then Ok {| info_raw_query := raw; vars := [] ++ map ERecipe non_alternate_vars |}
  else Ok {| info_raw_query := raw; vars := [] ++ map ERecipe all_vars |}.

Definition _parse_recipes_for_query (raw e : string) : result InfoQuery :=
  matches ← _get_matches e ["resource"; "item"; "crafter"; "generator"];
  if (length matches =? 0)%nat
  then Raise (could_not_parse "resource, item, crafter, or generator" e) else
  Ok {| info_raw_query := raw;
        vars := fold_left
          (fun vars m =>
             let v := var m in
             if startswith v "item" || startswith v "resource"
             then vars ++ map ERecipe (recipes_for_product db v)
             else if startswith v "crafter"
             then vars ++ map ERecipe
                    (List.filter (fun r => String.eqb (var (crafter r)) v)
                       (values (recipes db)))
             else if startswith v "generator"
             then vars ++ map EPowerRecipe
                    (List.filter (fun r => String.eqb (var (generator r)) v)
                       (values (power_recipes db)))
             else vars)
          matches [] |}.

Definition _parse_recipes_from_query (raw e : string) : result InfoQuery :=
  matches ← _get_matches e ["resource"; "item"];
  if (length matches =? 0)%nat
  then Raise (could_not_parse "resoure or item" e) else
  Ok {| info_raw_query := raw;
        vars := fold_left
          (fun vars m => vars ++ map ERecipe (recipes_for_ingredient db (var m)))
          matches [] |}.

Definition _parse_single_recipe_query (raw e : string) : result InfoQuery :=
  matches ← _get_matches e ["recipe"];
  if (length matches =? 0)%nat then Raise (could_not_parse "recipe" e) else
  Ok {| info_raw_query := raw; vars := [] ++ matches |}.



(** [l.remove(x)]: the list without the first element equal to [x]. The
    caller only removes an element it has just read from the list. *)
Fixpoint list_remove (x : Recipe) (l : list Recipe) : list Recipe :=
  match l with
  | [] => []
  | y :: l' => if bool_decide (y = x) then l' else y :: list_remove x l'
  end.

Definition _parse_recipe_compare_query (raw e : string) (exclude_alts : bool)
  : result RecipeCompareQuery :=
  matches ← _get_matches e ["item"];
  match matches with
  | [] => Raise (could_not_parse "compare recipes for" e)
  | product :: rest =>
      if (1 <? length matches)%nat
      then Raise (QueryParseException
             ("Multiple items were matched:" +:+ nl +:+ "   "
              +:+ join (nl +:+ "   ") (map human_readable_name matches)
              +:+ nl +:+ "Please repeat the command with a more specific item name."))
      else
        let related := recipes_for_product db (var product) in
        match related with
        | [] => Raise (QueryParseException
                  ("Could not find any recipe that produces "
                   +:+ human_readable_name product))
        | [only] =>
            Ok {| compare_raw_query := raw; product_item := product;
                  base_recipe := only; related_recipes := [];
                  exclude_alternates := exclude_alts |}
        | _ =>
            match List.find (fun r => String.eqb (slug r) (slug product)) related with
            | Some base =>
                Ok {| compare_raw_query := raw; product_item := product;
                      base_recipe := base;
                      related_recipes := list_remove base related;
                      exclude_alternates := exclude_alts |}
            | None => Raise (QueryParseException
                        ("Could not find base recipe for "
                         +:+ human_readable_name product))
            end
        end
  end.

Definition _parse_entity_details (raw e : string) : result InfoQuery :=
  non_recipe_matches ← _get_matches e ["resource"; "item"; "crafter"; "generator"];
  if (0 <? length non_recipe_matches)%nat
  then Ok {| info_raw_query := raw; vars := [] ++ non_recipe_matches |}
  else
    recipe_matches ← _get_matches e ["recipe"; "power-recipe"];
    if (length recipe_matches =? 0)%nat
    then Raise (could_not_parse "entity" e)
    else Ok {| info_raw_query := raw; vars := [] ++ recipe_matches |}.

(** The dispatch of [parse] on the named result that the grammar set. *)
Definition parse (raw : string) (results : ParseResults) : result AnyQuery :=
  match results with
  | help_query => Ok AHelpQuery
  | optimization_query outputs inputs includes excludes =>
      AOptimizationQuery <$> _parse_optimization_query raw outputs inputs includes excludes
  | single_recipe_query e => AInfoQuery <$> _parse_single_recipe_query raw e
  | recipe_for_query e => AInfoQuery <$> _parse_recipe_for_query raw e
  | recipes_for_query e => AInfoQuery <$> _parse_recipes_for_query raw e
  | recipes_from_query e => AInfoQuery <$> _parse_recipes_from_query raw e
  | compare_recipe_query e x => ARecipeCompareQuery <$> _parse_recipe_compare_query raw e x
  | entity_query e => AInfoQuery <$> _parse_entity_details raw e
  end.

End Parser.

End QueryParser.

(** ** [result.py] *)

Module Result.

(** The part of [discord.Embed] that the renderers set. *)
Record Embed : Type := {
  title : string;
  description : string
}.

(** [ada/result_message.py] is not among the sources; a [ResultMessage]
    is the record of the attributes that [message] assigns. *)
Record ResultMessage : Type := {
  embed : option Embed;
  content : string;
  reactions : list string;
  file : option string
}.

(** What rendering reads of [ada.breadcrumbs.Breadcrumbs]: its [str()]. *)
Record Breadcrumbs : Type := {
  breadcrumbs_str : string
}.

Definition HelpResult_str : string :=
"
ADA is a bot for the videogame Satisfactory.

ADA can be used to get information about items,
buildings, and recipes. ADA can also be used to
calculate an optimal production chain. Here are
some examples of queries that ADA supports:

```
ada iron rod
```
```
ada recipes for iron rod
```
```
ada recipes for refineries
```

```
ada produce 60 iron rods
```
```
ada produce 60 iron rod from ? iron ore
```
```
ada produce ? iron rods from 60 iron ore
```
```
ada produce ? power from 240 crude oil with only
    fuel generators
```
```
ada produce 60 modular frames without refineries
```

For more information and examples, see [the GitHub page](https://github.com/ScottJDaley/ada).
".

Definition HelpResult_message (breadcrumbs : Breadcrumbs) : ResultMessage :=
  {| embed := Some {| title := "Help"; description := HelpResult_str |};
     content := breadcrumbs_str breadcrumbs;
     reactions := [];
     file := None |}.

Definition ErrorResult_message (msg : string) (breadcrumbs : Breadcrumbs)
  : ResultMessage :=
  {| embed := Some {| title := "Error"; description := msg |};
     content := breadcrumbs_str breadcrumbs;
     reactions := [];
     file := None |}.

(** *** Solver status *)

(** The status constants of [pulp]. The source compares with [is]; on
    these small integers that is equality. *)
Definition LpStatusNotSolved : Z := 0.
Definition LpStatusOptimal : Z := 1.
Definition LpStatusInfeasible : Z := -1.
Definition LpStatusUnbounded : Z := -2.
Definition LpStatusUndefined : Z := -3.

Definition not_solved_text : string := "No solution has been found.".
Definition infeasible_text : string :=
  "Solution is infeasible, try removing a constraint or allowing a byproduct (e.g. rubber >= 0)".
Definition unbounded_text : string :=
  "Solution is unbounded, try adding a constraint or replacing '?' with a concrete value (e.g. 1000)".

(** An [OptimizationResult]: the database, the solver variables with
    their values ([None] when the solver assigned none) and the status. *)
Record OptimizationResult : Type := {
  result_db : DB;
  result_vars : gmap string (option Qc);
  status : Z;
  query : OptimizationQuery
}.

Section Rendering.

(** The renderers of an optimal solution format floating-point numbers,
    draw the graph and attach a file; they are taken as given, and may
    raise. *)
Variable string_solution : OptimizationResult -> result string.
Variable solution_message : OptimizationResult -> Breadcrumbs -> result ResultMessage.

Definition OptimizationResult_str (self : OptimizationResult) : result string :=
  if (status self =? LpStatusNotSolved)%Z then Ok not_solved_text
  else if (status self =? LpStatusUndefined)%Z then Ok not_solved_text
  else if (status self =? LpStatusInfeasible)%Z then Ok infeasible_text
  else if (status self =? LpStatusUnbounded)%Z then Ok unbounded_text
  else string_solution self.

Definition OptimizationResult_message (self : OptimizationResult)
  (breadcrumbs : Breadcrumbs) : result ResultMessage :=
  if (status self =? LpStatusOptimal)%Z then solution_message self breadcrumbs
  else
    text ← OptimizationResult_str self;
    Ok {| embed := Some {| title := text; description := "" |};
          content := breadcrumbs_str breadcrumbs;
          reactions := [];
          file := None |}.

End Rendering.

(** *** Recipe comparison message *)

(** The tables that [RecipeCompareResult.__init__] prepares, column
    header first. *)
Definition table : Type := list (string * list string).

Record RecipeCompareResult : Type := {
  product_name : string;
  overall_stats : table;
  input_stats : table
}.

Definition too_long : string := "Output was too long".

Section Compare.

(** [tabulate(t, headers="keys", tablefmt=fmt)] *)
Variable tabulate : table -> string -> string.

Definition fenced (s : string) : string := "```" +:+ nl +:+ s +:+ "```".

(** The text that [RecipeCompareResult.message] assembles before the
    length test. *)
Definition compare_text (self : RecipeCompareResult) (breadcrumbs : Breadcrumbs)
  : string :=
  let out :=
    [ "All recipes that produce " +:+ product_name self;
      fenced (tabulate (overall_stats self) "simple");
      "Raw Inputs for 1/m " +:+ product_name self;
      fenced (tabulate (input_stats self) "simple") ] in
  breadcrumbs_str breadcrumbs +:+ nl +:+ join nl out.

Definition RecipeCompareResult_message (self : RecipeCompareResult)
  (breadcrumbs : Breadcrumbs) : ResultMessage :=
  let content := compare_text self breadcrumbs in
  {| embed := None;
     content := if (2000 <? String.length content)%nat then too_long else content;
     reactions := [];
     file := None |}.

End Compare.

(** *** Flow graph, in exact arithmetic

    The loops of [generate_graph_viz] with the values as exact rationals:
    the reading in which the keys of the maps, the signs of the amounts and
    the absence of a zero divisor are studied. The amounts that the code
    computes are binary64 numbers; module [Flow64] follows them. *)

Local Open Scope Qc_scope.

(** A Python dict whose iteration order is observed: assignment to a
    present key keeps its position, a new key goes last. *)
Definition odict (V : Type) : Type := list (string * V).

Fixpoint odict_get {V : Type} (k : string) (d : odict V) : option V :=
  match d with
  | [] => None
  | (k', v) :: d' => if String.eqb k' k then Some v else odict_get k d'
  end.

Fixpoint odict_set {V : Type} (k : string) (v : V) (d : odict V) : odict V :=
  match d with
  | [] => [(k, v)]
  | (k', v') :: d' =>
      if String.eqb k' k then (k, v) :: d' else (k', v') :: odict_set k v d'
  end.

(** What the label of an edge or a node is computed from; the rounding
    and the text of the label are not represented. *)
Inductive label : Type :=
| item_label (item_name : string) (amount : Qc)
| power_edge_label (power_production : Qc)
| entity_node (amount : Qc)
| power_node (power_output net_power : Qc).

Record Digraph : Type := {
  nodes : list (string * label);
  edges : list (string * string * label)
}.

Definition empty_graph : Digraph := {| nodes := []; edges := [] |}.

Definition add_node (name : string) (l : label) (s : Digraph) : Digraph :=
  {| nodes := nodes s ++ [(name, l)]; edges := edges s |}.

Definition add_edge (tail head : string) (l : label) (s : Digraph) : Digraph :=
  {| nodes := nodes s; edges := edges s ++ [(tail, head, l)] |}.

Definition targets : Type := odict (odict Qc).

Definition add_to_target (item_var : string) (t : targets) (target : string)
  (amount : Qc) : targets :=
  let inner := match odict_get item_var t with
               | Some d => d
               | None => []
               end in
  odict_set item_var (odict_set target amount inner) t.

Definition total_sink_amount (item_sinks : odict Qc) : Qc :=
  fold_left (fun total sink => total + sink.2) item_sinks 0.

(** The state that the loops of [generate_graph_viz] update. *)
Record GraphState : Type := {
  graph : Digraph;
  sources : targets;
  sinks : targets;
  power_output : Qc
}.

Section Graph.

Variable self : OptimizationResult.

(** [self.__vars[var].value()] *)
Definition get_value (v : string) : result (option Qc) :=
  match result_vars self !! v with
  | Some x => Ok x
  | None => Raise (KeyError v)
  end.

(** The value of [v] when [__has_value(v)] holds, that is when the
    solver assigned a value other than zero. *)
Definition nonzero_value (v : string) : result (option Qc) :=
  x ← get_value v;
  Ok (match x with
      | Some amount => if bool_decide (amount = 0) then None else Some amount
      | None => None
      end).

Definition __add_nodes {A : Type} `{CatalogEntity A} (objs : list A) (s : Digraph)
  : result Digraph :=
  for_each
    (fun obj s =>
       x ← nonzero_value (var obj);
       match x with
       | None => Ok s
       | Some amount => Ok (add_node (viz_name obj) (entity_node amount) s)
       end)
    objs s.

Definition with_graph (g : Digraph) (st : GraphState) : GraphState :=
  {| graph := g; sources := sources st; sinks := sinks st;
     power_output := power_output st |}.

Definition add_source (item_var target : string) (amount : Qc) (st : GraphState)
  : GraphState :=
  {| graph := graph st;
     sources := add_to_target item_var (sources st) target amount;
     sinks := sinks st; power_output := power_output st |}.

Definition add_sink (item_var target : string) (amount : Qc) (st : GraphState)
  : GraphState :=
  {| graph := graph st; sources := sources st;
     sinks := add_to_target item_var (sinks st) target amount;
     power_output := power_output st |}.

Definition item_step (item : Item) (st : GraphState) : result GraphState :=
  x ← nonzero_value (var item);
  match x with
  | None => Ok st
  | Some amount =>
      if bool_decide (amount < 0)
      then Ok (add_source (var item) (viz_name item) amount st)
      else Ok (add_sink (var item) (viz_name item) amount st)
  end.

Definition recipe_step (recipe : Recipe) (st : GraphState) : result GraphState :=
  x ← nonzero_value (var recipe);
  match x with
  | None => Ok st
  | Some recipe_amount =>
      let st := fold_left
                  (fun st ing => add_sink ing.1 (viz_name recipe)
                                   (recipe_amount * ing.2) st)
                  (ingredients recipe) st in
      Ok (fold_left
            (fun st prod => add_source prod.1 (viz_name recipe)
                              (recipe_amount * prod.2) st)
            (products recipe) st)
  end.

Definition power_recipe_step (power_recipe : PowerRecipe) (st : GraphState)
  : result GraphState :=
  x ← nonzero_value (var power_recipe);
  match x with
  | None => Ok st
  | Some amount =>
      let st := add_sink (var (fuel_item power_recipe)) (viz_name power_recipe)
                  (amount * fuel_minute_rate power_recipe) st in
      let production := amount * power_production power_recipe in
      Ok {| graph := add_edge (viz_name power_recipe) "power"
                       (power_edge_label production) (graph st);
            sources := sources st; sinks := sinks st;
            power_output := power_output st + production |}
  end.

(** The inner loops of "connect each source to all sinks of that item",
    for one source of one item. *)
Definition connect_source (item_name : string) (item_sinks : odict Qc)
  (src : string * Qc) (s : Digraph) : result Digraph :=
  let total := total_sink_amount item_sinks in
  if bool_decide (total = 0) then Raise ZeroDivisionError
  else
    let multiplier := src.2 / total in
    Ok (fold_left
          (fun s sink =>
             add_edge src.1 sink.1 (item_label item_name (multiplier * sink.2)) s)
          item_sinks s).

Definition connect_item (all_sinks : targets) (entry : string * odict Qc)
  (s : Digraph) : result Digraph :=
  match odict_get entry.1 (items (result_db self)) with
  | None => Raise (KeyError entry.1)
  | Some item =>
      match odict_get entry.1 all_sinks with
      | None => Ok s
      | Some item_sinks =>
          for_each (connect_source (human_readable_name item) item_sinks) entry.2 s
      end
  end.

Definition connect (all_sources all_sinks : targets) (s : Digraph)
  : result Digraph :=
  for_each (connect_item all_sinks) all_sources s.

(** The sources and sinks maps, the nodes and the power edges, before
    the sources are connected to the sinks. *)
Definition collect : result GraphState :=
  let db := result_db self in
  let st := {| graph := empty_graph; sources := []; sinks := [];
               power_output := 0 |} in
  g ← __add_nodes (values (items db)) (graph st);
  st ← for_each item_step (values (items db)) (with_graph g st);
  g ← __add_nodes (values (recipes db)) (graph st);
  st ← for_each recipe_step (values (recipes db)) (with_graph g st);
  p ← nonzero_value "power";
  let net_power := match p with Some x => x | None => 0 end in
  g ← __add_nodes (values (power_recipes db)) (graph st);
  st ← for_each power_recipe_step (values (power_recipes db)) (with_graph g st);
  Ok (with_graph
        (add_node "power" (power_node (power_output st) net_power) (graph st)) st).

(** The graph handed to [s.render()]. *)
Definition generate_graph_viz : result Digraph :=
  st ← collect;
  connect (sources st) (sinks st) (graph st).

End Graph.

End Result.

(** ** A small catalog

    The instances on which the statements below are exercised. *)

Module Demo.

Import QueryParser Result.

(** The rational number of an integer. *)
Definition qc (n : Z) : Qc := Q2Qc (inject_Z n).

Definition constructor : Crafter :=
  {| crafter_var := "crafter:constructor"; crafter_name := "Constructor";
     crafter_slug := "constructor"; crafter_viz_name := "crafter_constructor" |}.

Definition smelter : Crafter :=
  {| crafter_var := "crafter:smelter"; crafter_name := "Smelter";
     crafter_slug := "smelter"; crafter_viz_name := "crafter_smelter" |}.

Definition coal_generator : Generator :=
  {| generator_var := "generator:coal-generator";
     generator_name := "Coal Generator";
     generator_slug := "coal-generator";
     generator_viz_name := "generator_coal_generator" |}.

Definition iron_ore : Item :=
  {| item_var := "item:iron-ore"; item_name := "Iron Ore";
     item_slug := "iron-ore"; item_viz_name := "item_iron_ore";
     is_resource := true |}.

Definition coal : Item :=
  {| item_var := "item:coal"; item_name := "Coal";
     item_slug := "coal"; item_viz_name := "item_coal";
     is_resource := true |}.

Definition iron_ingot : Item :=
  {| item_var := "item:iron-ingot"; item_name := "Iron Ingot";
     item_slug := "iron-ingot"; item_viz_name := "item_iron_ingot";
     is_resource := false |}.

Definition iron_rod : Item :=
  {| item_var := "item:iron-rod"; item_name := "Iron Rod";
     item_slug := "iron-rod"; item_viz_name := "item_iron_rod";
     is_resource := false |}.

Definition steel_ingot : Item :=
  {| item_var := "item:steel-ingot"; item_name := "Steel Ingot";
     item_slug := "steel-ingot"; item_viz_name := "item_steel_ingot";
     is_resource := false |}.

Definition recipe_iron_ingot : Recipe :=
  {| recipe_var := "recipe:iron-ingot"; recipe_name := "Recipe: Iron Ingot";
     recipe_slug := "iron-ingot"; recipe_viz_name := "recipe_iron_ingot";
     is_alternate := false; crafter := smelter;
     ingredients := [("item:iron-ore", qc 30)];
     products := [("item:iron-ingot", qc 30)] |}.

Definition recipe_iron_rod : Recipe :=
  {| recipe_var := "recipe:iron-rod"; recipe_name := "Recipe: Iron Rod";
     recipe_slug := "iron-rod"; recipe_viz_name := "recipe_iron_rod";
     is_alternate := false; crafter := constructor;
     ingredients := [("item:iron-ingot", qc 15)];
     products := [("item:iron-rod", qc 15)] |}.

Definition recipe_steel_rod : Recipe :=
  {| recipe_var := "recipe:alternate:steel-rod";
     recipe_name := "Recipe: Alternate: Steel Rod";
     recipe_slug := "alternate:steel-rod";
     recipe_viz_name := "recipe_alternate_steel_rod";
     is_alternate := true; crafter := constructor;
     ingredients := [("item:steel-ingot", qc 12)];
     products := [("item:iron-rod", qc 48)] |}.

(** A standard recipe that is not named after its product. *)
Definition recipe_steel_ingot : Recipe :=
  {| recipe_var := "recipe:foundry-steel"; recipe_name := "Recipe: Foundry Steel";
     recipe_slug := "foundry-steel"; recipe_viz_name := "recipe_foundry_steel";
     is_alternate := false; crafter := smelter;
     ingredients := [("item:iron-ore", qc 45); ("item:coal", qc 45)];
     products := [("item:steel-ingot", qc 45)] |}.

Definition recipe_coke_steel : Recipe :=
  {| recipe_var := "recipe:alternate:coke-steel";
     recipe_name := "Recipe: Alternate: Coke Steel";
     recipe_slug := "alternate:coke-steel";
     recipe_viz_name := "recipe_alternate_coke_steel";
     is_alternate := true; crafter := smelter;
     ingredients := [("item:iron-ore", qc 75); ("item:coal", qc 75)];
     products := [("item:steel-ingot", qc 100)] |}.

Definition power_recipe_coal : PowerRecipe :=
  {| power_recipe_var := "power-recipe:coal";
     power_recipe_name := "Power Recipe: Coal";
     power_recipe_slug := "coal";
     power_recipe_viz_name := "power_recipe_coal";
     generator := coal_generator;
     fuel_item := coal;
     fuel_minute_rate := qc 15;
     power_production := qc 75 |}.

Definition keyed {A : Type} `{CatalogEntity A} (l : list A) : list (string * A) :=
  map (fun x => (var x, x)) l.

Definition demo_recipes : list Recipe :=
  [recipe_iron_ingot; recipe_iron_rod; recipe_steel_rod; recipe_steel_ingot;
   recipe_coke_steel].

Definition demo_db : DB :=
  {| items := keyed [iron_ore; coal; iron_ingot; iron_rod; steel_ingot];
     recipes := keyed demo_recipes;
     power_recipes := keyed [power_recipe_coal];
     crafters := keyed [constructor; smelter];
     generators := keyed [coal_generator];
     recipes_for_product := fun v =>
       List.filter (fun r => existsb (fun p => String.eqb p.1 v) (products r))
         demo_recipes;
     recipes_for_ingredient := fun v =>
       List.filter (fun r => existsb (fun p => String.eqb p.1 v) (ingredients r))
         demo_recipes |}.

(** The regular plural of the names in this catalog. *)
Definition plural_s (s : string) : string := s +:+ "s".

Definition clause (s : bool) (v : value) (t : var_expr) : value_expr :=
  {| strict := s; clause_value := v; target := t; power := false |}.

End Demo.

(** ** Vocabulary of the statements *)

Module Spec.

Import QueryParser Result Demo.

(** *** Optimization queries *)

(** A clause whose value is the objective marker [?]. *)
Definition is_objective (c : value_expr) : bool :=
  match clause_value c with objective_value => true | _ => false end.

Definition count_objective (l : list value_expr) : nat :=
  length (List.filter is_objective l).

Definition same_objective (q q' : OptimizationQuery) : Prop :=
  objective_coefficients q' = objective_coefficients q
  /\ maximize_objective q' = maximize_objective q.

(** A step that sets the objective only from the empty objective, and
    otherwise leaves it alone. *)
Definition marks (step : value_expr -> OptimizationQuery -> result OptimizationQuery)
  : Prop :=
  forall c q q', step c q = Ok q' ->
    if is_objective c
    then objective_coefficients q = ∅ /\ objective_coefficients q' <> ∅
    else same_objective q q'.

(** No key of a constraint map is lost from [q] to [q']. *)
Definition keys_grow (q q' : OptimizationQuery) : Prop :=
  dom (eq_constraints q) ⊆ dom (eq_constraints q')
  /\ dom (ge_constraints q) ⊆ dom (ge_constraints q')
  /\ dom (le_constraints q) ⊆ dom (le_constraints q').

(** The default objective: minimize the unweighted resources. *)
Definition unweighted_default : gmap string Z :=
  {[ "unweighted-resources" := (-1)%Z ]}.

Section Resolving.

Variable plural_of : string -> string.
Variable db : DB.

(** The vars of an exclude clause: [byproducts] names none. *)
Definition exclude_vars (x : exclude_expr) : result (list string) :=
  match x with
  | exclude_var v => clause_vars plural_of db v building_types building_expr
  | byproducts => Ok []
  end.

(** The clauses whose entity expression, if any, matches something. *)
Definition output_resolves (c : value_expr) : bool :=
  is_ok (clause_vars plural_of db (target c) ["item"] "item").
Definition input_resolves (c : value_expr) : bool :=
  is_ok (clause_vars plural_of db (target c) ["resource"; "item"] "resource or item").
Definition include_resolves (v : var_expr) : bool :=
  is_ok (clause_vars plural_of db v building_types building_expr).
Definition exclude_resolves (x : exclude_expr) : bool :=
  is_ok (exclude_vars x).

(** What [_check_var] answers when only the token comparisons count. *)
Definition token_answer (expr_parts : list string) (v : Entity) : result bool :=
  if check_names plural_of expr_parts v then Ok true
  else t ← split_colon_1 (var v);
       Ok (list_string_eqb expr_parts (re_split sep_var t)).

End Resolving.

(** *** Recipes *)

Definition has_slug_of (product : Entity) (r : Recipe) : bool :=
  String.eqb (slug r) (slug product).

(** The recipes that produce one of the matched items, in match order. *)
Definition producing (db : DB) (matches : list Entity) : list Recipe :=
  flat_map (fun m => recipes_for_product db (var m)) matches.

Definition standard (rs : list Recipe) : list Recipe :=
  List.filter (fun r => negb (is_alternate r)) rs.

(** *** Entity expressions and catalog entries *)

Fixpoint string_forall (P : ascii -> bool) (s : string) : bool :=
  match s with
  | EmptyString => true
  | String c s' => P c && string_forall P s'
  end.

(** A pattern without metacharacters: it stands for itself. *)
Definition regex_free (p : string) : bool :=
  string_forall
    (fun c => negb (Re.is_meta c) && negb (Ascii.eqb c ".") && negb (Ascii.eqb c "*")) p.

Definition no_underscore (s : string) : bool :=
  string_forall (fun c => negb (Ascii.eqb c "_")) s.

Definition no_underscore_or_space (s : string) : bool :=
  string_forall (fun c => negb (Ascii.eqb c "_") && negb (is_space c)) s.

(** A catalog entry of the documented shape: names without underscore, a
    var [type:token-token...] without underscore, white space or empty
    token. *)
Definition well_formed (plural_of : string -> string) (v : Entity) : bool :=
  no_underscore (lower (human_readable_name v))
  && no_underscore (plural_of (lower (human_readable_name v)))
  && no_underscore_or_space (var v)
  && match split_colon_1 (var v) with
     | Ok t => forallb nonempty (re_split sep_var t)
     | Raise _ => true
     end.

(** The regular expression that matches one literal text. *)
Fixpoint literal_regex (p : string) : Re.regex :=
  match p with
  | EmptyString => Re.Eps
  | String c p' => Re.Seq (Re.Lit c) (literal_regex p')
  end.

(** *** Rendering *)

(** The statuses other than optimal. *)
Definition unsolved (st : Z) : Prop :=
  st = LpStatusInfeasible \/ st = LpStatusUnbounded
  \/ st = LpStatusNotSolved \/ st = LpStatusUndefined.

(** *** Instances *)

Definition compile_demo := _parse_optimization_query plural_s demo_db true.

Definition or_fresh (m : result OptimizationQuery) : OptimizationQuery :=
  match m with
  | Ok q => q
  | Raise _ => OptimizationQuery_new true ""
  end.

(** [produce ? iron rod from 60 iron ore] *)
Definition rods_from_ore : OptimizationQuery :=
  or_fresh (compile_demo "produce ? iron rod from 60 iron ore"
    [clause false objective_value (entity "iron rod")]
    [clause false (num_value 60) (entity "iron ore")] [] []).

(** [produce ? iron rod] *)
Definition rods_alone : OptimizationQuery :=
  or_fresh (compile_demo "produce ? iron rod"
    [clause false objective_value (entity "iron rod")] [] [] []).

(** [produce _ iron rod using iron rod without iron rod] *)
Definition rods_in_and_out : OptimizationQuery :=
  or_fresh (compile_demo "produce _ iron rod using iron rod without iron rod"
    [clause false any_value (entity "iron rod")] []
    [entity "iron rod"] [exclude_var (entity "iron rod")]).

(** An entry with an underscore in its var. *)
Definition ferrous_rod : Item :=
  {| item_var := "item:iron_rod"; item_name := "Ferrous Rod";
     item_slug := "iron_rod"; item_viz_name := "item_iron_rod";
     is_resource := false |}.

Definition underscore_db : DB :=
  {| items := keyed [ferrous_rod];
     recipes := []; power_recipes := []; crafters := []; generators := [];
     recipes_for_product := fun _ => [];
     recipes_for_ingredient := fun _ => [] |}.

(** A solved plan on the demo catalog: 30 ore in, 30 rods out. *)
Definition rod_plan : OptimizationResult :=
  {| result_db := demo_db;
     result_vars :=
       list_to_map
         [("item:iron-ore", Some (qc (-30))); ("item:coal", Some (qc 0));
          ("item:iron-ingot", Some (qc 0)); ("item:iron-rod", Some (qc 30));
          ("item:steel-ingot", Some (qc 0));
          ("recipe:iron-ingot", Some (qc 1)); ("recipe:iron-rod", Some (qc 2));
          ("recipe:alternate:steel-rod", Some (qc 0));
          ("recipe:foundry-steel", Some (qc 0));
          ("recipe:alternate:coke-steel", Some (qc 0));
          ("power-recipe:coal", Some (qc 0)); ("power", Some (qc (-12)))];
     status := LpStatusOptimal;
     query := OptimizationQuery_new false "produce 30 iron rod" |}.

(** A result of the solver on the demo catalog for a query without
    bound: every variable is there and none has a value. *)
Definition unbounded_plan : OptimizationResult :=
  {| result_db := demo_db;
     result_vars :=
       list_to_map
         (map (fun v => (v, None))
            (map var (values (items demo_db))
             ++ map var (values (recipes demo_db))
             ++ map var (values (power_recipes demo_db))
             ++ map var (values (crafters demo_db))
             ++ map var (values (generators demo_db))
             ++ ["power"]));
     status := LpStatusUnbounded;
     query := OptimizationQuery_new true "produce ? iron rod" |}.

(** A navigation trail of 2200 characters. *)
Definition long_crumbs : Breadcrumbs :=
  {| breadcrumbs_str := String.concat "" (repeat "iron rod > " 200) |}.

End Spec.

(** ** The flow graph in binary64

    The values that the solver returns are Python floats, and
    [generate_graph_viz] computes the amounts of the edges with them. This
    module follows the function with [PrimFloat], the binary64 numbers;
    the text of a rounded float and the labels of the catalog classes are
    parameters. *)

Module Flow64.

Import QueryParser Result Demo Spec.

(** What [generate_graph_viz] reads of an [OptimizationResult]: the
    database and the solver variables with their values ([None] when the
    solver assigned none). *)
Record Plan64 : Type := {
  plan_db : DB;
  plan_vars : gmap string (option float)
}.

(** The graph handed to graphviz: nodes and edges with their labels. *)
Record Digraph64 : Type := {
  nodes64 : list (string * string);
  edges64 : list (string * string * string)
}.

Definition empty_graph64 : Digraph64 := {| nodes64 := []; edges64 := [] |}.

Definition add_node64 (name label : string) (s : Digraph64) : Digraph64 :=
  {| nodes64 := nodes64 s ++ [(name, label)]; edges64 := edges64 s |}.

Definition add_edge64 (tail head label : string) (s : Digraph64) : Digraph64 :=
  {| nodes64 := nodes64 s; edges64 := edges64 s ++ [(tail, head, label)] |}.

Definition targets64 : Type := odict (odict float).

Definition add_to_target64 (item_var : string) (t : targets64) (target : string)
  (amount : float) : targets64 :=
  let inner := match odict_get item_var t with
               | Some d => d
               | None => []
               end in
  odict_set item_var (odict_set target amount inner) t.

(** The state that the loops of [generate_graph_viz] update.
    [power_output] starts as the [int] 0, which is [None] here, and is a
    float once a production has been added. *)
Record GraphState64 : Type := {
  graph64 : Digraph64;
  sources64 : targets64;
  sinks64 : targets64;
  power_output64 : option float
}.

(** [total_sink_amount], summed over the sinks of an item from the [int]
    0 on. *)
Definition total_sink_amount64 (item_sinks : odict float) : float :=
  fold_left (fun total sink => PrimFloat.add total sink.2) item_sinks 0%float.

(** The double quote. *)
Definition dq : string := String (ascii_of_nat 34) "".

Section Graph64.

Variable self : Plan64.

(** The catalog classes are not among the sources: a rate of the catalog
    as the float that [minute_rate()], [fuel_minute_rate()] and
    [power_production()] return, and [viz_label(amount)] of an entity. *)
Variable rate64 : Qc -> float.
Variable viz_label : Entity -> float -> string.

(** [str(round(x, 2))] of a float. *)
Variable str_round2 : float -> string.

(** [str(round(x, 2))] of a number that is a float or still the [int] 0. *)
Definition str_round2_or_int (x : option float) : string :=
  match x with
  | Some x => str_round2 x
  | None => "0"
  end.

(** [self.__vars[var].value()] *)
Definition get_value64 (v : string) : result (option float) :=
  match plan_vars self !! v with
  | Some x => Ok x
  | None => Raise (KeyError v)
  end.

(** The value of [v] when [__has_value(v)] holds: when it is not [None]
    and compares different from zero. *)
Definition nonzero_value64 (v : string) : result (option float) :=
  x ← get_value64 v;
  Ok (match x with
      | Some amount => if PrimFloat.eqb amount 0 then None else Some amount
      | None => None
      end).

Definition __add_nodes64 {A : Type} `{CatalogEntity A} (as_entity : A -> Entity)
  (objs : list A) (s : Digraph64) : result Digraph64 :=
  for_each
    (fun obj s =>
       x ← nonzero_value64 (var obj);
       match x with
       | None => Ok s
       | Some amount =>
           Ok (add_node64 (viz_name obj) (viz_label (as_entity obj) amount) s)
       end)
    objs s.

Definition with_graph64 (g : Digraph64) (st : GraphState64) : GraphState64 :=
  {| graph64 := g; sources64 := sources64 st; sinks64 := sinks64 st;
     power_output64 := power_output64 st |}.

Definition add_source64 (item_var target : string) (amount : float)
  (st : GraphState64) : GraphState64 :=
  {| graph64 := graph64 st;
     sources64 := add_to_target64 item_var (sources64 st) target amount;
     sinks64 := sinks64 st; power_output64 := power_output64 st |}.

Definition add_sink64 (item_var target : string) (amount : float)
  (st : GraphState64) : GraphState64 :=
  {| graph64 := graph64 st; sources64 := sources64 st;
     sinks64 := add_to_target64 item_var (sinks64 st) target amount;
     power_output64 := power_output64 st |}.

Definition item_step64 (item : Item) (st : GraphState64) : result GraphState64 :=
  x ← nonzero_value64 (var item);
  match x with
  | None => Ok st
  | Some amount =>
      if PrimFloat.ltb amount 0
      then Ok (add_source64 (var item) (viz_name item) amount st)
      else Ok (add_sink64 (var item) (viz_name item) amount st)
  end.

Definition recipe_step64 (recipe : Recipe) (st : GraphState64) : result GraphState64 :=
  x ← nonzero_value64 (var recipe);
  match x with
  | None => Ok st
  | Some recipe_amount =>
      let st := fold_left
                  (fun st ing => add_sink64 ing.1 (viz_name recipe)
                                   (PrimFloat.mul recipe_amount (rate64 ing.2)) st)
                  (ingredients recipe) st in
      Ok (fold_left
            (fun st prod => add_source64 prod.1 (viz_name recipe)
                              (PrimFloat.mul recipe_amount (rate64 prod.2)) st)
            (products recipe) st)
  end.

Definition get_power_edge_label (power_production : float) : string :=
  str_round2 power_production +:+ " MW".

Definition power_recipe_step64 (power_recipe : PowerRecipe) (st : GraphState64)
  : result GraphState64 :=
  x ← nonzero_value64 (var power_recipe);
  match x with
  | None => Ok st
  | Some amount =>
      let fuel_amount :=
        PrimFloat.mul amount (rate64 (fuel_minute_rate power_recipe)) in
      let st := add_sink64 (var (fuel_item power_recipe)) (viz_name power_recipe)
                  fuel_amount st in
      let production :=
        PrimFloat.mul amount (rate64 (power_production power_recipe)) in
      let so_far := match power_output64 st with Some x => x | None => 0%float end in
      Ok {| graph64 := add_edge64 (viz_name power_recipe) "power"
                         (get_power_edge_label production) (graph64 st);
            sources64 := sources64 st; sinks64 := sinks64 st;
            power_output64 := Some (PrimFloat.add so_far production) |}
  end.

(** [__power_viz_label(output, net)] *)
Definition __power_viz_label (output net : option float) : string :=
  let color :=
    if match net with Some x => PrimFloat.ltb x 0 | None => false end
    then "moccasin" else "lightblue" in
  let out := "<" in
  let out := out +:+ "<TABLE BORDER=" +:+ dq +:+ "0" +:+ dq
             +:+ " CELLBORDER=" +:+ dq +:+ "1" +:+ dq
             +:+ " CELLSPACING=" +:+ dq +:+ "0" +:+ dq
             +:+ " CELLPADDING=" +:+ dq +:+ "4" +:+ dq +:+ ">" in
  let out :=
    if match output with Some x => PrimFloat.ltb 0 x | None => false end
    then out +:+ "<TR>"
         +:+ "<TD COLSPAN=" +:+ dq +:+ "2" +:+ dq +:+ " BGCOLOR=" +:+ dq +:+ color
         +:+ dq +:+ ">Power Output</TD>"
         +:+ "<TD>" +:+ str_round2_or_int output +:+ " MW</TD>"
         +:+ "</TR>"
    else out in
  let out := out +:+ "<TR>" in
  let out := out +:+ "<TD COLSPAN=" +:+ dq +:+ "2" +:+ dq +:+ " BGCOLOR=" +:+ dq
             +:+ color +:+ dq +:+ ">Net Power</TD>" in
  let out := out +:+ "<TD>" +:+ str_round2_or_int net +:+ " MW</TD>" in
  let out := out +:+ "</TR>" in
  out +:+ "</TABLE>>".

Definition get_edge_label (item : string) (amount : float) : string :=
  str_round2 amount +:+ "/m" +:+ nl +:+ item.

(** The inner loops of "connect each source to all sinks of that item",
    for one source of one item. Python raises ZeroDivisionError when the
    divisor compares equal to zero. *)
Definition connect_source64 (item_name : string) (item_sinks : odict float)
  (src : string * float) (s : Digraph64) : result Digraph64 :=
  let total := total_sink_amount64 item_sinks in
  if PrimFloat.eqb total 0 then Raise ZeroDivisionError
  else
    let multiplier := PrimFloat.div src.2 total in
    Ok (fold_left
          (fun s sink =>
             add_edge64 src.1 sink.1
               (get_edge_label item_name (PrimFloat.mul multiplier sink.2)) s)
          item_sinks s).

Definition connect_item64 (all_sinks : targets64) (entry : string * odict float)
  (s : Digraph64) : result Digraph64 :=
  match odict_get entry.1 (items (plan_db self)) with
  | None => Raise (KeyError entry.1)
  | Some item =>
      match odict_get entry.1 all_sinks with
      | None => Ok s
      | Some item_sinks =>
          for_each (connect_source64 (human_readable_name item) item_sinks) entry.2 s
      end
  end.

Definition connect64 (all_sources all_sinks : targets64) (s : Digraph64)
  : result Digraph64 :=
  for_each (connect_item64 all_sinks) all_sources s.

(** The sources and sinks maps, the nodes and the power edges, before the
    sources are connected to the sinks. *)
Definition collect64 : result GraphState64 :=
  let db := plan_db self in
  let st := {| graph64 := empty_graph64; sources64 := []; sinks64 := [];
               power_output64 := None |} in
  g ← __add_nodes64 EItem (values (items db)) (graph64 st);
  st ← for_each item_step64 (values (items db)) (with_graph64 g st);
  g ← __add_nodes64 ERecipe (values (recipes db)) (graph64 st);
  st ← for_each recipe_step64 (values (recipes db)) (with_graph64 g st);
  net_power ← nonzero_value64 "power";
  g ← __add_nodes64 EPowerRecipe (values (power_recipes db)) (graph64 st);
  st ← for_each power_recipe_step64 (values (power_recipes db)) (with_graph64 g st);
  Ok (with_graph64
        (add_node64 "power" (__power_viz_label (power_output64 st) net_power)
           (graph64 st)) st).

(** The graph handed to [s.render()]. *)
Definition generate_graph_viz64 : result Digraph64 :=
  st ← collect64;
  connect64 (sources64 st) (sinks64 st) (graph64 st).

(** *** Vocabulary of the statements *)

(** The amount on the edge from a source to a sink of an item. *)
Definition edge_amount64 (source_amount total_sink_demand sink_amount : float)
  : float :=
  PrimFloat.mul (PrimFloat.div source_amount total_sink_demand) sink_amount.

(** The edges from one source of an item: one per sink, in the order of
    the sinks. *)
Definition source_edges64 (item_name : string) (item_sinks : odict float)
  (src : string * float) : list (string * string * string) :=
  map (fun sink =>
         (src.1, sink.1,
          get_edge_label item_name
            (edge_amount64 src.2 (total_sink_amount64 item_sinks) sink.2)))
    item_sinks.

(** The edges of one entry of the sources map: none when the item has no
    sinks. *)
Definition item_edges64 (all_sinks : targets64) (entry : string * odict float)
  : list (string * string * string) :=
  match odict_get entry.1 (items (plan_db self)), odict_get entry.1 all_sinks with
  | Some item, Some item_sinks =>
      flat_map (source_edges64 (human_readable_name item) item_sinks) entry.2
  | _, _ => []
  end.

End Graph64.

(** The sum of amounts, from left to right. *)
Definition sum64 (amounts : list float) : float :=
  fold_left PrimFloat.add amounts 0%float.

(** *** Instances *)

(** The float of a rate: exact for an integer below [2^53], and the
    nearest float of a quotient of two such integers. *)
Definition float_of_Z (z : Z) : float :=
  match z with
  | Z0 => 0%float
  | Zpos _ => PrimFloat.of_uint63 (Uint63.of_Z z)
  | Zneg p => PrimFloat.opp (PrimFloat.of_uint63 (Uint63.of_Z (Zpos p)))
  end.

Definition float_of_rate (q : Qc) : float :=
  PrimFloat.div (float_of_Z (Qnum (this q))) (float_of_Z (Zpos (Qden (this q)))).

(** A catalog of one item, two recipes that make it and two that use it,
    each at one a minute. *)
Definition plate : Item :=
  {| item_var := "item:plate"; item_name := "Plate";
     item_slug := "plate"; item_viz_name := "item_plate";
     is_resource := false |}.

Definition plate_recipe (letter : string) (makes : bool) : Recipe :=
  {| recipe_var := "recipe:" +:+ letter; recipe_name := "Recipe: " +:+ letter;
     recipe_slug := letter; recipe_viz_name := "recipe_" +:+ letter;
     is_alternate := false; crafter := constructor;
     ingredients := if makes then [] else [("item:plate", qc 1)];
     products := if makes then [("item:plate", qc 1)] else [] |}.

Definition plate_recipes : list Recipe :=
  [plate_recipe "a" true; plate_recipe "b" true;
   plate_recipe "s1" false; plate_recipe "s2" false].

Definition plate_db : DB :=
  {| items := keyed [plate];
     recipes := keyed plate_recipes;
     power_recipes := []; crafters := keyed [constructor]; generators := [];
     recipes_for_product := fun v =>
       List.filter (fun r => existsb (fun p => String.eqb p.1 v) (products r))
         plate_recipes;
     recipes_for_ingredient := fun v =>
       List.filter (fun r => existsb (fun p => String.eqb p.1 v) (ingredients r))
         plate_recipes |}.

(** A plan on that catalog: the recipes [a] and [b] make [a] and [b]
    plates a minute, the recipes [s1] and [s2] use [s1] and [s2]. *)
Definition plate_plan (a b s1 s2 : float) : Plan64 :=
  {| plan_db := plate_db;
     plan_vars :=
       list_to_map
         [("item:plate", Some 0%float);
          ("recipe:a", Some a); ("recipe:b", Some b);
          ("recipe:s1", Some s1); ("recipe:s2", Some s2);
          ("crafter:constructor", Some 4%float);
          ("power", Some 0%float)] |}.

(** Two sources of 30 and 10 and two sinks of 20 and 20. *)
Definition even_plan : Plan64 := plate_plan 30 10 20 20.

(** Stand-ins for the labels of the catalog classes and for the text of
    a rounded float. *)
Definition no_label (e : Entity) (amount : float) : string := "".
Definition no_text (x : float) : string := "".

Definition even_graph : Digraph64 :=
  match generate_graph_viz64 even_plan float_of_rate no_label no_text with
  | Ok g => g
  | Raise _ => empty_graph64
  end.

(** The floats of 0.1, 0.6 and 0.7, and of the decimals
    0.014285714285714289, 0.08571428571428573, 0.08571428571428572 and
    0.10000000000000002. *)
Definition f0_1 : float := 0x1.999999999999ap-4.
Definition f0_6 : float := 0x1.3333333333333p-1.
Definition f0_7 : float := 0x1.6666666666666p-1.
Definition f0_014285714285714289 : float := 0x1.d41d41d41d41fp-7.
Definition f0_08571428571428573 : float := 0x1.5f15f15f15f17p-4.
Definition f0_08571428571428572 : float := 0x1.5f15f15f15f16p-4.
Definition f0_10000000000000002 : float := 0x1.999999999999bp-4.

(** Two sources of 0.1 and 0.6 and two sinks of 0.1 and 0.6. *)
Definition tenth_plan : Plan64 := plate_plan f0_1 f0_6 f0_1 f0_6.

End Flow64.

From Stdlib Require Import DecimalString Sorted.

(** ** Further vocabulary *)

Module More.

Import QueryParser Result Demo Spec.

(** *** Flags of an optimization query *)

#[global] Instance flag_eq_dec : EqDecision flag.
Proof. solve_decision. Defined.

(** The attribute that a flag names. *)
Definition flag_value (f : flag) (q : OptimizationQuery) : bool :=
  match f with
  | Strict_inputs => strict_inputs q
  | Strict_outputs => strict_outputs q
  | Strict_recipes => strict_recipes q
  | Strict_power_recipes => strict_power_recipes q
  | Strict_crafters => strict_crafters q
  | Strict_generators => strict_generators q
  | Has_power_output => has_power_output q
  end.

(** The flag that the var of an include clause switches on. *)
Definition include_flag_of (v : string) (g : flag) : bool :=
  match g with
  | Strict_recipes => startswith v "recipe:"
  | Strict_power_recipes => startswith v "power-recipe:"
  | Strict_crafters => startswith v "crafter:"
  | Strict_generators => startswith v "generator:"
  | _ => false
  end.

Definition is_byproducts (x : exclude_expr) : bool :=
  match x with byproducts => true | exclude_var _ => false end.

Definition is_num (c : value_expr) : bool :=
  match clause_value c with num_value _ => true | _ => false end.

Section Resolved.

Variable plural_of : string -> string.
Variable db : DB.

(** The vars that a clause resolves to, none when resolution raises. *)
Definition vars_of (tys : list string) (what : string) (v : var_expr) : list string :=
  match clause_vars plural_of db v tys what with
  | Ok vs => vs
  | Raise _ => []
  end.

Definition output_vars_of (c : value_expr) : list string :=
  vars_of ["item"] "item" (target c).
Definition input_vars_of (c : value_expr) : list string :=
  vars_of ["resource"; "item"] "resource or item" (target c).
Definition include_vars_of (v : var_expr) : list string :=
  vars_of building_types building_expr v.
Definition exclude_vars_of (x : exclude_expr) : list string :=
  match exclude_vars plural_of db x with
  | Ok vs => vs
  | Raise _ => []
  end.

End Resolved.

(** *** Catalog categories *)

(** The category name under which [_get_matches] lets an entity in. *)
Definition category (e : Entity) : string :=
  match e with
  | EItem i => if is_resource i then "resource" else "item"
  | ERecipe _ => "recipe"
  | EPowerRecipe _ => "power-recipe"
  | ECrafter _ => "crafter"
  | EGenerator _ => "generator"
  end.

(** An entity that is a recipe or a power recipe. *)
Definition is_recipe_kind (m : Entity) : bool :=
  match m with
  | ERecipe _ | EPowerRecipe _ => true
  | _ => false
  end.

(** What the loop of [_parse_recipes_for_query] appends for one matched
    var. *)
Definition listed_for (db : DB) (v : string) : list Entity :=
  if startswith v "item" || startswith v "resource"
  then map ERecipe (recipes_for_product db v)
  else if startswith v "crafter"
  then map ERecipe
         (List.filter (fun r => String.eqb (var (crafter r)) v) (values (recipes db)))
  else if startswith v "generator"
  then map EPowerRecipe
         (List.filter (fun r => String.eqb (var (generator r)) v)
            (values (power_recipes db)))
  else [].

(** *** Bounds and coefficients of an optimization query *)

(** Every bound in the map satisfies [P]. *)
Definition bounds_all (P : Z -> Prop) (m : gmap string Z) : Prop :=
  forall v z, m !! v = Some z -> P z.

(** The signs that the handlers keep: equalities are not negative, lower
    bounds are not positive, upper bounds are zero. *)
Definition signs (q : OptimizationQuery) : Prop :=
  bounds_all (fun z => (0 <= z)%Z) (eq_constraints q)
  /\ bounds_all (fun z => (z <= 0)%Z) (ge_constraints q)
  /\ bounds_all (fun z => z = 0%Z) (le_constraints q).

(** The coefficients agree with the direction. *)
Definition directed (q : OptimizationQuery) : Prop :=
  forall v z, objective_coefficients q !! v = Some z ->
    z = if maximize_objective q then 1%Z else (-1)%Z.

End More.

(** ** [result.py], continued *)

Module ResultMore.

Import QueryParser Result Demo Spec More.

(** *** Python sequences *)

(** [str(n)] for an [int]. *)
Definition str_int (n : Z) : string := NilZero.string_of_int (Z.to_int n).

(** Where an index or a slice bound lands in a sequence of length [len]:
    a negative one counts from the end. *)
Definition wrap (len i : Z) : Z := if (i <? 0)%Z then (i + len)%Z else i.

(** [l[i]] *)
Definition py_index {A : Type} (l : list A) (i : Z) : result A :=
  let j := wrap (Z.of_nat (length l)) i in
  if (j <? 0)%Z then Raise IndexError
  else match nth_error l (Z.to_nat j) with
       | Some x => Ok x
       | None => Raise IndexError
       end.

(** [l[a:b]] *)
Definition py_slice {A : Type} (l : list A) (a b : Z) : list A :=
  let len := Z.of_nat (length l) in
  let clamp i := Z.min (Z.max (wrap len i) 0) len in
  let a' := clamp a in
  let b' := clamp b in
  take (Z.to_nat (b' - a')) (drop (Z.to_nat a') l).

(** [sorted(l, key=...)]: the stable sort of [l] by the order of the
    keys, written as an insertion from the right. *)
Fixpoint insert_by {A : Type} (key : A -> string) (x : A) (l : list A) : list A :=
  match l with
  | [] => [x]
  | y :: l' =>
      if String.leb (key x) (key y) then x :: y :: l' else y :: insert_by key x l'
  end.

Definition sorted_by {A : Type} (key : A -> string) (l : list A) : list A :=
  fold_right (insert_by key) [] l.

(** The order of the keys: [key(a) <= key(b)]. *)
Definition key_le {A : Type} (key : A -> string) (a b : A) : Prop :=
  String.leb (key a) (key b) = true.

(** *** InfoResult *)

Definition num_on_page : Z := 9.

Record InfoResult : Type := {
  _vars : list Entity;
  _raw_query : string;
  _add_reaction_selectors : bool
}.

(** [InfoResult.__init__] *)
Definition InfoResult_new (vars_ : list Entity) (raw : string) : InfoResult :=
  {| _vars := sorted_by human_readable_name vars_;
     _raw_query := raw;
     _add_reaction_selectors := false |}.

(** [math.ceil(len(self._vars) / InfoResult.num_on_page)] *)
Definition _num_pages (self : InfoResult) : Z :=
  (Z.of_nat (length (_vars self)) + num_on_page - 1) / num_on_page.

Definition _footer (self : InfoResult) (page : Z) : string :=
  "Page " +:+ str_int page +:+ " of " +:+ str_int (_num_pages self).

Definition _get_var_on_page (self : InfoResult) (page index : Z) : result Entity :=
  let var_index := ((page - 1) * num_on_page + index)%Z in
  py_index (_vars self) var_index.

(** What [_get_info_page] and [message] assign to the message and to its
    embed. *)
Record InfoMessage : Type := {
  info_title : string;
  info_description : string;
  info_footer : string;
  info_content : string;
  info_reactions : list string
}.

(** The names listed on a page: [var_names[start_index:last_index]]. *)
Definition vars_on_page (self : InfoResult) (page : Z) : list string :=
  let var_names := map human_readable_name (_vars self) in
  let start_index := ((page - 1) * num_on_page)%Z in
  let last_index := (start_index + num_on_page)%Z in
  py_slice var_names start_index last_index.

Section Pages.

(** The constants of [ada.emoji]. *)
Variable PREVIOUS_PAGE INFO NEXT_PAGE : string.
Variable NUM_EMOJI : list string.

(** [ada/result_message.py] is not among the sources: the reactions that
    a fresh [ResultMessage()] starts with. *)
Variable fresh_reactions : list string.

(** [str(self)], given [details()] of the entities. *)
Definition InfoResult_str (details : Entity -> string) (self : InfoResult) : string :=
  match _vars self with
  | [v] => details v
  | _ => join nl (sorted_by (fun s => s) (map human_readable_name (_vars self)))
  end.

(** The loop of [_get_info_page] over [enumerate(vars_on_page)]: the
    lines and, with selectors, the reactions. *)
Fixpoint page_lines (selectors : bool) (i : Z) (names : list string)
  (out reactions : list string) : result (list string * list string) :=
  match names with
  | [] => Ok (out, reactions)
  | var_ :: rest =>
      if selectors
      then prefix ← py_index NUM_EMOJI (i + 1);
           page_lines selectors (i + 1) rest
             (out ++ ["- " +:+ prefix +:+ var_]) (reactions ++ [prefix])
      else page_lines selectors (i + 1) rest (out ++ ["- " +:+ var_]) reactions
  end.

(** The lines of a page with selectors: each name after the number emoji
    of its place, which start at [NUM_EMOJI[1]]. *)
Definition numbered (names : list string) : list string :=
  zip_with (fun prefix var_ => "- " +:+ prefix +:+ var_) (drop 1 NUM_EMOJI) names.

(** [_get_info_page(breadcrumbs)], with [page] the value of
    [breadcrumbs.page()]. *)
Definition _get_info_page (self : InfoResult) (breadcrumbs : Breadcrumbs) (page : Z)
  : result InfoMessage :=
  '(out, reactions) ← page_lines (_add_reaction_selectors self) 0
                        (vars_on_page self page) [] fresh_reactions;
  let reactions :=
    if _add_reaction_selectors self then reactions
    else (if (1 <? page)%Z then [PREVIOUS_PAGE] else [])
         ++ [INFO]
         ++ (if (page <? _num_pages self)%Z then [NEXT_PAGE] else []) in
  Ok {| info_title := "Found " +:+ str_int (Z.of_nat (length (_vars self)))
                      +:+ " matches:";
        info_description := join nl out;
        info_footer := _footer self page;
        info_content := breadcrumbs_str breadcrumbs;
        info_reactions := reactions |}.

End Pages.

(** *** The solution behind an OptimizationResult *)

Local Open Scope Qc_scope.

(** The dicts that [OptimizationResult.__init__] builds, from var to the
    object and its amount, and the net power. *)
Record Extracted : Type := {
  ex_inputs : odict (Item * Qc);
  ex_outputs : odict (Item * Qc);
  ex_recipes : odict (Recipe * Qc);
  ex_crafters : odict (Crafter * Qc);
  ex_generators : odict (Generator * Qc);
  ex_net_power : Qc
}.

Section Extract.

Variable self : OptimizationResult.

(** A dict comprehension over [objs] that keeps the objects with a value
    other than zero accepted by [keep], under their var. *)
Definition comprehend {A : Type} `{CatalogEntity A} (keep : Qc -> bool)
  (amount : Qc -> Qc) (objs : list A) : result (odict (A * Qc)) :=
  for_each
    (fun obj d =>
       x ← nonzero_value self (var obj);
       match x with
       | Some a => if keep a then Ok (odict_set (var obj) (obj, amount a) d) else Ok d
       | None => Ok d
       end)
    objs [].

Definition extract : result Extracted :=
  let db := result_db self in
  inputs ← comprehend (fun a => bool_decide (a < 0)) (fun a => - a) (values (items db));
  outputs ← comprehend (fun a => bool_decide (0 < a)) (fun a => a) (values (items db));
  recipes ← comprehend (fun _ => true) (fun a => a) (values (recipes db));
  crafters ← comprehend (fun _ => true) (fun a => a) (values (crafters db));
  generators ← comprehend (fun _ => true) (fun a => a) (values (generators db));
  p ← nonzero_value self "power";
  Ok {| ex_inputs := inputs; ex_outputs := outputs; ex_recipes := recipes;
        ex_crafters := crafters; ex_generators := generators;
        ex_net_power := match p with Some x => x | None => 0 end |}.

(** [__has_non_zero_var]: some solver variable has a value other than
    zero. *)
Definition __has_non_zero_var : bool :=
  existsb
    (fun kv => match kv.2 with
               | Some a => negb (bool_decide (a = 0))
               | None => false
               end)
    (map_to_list (result_vars self)).

Definition has_solution : bool :=
  (status self =? LpStatusOptimal)%Z && __has_non_zero_var.

End Extract.

(** *** Percentages of the recipe comparison *)

(** [round(x, 0)] then [int()]: to the nearest integer, a half to the
    even one. A finite float is a rational number, and the rounding of a
    float to no digits is exact. *)
Definition round_half_even (x : Qc) : Z :=
  let n := Qnum (this x) in
  let d := Zpos (Qden (this x)) in
  let fl := (n / d)%Z in
  let twice := (2 * (n - fl * d))%Z in
  if (twice <? d)%Z then fl
  else if (d <? twice)%Z then (fl + 1)%Z
  else if Z.even fl then fl else (fl + 1)%Z.

(** A percentage is a number or a text such as a marker for a new input. *)
Inductive percentage : Type :=
| percent_number (x : Qc)
| percent_text (s : string).

(** [get_percentage_str] *)
Definition get_percentage_str (p : percentage) : string :=
  match p with
  | percent_text s => s
  | percent_number x =>
      let percentage_string := str_int (round_half_even x) in
      let percentage_string :=
        if bool_decide (0 < x) then "+" +:+ percentage_string else percentage_string in
      percentage_string +:+ "%"
  end.

End ResultMore.

Module Plans.

Import QueryParser Result Demo Spec.

Local Open Scope Qc_scope.

(** The solver has a variable for [v]. *)
Definition valued (self : OptimizationResult) (v : string) : bool :=
  match result_vars self !! v with Some _ => true | None => false end.

(** The value of [v] is not below zero, when it has one. *)
Definition runs_forward (self : OptimizationResult) (v : string) : bool :=
  match result_vars self !! v with
  | Some (Some x) => bool_decide (0 <= x)
  | _ => true
  end.

(** Every item, recipe and power recipe of the catalog and "power" have a
    solver variable. *)
Definition all_valued (self : OptimizationResult) : bool :=
  let db := result_db self in
  forallb (fun item => valued self (var item)) (values (items db))
  && forallb (fun recipe => valued self (var recipe)) (values (recipes db))
  && forallb (fun power_recipe => valued self (var power_recipe))
       (values (power_recipes db))
  && valued self "power".

(** The items of the catalog are stored under their var, and so is every
    product of a recipe. *)
Definition closed_catalog (db : DB) : bool :=
  let known v := match odict_get v (items db) with Some _ => true | None => false end in
  forallb (fun item => known (var item)) (values (items db))
  && forallb (fun recipe => forallb (fun prod => known prod.1) (products recipe))
       (values (recipes db)).

(** No recipe and no power recipe runs backwards, and what they consume
    they consume at a rate above zero. *)
Definition consuming (self : OptimizationResult) : bool :=
  let db := result_db self in
  forallb (fun recipe =>
             runs_forward self (var recipe)
             && forallb (fun ing => bool_decide (0 < ing.2)) (ingredients recipe))
    (values (recipes db))
  && forallb (fun power_recipe =>
                runs_forward self (var power_recipe)
                && bool_decide (0 < fuel_minute_rate power_recipe))
       (values (power_recipes db)).

(** Every item of a sinks map has a sink, and every amount is above
    zero. *)
Definition positive_sinks (t : targets) : Prop :=
  Forall (fun e => e.2 <> [] /\ Forall (fun s => 0 < s.2) e.2) t.

(** Every item of a sources map is an item of the catalog. *)
Definition known_sources (db : DB) (t : targets) : Prop :=
  Forall (fun e => is_Some (odict_get e.1 (items db))) t.

(** What the loops of [generate_graph_viz] keep of the maps they fill. *)
Definition drawable (self : OptimizationResult) (st : GraphState) : Prop :=
  positive_sinks (sinks st) /\ known_sources (result_db self) (sources st).

End Plans.

Module Cases.

Import QueryParser Result Demo Spec More ResultMore Plans.

(** [produce 30 iron rod from ? iron ore] *)
Definition ore_for_rods : OptimizationQuery :=
  or_fresh (compile_demo "produce 30 iron rod from ? iron ore"
    [clause false (num_value 30) (entity "iron rod")]
    [clause false objective_value (entity "iron ore")] [] []).

(** [produce only 30 iron rod from 60 iron ore using constructor without
    coal] *)
Definition bounded_rods : OptimizationQuery :=
  or_fresh (compile_demo
    "produce only 30 iron rod from 60 iron ore using constructor without coal"
    [clause true (num_value 30) (entity "iron rod")]
    [clause false (num_value 60) (entity "iron ore")]
    [entity "constructor"] [exclude_var (entity "coal")]).

Definition or_no_info (m : result InfoQuery) : InfoQuery :=
  match m with
  | Ok q => q
  | Raise _ => {| info_raw_query := ""; vars := [] |}
  end.

Definition or_no_comparison (m : result RecipeCompareQuery) : RecipeCompareQuery :=
  match m with
  | Ok q => q
  | Raise _ =>
      {| compare_raw_query := ""; product_item := EItem iron_rod;
         base_recipe := recipe_iron_rod; related_recipes := [];
         exclude_alternates := false |}
  end.

(** [compare recipes for iron rod] *)
Definition rod_comparison : RecipeCompareQuery :=
  or_no_comparison
    (_parse_recipe_compare_query plural_s demo_db "compare recipes for iron rod"
       "iron rod" false).

(** [iron rod] *)
Definition rod_details : InfoQuery :=
  or_no_info (_parse_entity_details plural_s demo_db "iron rod" "iron rod").

(** [recipes from iron ore] *)
Definition ore_consumers : InfoQuery :=
  or_no_info (_parse_recipes_from_query plural_s demo_db "recipes from iron ore"
                "iron ore").

(** [recipes for constructor] *)
Definition constructor_recipes : InfoQuery :=
  or_no_info (_parse_recipes_for_query plural_s demo_db "recipes for constructor"
                "constructor").

Definition nothing_extracted : Extracted :=
  {| ex_inputs := []; ex_outputs := []; ex_recipes := []; ex_crafters := [];
     ex_generators := []; ex_net_power := Q2Qc 0 |}.

(** The plan of 30 rods with the buildings it runs in. *)
Definition staffed_rod_plan : OptimizationResult :=
  {| result_db := demo_db;
     result_vars :=
       result_vars rod_plan
       ∪ list_to_map
           [("crafter:constructor", Some (qc 2)); ("crafter:smelter", Some (qc 1));
            ("generator:coal-generator", Some (qc 0))];
     status := LpStatusOptimal;
     query := OptimizationQuery_new false "produce 30 iron rod" |}.

Definition rod_extract : Extracted :=
  match extract staffed_rod_plan with
  | Ok ex => ex
  | Raise _ => nothing_extracted
  end.

(** An optimal plan in which nothing runs. *)
Definition idle_plan : OptimizationResult :=
  {| result_db := demo_db;
     result_vars :=
       list_to_map
         (map (fun v => (v, Some (qc 0)))
            (map var (values (items demo_db))
             ++ map var (values (recipes demo_db))
             ++ map var (values (crafters demo_db))
             ++ map var (values (generators demo_db))
             ++ ["power"]));
     status := LpStatusOptimal;
     query := OptimizationQuery_new false "produce 0 iron rod" |}.

Definition idle_extract : Extracted :=
  match extract idle_plan with
  | Ok ex => ex
  | Raise _ => rod_extract
  end.

(** Every entity of the demo catalog, as the matches of one query. *)
Definition whole_catalog : InfoResult :=
  InfoResult_new
    (map EItem (values (items demo_db)) ++ map ERecipe (values (recipes demo_db))
     ++ map EPowerRecipe (values (power_recipes demo_db))
     ++ map ECrafter (values (crafters demo_db))
     ++ map EGenerator (values (generators demo_db)))
    "o".

Definition whole_catalog_selecting : InfoResult :=
  {| _vars := _vars whole_catalog; _raw_query := "o";
     _add_reaction_selectors := true |}.

(** Stand-ins for the eleven number emoji. *)
Definition keycaps : list string :=
  ["0"; "1"; "2"; "3"; "4"; "5"; "6"; "7"; "8"; "9"; "10"].

End Cases.

(** * Properties *)

Import QueryParser Result Demo Spec Flow64.

Local Open Scope string_scope.
Local Open Scope list_scope.

(** ** Sequencing and dictionaries *)

Lemma for_each_app {A S : Type} (f : A -> S -> result S) (l1 l2 : list A) (s : S) :
  for_each f (l1 ++ l2) s = for_each f l1 s ≫= for_each f l2.
Proof.
  revert s. induction l1 as [|x l1 IH]; intros s; simpl; [reflexivity|].
  destruct (f x s) as [s'|e]; simpl; [apply IH | reflexivity].
Qed.

Lemma bind_Ok_inv {A B : Type} (m : result A) (f : A -> result B) (b : B) :
  m ≫= f = Ok b -> exists a, m = Ok a /\ f a = Ok b.
Proof. destruct m as [a|e]; simpl; [eauto | discriminate]. Qed.

Lemma dict_of_lookup_aux (z : Z) (vs : list string) (m : gmap string Z) (k : string) :
  fold_left (fun m kv => <[kv.1 := kv.2]> m) (map (fun v => (v, z)) vs) m !! k
  = if bool_decide (k ∈ vs) then Some z else m !! k.
Proof.
  revert m. induction vs as [|v vs IH]; intros m; cbn [fold_left map].
  - case_bool_decide as Hin; [|reflexivity]. now apply elem_of_nil in Hin.
  - rewrite IH. cbn [fst snd].
    destruct (decide (k ∈ vs)) as [Hin|Hin].
    + rewrite !bool_decide_eq_true_2; [reflexivity | | exact Hin].
      apply elem_of_cons. now right.
    + rewrite (bool_decide_eq_false_2 _ Hin).
      destruct (decide (k = v)) as [->|Hne].
      * rewrite lookup_insert_eq, bool_decide_eq_true_2; [reflexivity|].
        apply elem_of_cons. now left.
      * rewrite lookup_insert_ne by congruence.
        rewrite bool_decide_eq_false_2; [reflexivity|].
        intros [Heq|Hin']%elem_of_cons; contradiction.
Qed.

Lemma dict_of_const_lookup (z : Z) (vs : list string) (k : string) :
  dict_of (map (fun v => (v, z)) vs) !! k
  = if bool_decide (k ∈ vs) then Some z else None.
Proof. unfold dict_of. rewrite dict_of_lookup_aux. now rewrite lookup_empty. Qed.

Lemma dict_of_const_nonempty (z : Z) (vs : list string) :
  vs <> [] -> dict_of (map (fun v => (v, z)) vs) <> ∅.
Proof.
  destruct vs as [|v vs]; [congruence|]. intros _ Hempty.
  assert (H := dict_of_const_lookup z (v :: vs) v).
  rewrite Hempty, lookup_empty, bool_decide_eq_true_2 in H; [discriminate|].
  apply elem_of_cons; now left.
Qed.

Lemma size_pos_iff (m : gmap string Z) :
  (0 <? size m)%nat = negb (bool_decide (m = ∅)).
Proof.
  destruct (decide (m = ∅)) as [->|Hne].
  - now rewrite map_size_empty, bool_decide_eq_true_2.
  - rewrite bool_decide_eq_false_2 by assumption. simpl.
    apply Nat.ltb_lt. apply map_size_non_empty_iff in Hne. lia.
Qed.

(** ** The clause handlers, one clause at a time *)

Section Handlers.

Variable plural_of : string -> string.
Variable db : DB.

Lemma set_flag_if_maps (c : bool) (f : flag) (q : OptimizationQuery) :
  objective_coefficients (set_flag_if c f q) = objective_coefficients q
  /\ maximize_objective (set_flag_if c f q) = maximize_objective q
  /\ eq_constraints (set_flag_if c f q) = eq_constraints q
  /\ ge_constraints (set_flag_if c f q) = ge_constraints q
  /\ le_constraints (set_flag_if c f q) = le_constraints q.
Proof. destruct c; simpl; auto. Qed.

Lemma clause_vars_nonempty (v : var_expr) (tys : list string) (what : string)
  (vs : list string) :
  clause_vars plural_of db v tys what = Ok vs -> vs <> [].
Proof.
  destruct v as [s|e]; simpl.
  - intros [= <-]. discriminate.
  - destruct (_get_matches plural_of db e tys) as [ms|err]; simpl; [|discriminate].
    destruct ms as [|m ms]; simpl; [discriminate|].
    intros [= <-]. discriminate.
Qed.

(** One output clause: the vars it resolves to, and its effect. *)
Lemma _parse_output_inv (c : value_expr) (q q' : OptimizationQuery) :
  _parse_output plural_of db c q = Ok q' ->
  exists vs,
    clause_vars plural_of db (target c) ["item"] "item" = Ok vs /\ vs <> [] /\
    match clause_value c with
    | objective_value =>
        objective_coefficients q = ∅
        /\ maximize_objective q' = true
        /\ objective_coefficients q' = dict_of (map (fun v => (v, 1%Z)) vs)
        /\ eq_constraints q' = eq_constraints q
        /\ ge_constraints q' = ge_constraints q
        /\ le_constraints q' = le_constraints q
    | any_value =>
        same_objective q q'
        /\ eq_constraints q' = eq_constraints q
        /\ ge_constraints q'
           = dict_update (ge_constraints q) (dict_of (map (fun v => (v, 0%Z)) vs))
        /\ le_constraints q' = le_constraints q
    | num_value n =>
        same_objective q q'
        /\ eq_constraints q'
           = dict_update (eq_constraints q) (dict_of (map (fun v => (v, Z.of_N n)) vs))
        /\ ge_constraints q' = ge_constraints q
        /\ le_constraints q' = le_constraints q
    end.
Proof.
  unfold _parse_output. intros H.
  apply bind_Ok_inv in H as (vs & Hvs & H).
  exists vs. split; [assumption|]. split; [eapply clause_vars_nonempty; eassumption|].
  apply bind_Ok_inv in H as (q1 & Hq1 & [= <-]). cbv zeta. unfold same_objective.
  destruct (set_flag_if_maps (power c) Has_power_output
              (set_flag_if (strict c) Strict_outputs q1)) as (-> & -> & -> & -> & ->).
  destruct (set_flag_if_maps (strict c) Strict_outputs q1) as (-> & -> & -> & -> & ->).
  unfold same_objective.
  destruct (clause_value c) as [| |n].
  - rewrite size_pos_iff in Hq1. case_bool_decide as Hobj; simpl in Hq1; [|discriminate].
    injection Hq1 as <-. simpl. repeat split; try reflexivity; assumption.
  - injection Hq1 as <-. simpl. repeat split; reflexivity.
  - injection Hq1 as <-. simpl. repeat split; reflexivity.
Qed.

Lemma _parse_input_inv (c : value_expr) (q q' : OptimizationQuery) :
  _parse_input plural_of db c q = Ok q' ->
  exists vs,
    clause_vars plural_of db (target c) ["resource"; "item"] "resource or item" = Ok vs
    /\ vs <> [] /\
    match clause_value c with
    | objective_value =>
        objective_coefficients q = ∅
        /\ maximize_objective q' = false
        /\ objective_coefficients q' = dict_of (map (fun v => (v, (-1)%Z)) vs)
        /\ eq_constraints q' = eq_constraints q
        /\ ge_constraints q' = ge_constraints q
        /\ le_constraints q' = le_constraints q
    | any_value =>
        same_objective q q'
        /\ eq_constraints q' = eq_constraints q
        /\ ge_constraints q' = ge_constraints q
        /\ le_constraints q'
           = dict_update (le_constraints q) (dict_of (map (fun v => (v, 0%Z)) vs))
    | num_value n =>
        same_objective q q'
        /\ eq_constraints q' = eq_constraints q
        /\ ge_constraints q'
           = dict_update (ge_constraints q)
               (dict_of (map (fun v => (v, (- Z.of_N n)%Z)) vs))
        /\ le_constraints q' = le_constraints q
    end.
Proof.
  unfold _parse_input. intros H.
  apply bind_Ok_inv in H as (vs & Hvs & H).
  exists vs. split; [assumption|]. split; [eapply clause_vars_nonempty; eassumption|].
  apply bind_Ok_inv in H as (q1 & Hq1 & [= <-]). cbv zeta. unfold same_objective.
  destruct (set_flag_if_maps (strict c) Strict_inputs q1) as (-> & -> & -> & -> & ->).
  unfold same_objective.
  destruct (clause_value c) as [| |n].
  - rewrite size_pos_iff in Hq1. case_bool_decide as Hobj; simpl in Hq1; [|discriminate].
    injection Hq1 as <-. simpl. repeat split; try reflexivity; assumption.
  - injection Hq1 as <-. simpl. repeat split; reflexivity.
  - injection Hq1 as <-. simpl. repeat split; reflexivity.
Qed.

Lemma include_flags_frame (v : string) (q : OptimizationQuery) :
  objective_coefficients (include_flags v q) = objective_coefficients q
  /\ maximize_objective (include_flags v q) = maximize_objective q
  /\ eq_constraints (include_flags v q) = eq_constraints q
  /\ ge_constraints (include_flags v q) = ge_constraints q
  /\ le_constraints (include_flags v q) = le_constraints q.
Proof.
  unfold include_flags.
  repeat match goal with
         | |- context [set_flag_if ?c ?f ?x] =>
             destruct (set_flag_if_maps c f x) as (-> & -> & -> & -> & ->)
         end.
  auto.
Qed.

Lemma include_flags_maps (vs : list string) (q : OptimizationQuery) :
  objective_coefficients (fold_left (fun q v => include_flags v q) vs q)
  = objective_coefficients q
  /\ maximize_objective (fold_left (fun q v => include_flags v q) vs q)
     = maximize_objective q
  /\ eq_constraints (fold_left (fun q v => include_flags v q) vs q) = eq_constraints q
  /\ ge_constraints (fold_left (fun q v => include_flags v q) vs q) = ge_constraints q
  /\ le_constraints (fold_left (fun q v => include_flags v q) vs q) = le_constraints q.
Proof.
  revert q. induction vs as [|v vs IH]; intros q; simpl; [auto|].
  destruct (IH (include_flags v q)) as (-> & -> & -> & -> & ->).
  apply include_flags_frame.
Qed.

Lemma _parse_include_inv (c : var_expr) (q q' : OptimizationQuery) :
  _parse_include plural_of db c q = Ok q' ->
  exists vs,
    clause_vars plural_of db c building_types building_expr = Ok vs /\ vs <> [] /\
    same_objective q q'
    /\ eq_constraints q' = eq_constraints q
    /\ ge_constraints q'
       = dict_update (ge_constraints q) (dict_of (map (fun v => (v, 0%Z)) vs))
    /\ le_constraints q' = le_constraints q.
Proof.
  unfold _parse_include. intros H.
  apply bind_Ok_inv in H as (vs & Hvs & [= <-]). cbv zeta.
  exists vs. split; [assumption|]. split; [eapply clause_vars_nonempty; eassumption|].
  unfold same_objective at 1.
  match goal with
  | |- context [fold_left _ vs ?x] =>
      destruct (include_flags_maps vs x) as (-> & -> & -> & -> & ->)
  end.
  unfold same_objective. simpl. auto.
Qed.

Lemma _parse_exclude_inv (x : exclude_expr) (q q' : OptimizationQuery) :
  _parse_exclude plural_of db x q = Ok q' ->
  exists vs,
    exclude_vars plural_of db x = Ok vs /\
    same_objective q q'
    /\ eq_constraints q'
       = dict_update (eq_constraints q) (dict_of (map (fun v => (v, 0%Z)) vs))
    /\ ge_constraints q' = ge_constraints q
    /\ le_constraints q' = le_constraints q.
Proof.
  unfold _parse_exclude. intros H.
  apply bind_Ok_inv in H as (vs & Hvs & [= <-]). cbv zeta.
  exists vs. split; [exact Hvs|].
  unfold same_objective.
  cbn [objective_coefficients maximize_objective eq_constraints ge_constraints
         le_constraints update_eq].
  match goal with
  | |- context [set_flag_if ?c ?f ?x] =>
      destruct (set_flag_if_maps c f x) as (-> & -> & -> & -> & ->)
  end.
  auto.
Qed.

End Handlers.

(** ** The objective through the four phases *)

Section Compile.

Variable plural_of : string -> string.
Variable db : DB.
Variable maximize0 : bool.

Lemma _parse_output_marks : marks (_parse_output plural_of db).
Proof.
  intros c q q' H. apply _parse_output_inv in H as (vs & _ & Hne & H).
  unfold is_objective. destruct (clause_value c); [|tauto|tauto].
  destruct H as (H0 & _ & -> & _). split; [assumption|].
  now apply dict_of_const_nonempty.
Qed.

Lemma _parse_input_marks : marks (_parse_input plural_of db).
Proof.
  intros c q q' H. apply _parse_input_inv in H as (vs & _ & Hne & H).
  unfold is_objective. destruct (clause_value c); [|tauto|tauto].
  destruct H as (H0 & _ & -> & _). split; [assumption|].
  now apply dict_of_const_nonempty.
Qed.

Lemma same_objective_trans (q1 q2 q3 : OptimizationQuery) :
  same_objective q1 q2 -> same_objective q2 q3 -> same_objective q1 q3.
Proof. unfold same_objective. intros [-> ->] [-> ->]. auto. Qed.

Lemma for_each_marks step (l : list value_expr) (q q' : OptimizationQuery) :
  marks step ->
  for_each step l q = Ok q' ->
  (count_objective l <= 1)%nat
  /\ (count_objective l = 0%nat -> same_objective q q')
  /\ (count_objective l = 1%nat ->
      objective_coefficients q = ∅ /\ objective_coefficients q' <> ∅).
Proof.
  intros Hstep. revert q. induction l as [|c l IH]; intros q H.
  - injection H as <-. unfold count_objective, same_objective. simpl.
    split; [lia|]. split; [auto | intros [=]].
  - simpl in H. apply bind_Ok_inv in H as (q1 & H1 & H).
    specialize (Hstep c q q1 H1). destruct (IH q1 H) as (Hle & H0 & Hone).
    unfold count_objective in *. simpl. destruct (is_objective c); simpl.
    + destruct Hstep as [Hq Hq1].
      assert (length (List.filter is_objective l) = 0%nat) as Hz.
      { destruct (length (List.filter is_objective l)) as [|[|n]]; [reflexivity| |lia].
        destruct Hone as [Hone _]; [reflexivity | contradiction]. }
      rewrite Hz. split; [lia|]. split; [intros [=]|]. intros _.
      split; [assumption|]. destruct (H0 Hz) as [-> _]. assumption.
    + split; [assumption|]. split.
      * intros Hz. eapply same_objective_trans; eauto.
      * intros Hz. destruct (Hone Hz) as [Hq1 Hq']. destruct Hstep as [Hs _].
        rewrite <- Hs. auto.
Qed.

Lemma for_each_same {A : Type} (step : A -> OptimizationQuery -> result OptimizationQuery)
  (l : list A) (q q' : OptimizationQuery) :
  (forall c q q', step c q = Ok q' -> same_objective q q') ->
  for_each step l q = Ok q' -> same_objective q q'.
Proof.
  intros Hstep. revert q. induction l as [|c l IH]; intros q H.
  - injection H as <-. split; reflexivity.
  - simpl in H. apply bind_Ok_inv in H as (q1 & H1 & H).
    eapply same_objective_trans; eauto.
Qed.

Lemma _parse_includes_same (l : list var_expr) (q q' : OptimizationQuery) :
  _parse_includes plural_of db l q = Ok q' -> same_objective q q'.
Proof.
  apply for_each_same. intros c q1 q2 H.
  apply _parse_include_inv in H as (vs & _ & _ & H & _). exact H.
Qed.

Lemma _parse_excludes_same (l : list exclude_expr) (q q' : OptimizationQuery) :
  _parse_excludes plural_of db l q = Ok q' -> same_objective q q'.
Proof.
  apply for_each_same. intros c q1 q2 H.
  apply _parse_exclude_inv in H as (vs & _ & H & _). exact H.
Qed.

(** The four phases of a successful compilation. *)
Lemma _parse_optimization_query_phases raw outputs inputs includes excludes q :
  _parse_optimization_query plural_of db maximize0 raw outputs inputs includes excludes
  = Ok q ->
  exists q1 q2 q3,
    _parse_outputs plural_of db outputs (OptimizationQuery_new maximize0 raw) = Ok q1
    /\ _parse_inputs plural_of db inputs q1 = Ok q2
    /\ _parse_includes plural_of db includes q2 = Ok q3
    /\ _parse_excludes plural_of db excludes q3 = Ok q.
Proof.
  unfold _parse_optimization_query. cbv zeta. intros H.
  apply bind_Ok_inv in H as (q1 & H1 & H).
  apply bind_Ok_inv in H as (q2 & H2 & H).
  apply bind_Ok_inv in H as (q3 & H3 & H).
  apply bind_Ok_inv in H as (q4 & H4 & [= <-]).
  eauto 10.
Qed.

Lemma _parse_outputs_for_each outputs q q' :
  _parse_outputs plural_of db outputs q = Ok q' ->
  outputs <> [] /\ for_each (_parse_output plural_of db) outputs q = Ok q'.
Proof. destruct outputs; [discriminate|]. intros H. split; [discriminate | exact H]. Qed.

(** Outputs then inputs: at most one marker gets through. *)
Lemma markers_at_most_one outputs inputs q0 q1 q2 :
  objective_coefficients q0 = ∅ ->
  _parse_outputs plural_of db outputs q0 = Ok q1 ->
  _parse_inputs plural_of db inputs q1 = Ok q2 ->
  (count_objective outputs + count_objective inputs <= 1)%nat.
Proof.
  intros Hq0 H1 H2. apply _parse_outputs_for_each in H1 as [_ H1].
  destruct (for_each_marks _ _ _ _ _parse_output_marks H1) as (Hle & H0 & Hone).
  destruct inputs as [|c inputs]; [unfold count_objective at 2; simpl; lia|].
  change (for_each (_parse_input plural_of db) (c :: inputs) q1 = Ok q2) in H2.
  destruct (for_each_marks _ _ _ _ _parse_input_marks H2) as (Hle' & _ & Hone').
  destruct (count_objective outputs) as [|[|n]]; [lia | | lia].
  destruct (count_objective (c :: inputs)) as [|[|m]]; [lia | | lia].
  destruct Hone as [_ Hq1]; [reflexivity|].
  destruct Hone' as [Hq1' _]; [reflexivity|]. contradiction.
Qed.

End Compile.

(** ** Objective of a compiled query *)

Section Theorems.

Variable plural_of : string -> string.
Variable db : DB.
Variable maximize0 : bool.

Abbreviation compile := (_parse_optimization_query plural_of db maximize0).

Lemma is_ok_true {A : Type} (m : result A) : is_ok m = true -> exists a, m = Ok a.
Proof. destruct m; [eauto | discriminate]. Qed.

(** A resolvable output clause can only fail on a second objective. *)
Lemma _parse_output_resolved (c : value_expr) (q : OptimizationQuery) :
  output_resolves plural_of db c = true ->
  (exists q', _parse_output plural_of db c q = Ok q')
  \/ (_parse_output plural_of db c q = Raise only_one_objective
      /\ is_objective c = true).
Proof.
  unfold output_resolves. intros [vs Hvs]%is_ok_true.
  unfold _parse_output, is_objective. rewrite Hvs. simpl.
  destruct (clause_value c); simpl; eauto.
  destruct (0 <? size (objective_coefficients q))%nat; simpl; eauto.
Qed.

Lemma _parse_input_resolved (c : value_expr) (q : OptimizationQuery) :
  input_resolves plural_of db c = true ->
  (exists q', _parse_input plural_of db c q = Ok q')
  \/ (_parse_input plural_of db c q = Raise only_one_objective
      /\ is_objective c = true).
Proof.
  unfold input_resolves. intros [vs Hvs]%is_ok_true.
  unfold _parse_input, is_objective. rewrite Hvs. simpl.
  destruct (clause_value c); simpl; eauto.
  destruct (0 <? size (objective_coefficients q))%nat; simpl; eauto.
Qed.

Lemma for_each_resolved step (resolves : value_expr -> bool) (l : list value_expr)
  (q : OptimizationQuery) :
  (forall c q, resolves c = true ->
     (exists q', step c q = Ok q')
     \/ (step c q = Raise only_one_objective /\ is_objective c = true)) ->
  forallb resolves l = true ->
  (exists q', for_each step l q = Ok q')
  \/ (for_each step l q = Raise only_one_objective /\ (1 <= count_objective l)%nat).
Proof.
  intros Hstep. revert q. induction l as [|c l IH]; intros q Hall; simpl.
  - left. eauto.
  - simpl in Hall. apply andb_true_iff in Hall as [Hc Hl].
    destruct (Hstep c q Hc) as [[q1 ->]|[-> Hobj]]; simpl.
    + destruct (IH q1 Hl) as [?|[-> Hcnt]]; [now left|].
      right. split; [reflexivity|]. unfold count_objective in *. simpl.
      destruct (is_objective c); simpl; lia.
    + right. split; [reflexivity|]. unfold count_objective. simpl.
      rewrite Hobj. simpl. lia.
Qed.

Lemma for_each_total {A : Type} (step : A -> OptimizationQuery -> result OptimizationQuery)
  (resolves : A -> bool) (l : list A) (q : OptimizationQuery) :
  (forall c q, resolves c = true -> exists q', step c q = Ok q') ->
  forallb resolves l = true -> exists q', for_each step l q = Ok q'.
Proof.
  intros Hstep. revert q. induction l as [|c l IH]; intros q Hall; simpl; [eauto|].
  simpl in Hall. apply andb_true_iff in Hall as [Hc Hl].
  destruct (Hstep c q Hc) as [q1 ->]. simpl. auto.
Qed.

Lemma _parse_includes_total (l : list var_expr) (q : OptimizationQuery) :
  forallb (include_resolves plural_of db) l = true ->
  exists q', _parse_includes plural_of db l q = Ok q'.
Proof.
  apply for_each_total. intros c q1 [vs Hvs]%is_ok_true.
  unfold _parse_include. rewrite Hvs. simpl. eauto.
Qed.

Lemma _parse_excludes_total (l : list exclude_expr) (q : OptimizationQuery) :
  forallb (exclude_resolves plural_of db) l = true ->
  exists q', _parse_excludes plural_of db l q = Ok q'.
Proof.
  apply for_each_total. intros c q1 [vs Hvs]%is_ok_true.
  unfold _parse_exclude. unfold exclude_vars in Hvs. rewrite Hvs. simpl. eauto.
Qed.

(** C1 (amended). For every optimization query with exactly one [?]
    output clause and at least one input clause, the compiled query has
    [maximize_objective = true] and [objective_coefficients] maps exactly
    the vars matched by that clause, each to 1. *)
Theorem objective_of_marked_output raw outs1 c outs2 inputs includes excludes q :
  is_objective c = true ->
  count_objective outs1 = 0%nat ->
  count_objective outs2 = 0%nat ->
  inputs <> [] ->
  compile raw (outs1 ++ c :: outs2) inputs includes excludes = Ok q ->
  exists vs,
    clause_vars plural_of db (target c) ["item"] "item" = Ok vs
    /\ maximize_objective q = true
    /\ forall v, objective_coefficients q !! v
                 = if bool_decide (v ∈ vs) then Some 1%Z else None.
Proof.
  intros Hc H1 H2 Hin H.
  apply _parse_optimization_query_phases in H as (q1 & q2 & q3 & Ho & Hi & Hinc & Hexc).
  apply _parse_outputs_for_each in Ho as [_ Ho].
  rewrite for_each_app in Ho. apply bind_Ok_inv in Ho as (qa & Ha & Ho).
  simpl in Ho. apply bind_Ok_inv in Ho as (qb & Hb & Ho).
  apply _parse_output_inv in Hb as (vs & Hvs & Hne & Hb).
  unfold is_objective in Hc. destruct (clause_value c); try discriminate.
  destruct Hb as (_ & Hmax & Hobj & _).
  exists vs. split; [assumption|].
  destruct (for_each_marks _ _ _ _ (_parse_output_marks plural_of db) Ho) as (_ & Hsame2 & _).
  destruct (Hsame2 H2) as [Ho1 Hm1].
  assert (same_objective q1 q2) as [Ho2 Hm2].
  { destruct inputs as [|i inputs]; [congruence|].
    change (for_each (_parse_input plural_of db) (i :: inputs) q1 = Ok q2) in Hi.
    destruct (for_each_marks _ _ _ _ (_parse_input_marks plural_of db) Hi) as (Hle & H0 & Hone).
    destruct (count_objective (i :: inputs)) as [|[|n]]; [auto | | lia].
    destruct Hone as [Hempty _]; [reflexivity|].
    rewrite Ho1, Hobj in Hempty. now apply dict_of_const_nonempty in Hempty. }
  destruct (_parse_includes_same _ _ _ _ _ Hinc) as [Ho3 Hm3].
  destruct (_parse_excludes_same _ _ _ _ _ Hexc) as [Ho4 Hm4].
  split; [congruence|].
  intros v. rewrite Ho4, Ho3, Ho2, Ho1, Hobj. apply dict_of_const_lookup.
Qed.

(** C2. For every optimization query without input clause and without
    [?] marker, a compiled query has [maximize_objective = false] and
    [objective_coefficients = {unweighted-resources: -1}]; and the query
    compiles whenever it has an output and its entity expressions resolve. *)
Theorem default_objective_without_inputs raw outputs includes excludes :
  count_objective outputs = 0%nat ->
  (forall q, compile raw outputs [] includes excludes = Ok q ->
     maximize_objective q = false
     /\ objective_coefficients q = unweighted_default)
  /\ (outputs <> [] ->
      forallb (output_resolves plural_of db) outputs = true ->
      forallb (include_resolves plural_of db) includes = true ->
      forallb (exclude_resolves plural_of db) excludes = true ->
      exists q, compile raw outputs [] includes excludes = Ok q).
Proof.
  intros Hcount. split.
  - intros q H.
    apply _parse_optimization_query_phases in H as (q1 & q2 & q3 & _ & Hi & Hinc & Hexc).
    injection Hi as <-.
    destruct (_parse_includes_same _ _ _ _ _ Hinc) as [Ho3 Hm3].
    destruct (_parse_excludes_same _ _ _ _ _ Hexc) as [Ho4 Hm4].
    split; [rewrite Hm4, Hm3 | rewrite Ho4, Ho3]; reflexivity.
  - intros Hne Hout Hinc Hexc.
    unfold _parse_optimization_query. cbv zeta.
    destruct (for_each_resolved _ _ outputs (OptimizationQuery_new maximize0 raw)
                (_parse_output_resolved) Hout) as [[q1 H1]|[_ Hc]]; [|lia].
    assert (_parse_outputs plural_of db outputs (OptimizationQuery_new maximize0 raw)
            = Ok q1) as ->.
    { destruct outputs; [congruence | exact H1]. }
    simpl.
    destruct (_parse_includes_total includes
                (set_objective false {[ "unweighted-resources" := (-1)%Z ]} q1) Hinc)
      as [q3 ->].
    simpl. destruct (_parse_excludes_total excludes q3 Hexc) as [q4 ->].
    simpl. eauto.
Qed.

(** C3 (amended). An optimization query with two [?] markers, in output
    clauses, in input clauses or one in each, never compiles to a query
    object; when it has an output and the entity expressions of its output
    and input clauses resolve, the error is "Only one objective may be
    specified.". *)
Theorem second_objective_is_refused raw outputs inputs includes excludes :
  (2 <= count_objective outputs + count_objective inputs)%nat ->
  is_ok (compile raw outputs inputs includes excludes) = false
  /\ (outputs <> [] ->
      forallb (output_resolves plural_of db) outputs = true ->
      forallb (input_resolves plural_of db) inputs = true ->
      compile raw outputs inputs includes excludes
      = Raise (QueryParseException "Only one objective may be specified.")).
Proof.
  intros Hcount.
  assert (forall q1 q2,
            _parse_outputs plural_of db outputs (OptimizationQuery_new maximize0 raw)
            = Ok q1 ->
            _parse_inputs plural_of db inputs q1 = Ok q2 -> False) as Hno.
  { intros q1 q2 H1 H2.
    assert (H := markers_at_most_one plural_of db outputs inputs
                   (OptimizationQuery_new maximize0 raw) q1 q2 eq_refl H1 H2).
    lia. }
  split.
  - destruct (compile raw outputs inputs includes excludes) as [q|e] eqn:H; [|reflexivity].
    apply _parse_optimization_query_phases in H as (q1 & q2 & q3 & Ho & Hi & _).
    destruct (Hno q1 q2 Ho Hi).
  - intros Hne Hout Hin. unfold _parse_optimization_query. cbv zeta.
    destruct (for_each_resolved _ _ outputs (OptimizationQuery_new maximize0 raw)
                (_parse_output_resolved) Hout) as [[q1 H1]|[H1 _]].
    + assert (_parse_outputs plural_of db outputs (OptimizationQuery_new maximize0 raw)
              = Ok q1) as Ho.
      { destruct outputs; [congruence | exact H1]. }
      rewrite Ho. simpl.
      destruct inputs as [|i inputs].
      * destruct (Hno q1 _ Ho eq_refl).
      * destruct (for_each_resolved _ _ (i :: inputs) q1 (_parse_input_resolved) Hin)
          as [[q2 H2]|[H2 _]].
        -- destruct (Hno q1 q2 Ho H2).
        -- change (_parse_inputs plural_of db (i :: inputs) q1)
             with (for_each (_parse_input plural_of db) (i :: inputs) q1).
           rewrite H2. reflexivity.
    + assert (_parse_outputs plural_of db outputs (OptimizationQuery_new maximize0 raw)
              = Raise only_one_objective) as ->.
      { destruct outputs; [congruence | exact H1]. }
      reflexivity.
Qed.

End Theorems.

(** ** Constraint maps of a compiled query *)

Section Accumulate.

Variable plural_of : string -> string.
Variable db : DB.
Variable maximize0 : bool.

Lemma for_each_rel {A : Type} (R : OptimizationQuery -> OptimizationQuery -> Prop)
  (step : A -> OptimizationQuery -> result OptimizationQuery)
  (l : list A) (q q' : OptimizationQuery) :
  (forall q, R q q) ->
  (forall q1 q2 q3, R q1 q2 -> R q2 q3 -> R q1 q3) ->
  (forall c q q', step c q = Ok q' -> R q q') ->
  for_each step l q = Ok q' -> R q q'.
Proof.
  intros Hrefl Htrans Hstep. revert q. induction l as [|c l IH]; intros q H.
  - injection H as <-. apply Hrefl.
  - simpl in H. apply bind_Ok_inv in H as (q1 & H1 & H). eauto.
Qed.

Lemma keys_grow_refl (q : OptimizationQuery) : keys_grow q q.
Proof. unfold keys_grow. auto. Qed.

Lemma keys_grow_trans (q1 q2 q3 : OptimizationQuery) :
  keys_grow q1 q2 -> keys_grow q2 q3 -> keys_grow q1 q3.
Proof.
  unfold keys_grow. intros (? & ? & ?) (? & ? & ?).
  repeat split; etrans; eassumption.
Qed.

Lemma dom_dict_update (m d : gmap string Z) : dom m ⊆ dom (dict_update m d).
Proof. unfold dict_update. rewrite dom_union. apply union_subseteq_r. Qed.

Lemma keys_grow_of_maps (q q' : OptimizationQuery) :
  (eq_constraints q' = eq_constraints q
   \/ exists d, eq_constraints q' = dict_update (eq_constraints q) d) ->
  (ge_constraints q' = ge_constraints q
   \/ exists d, ge_constraints q' = dict_update (ge_constraints q) d) ->
  (le_constraints q' = le_constraints q
   \/ exists d, le_constraints q' = dict_update (le_constraints q) d) ->
  keys_grow q q'.
Proof.
  unfold keys_grow.
  intros [->|[d1 ->]] [->|[d2 ->]] [->|[d3 ->]];
    repeat split; auto using dom_dict_update.
Qed.

Lemma _parse_output_keys c q q' :
  _parse_output plural_of db c q = Ok q' -> keys_grow q q'.
Proof.
  intros H. apply _parse_output_inv in H as (vs & _ & _ & H).
  destruct (clause_value c).
  - destruct H as (_ & _ & _ & He & Hg & Hl). apply keys_grow_of_maps; auto.
  - destruct H as (_ & He & Hg & Hl). apply keys_grow_of_maps; eauto.
  - destruct H as (_ & He & Hg & Hl). apply keys_grow_of_maps; eauto.
Qed.

Lemma _parse_input_keys c q q' :
  _parse_input plural_of db c q = Ok q' -> keys_grow q q'.
Proof.
  intros H. apply _parse_input_inv in H as (vs & _ & _ & H).
  destruct (clause_value c).
  - destruct H as (_ & _ & _ & He & Hg & Hl). apply keys_grow_of_maps; auto.
  - destruct H as (_ & He & Hg & Hl). apply keys_grow_of_maps; eauto.
  - destruct H as (_ & He & Hg & Hl). apply keys_grow_of_maps; eauto.
Qed.

Lemma _parse_include_keys c q q' :
  _parse_include plural_of db c q = Ok q' -> keys_grow q q'.
Proof.
  intros H. apply _parse_include_inv in H as (vs & _ & _ & _ & He & Hg & Hl).
  apply keys_grow_of_maps; eauto.
Qed.

Lemma _parse_exclude_keys c q q' :
  _parse_exclude plural_of db c q = Ok q' -> keys_grow q q'.
Proof.
  intros H. apply _parse_exclude_inv in H as (vs & _ & _ & He & Hg & Hl).
  apply keys_grow_of_maps; eauto.
Qed.

Lemma _parse_inputs_keys inputs q q' :
  _parse_inputs plural_of db inputs q = Ok q' -> keys_grow q q'.
Proof.
  destruct inputs as [|c inputs].
  - intros [= <-]. unfold keys_grow. simpl. auto.
  - apply (for_each_rel keys_grow);
      [apply keys_grow_refl | apply keys_grow_trans | apply _parse_input_keys].
Qed.

(** Writing zeros with [update] keeps the zeros already there and puts a
    zero at every key written. *)
Lemma update_zeros_lookup (m : gmap string Z) (vs : list string) (v : string) :
  v ∈ vs \/ m !! v = Some 0%Z ->
  dict_update m (dict_of (map (fun v => (v, 0%Z)) vs)) !! v = Some 0%Z.
Proof.
  unfold dict_update. intros H.
  destruct (decide (v ∈ vs)) as [Hin|Hin].
  - apply lookup_union_Some_l. rewrite dict_of_const_lookup.
    now rewrite bool_decide_eq_true_2.
  - destruct H as [?|H]; [contradiction|].
    rewrite lookup_union_r; [exact H|].
    rewrite dict_of_const_lookup. now rewrite bool_decide_eq_false_2.
Qed.

Lemma _parse_excludes_zero (l : list exclude_expr) (q q' : OptimizationQuery) :
  _parse_excludes plural_of db l q = Ok q' ->
  (forall v, eq_constraints q !! v = Some 0%Z -> eq_constraints q' !! v = Some 0%Z)
  /\ (forall x vs v, x ∈ l -> exclude_vars plural_of db x = Ok vs -> v ∈ vs ->
        eq_constraints q' !! v = Some 0%Z).
Proof.
  unfold _parse_excludes. revert q. induction l as [|x l IH]; intros q H.
  - injection H as <-. split; [auto|]. intros x vs v Hx. now apply elem_of_nil in Hx.
  - simpl in H. apply bind_Ok_inv in H as (q1 & H1 & H).
    apply _parse_exclude_inv in H1 as (vs1 & Hvs1 & _ & He & _).
    destruct (IH q1 H) as [Hkeep Hnew]. split.
    + intros v Hv. apply Hkeep. rewrite He. apply update_zeros_lookup. now right.
    + intros y vs v [->|Hy]%elem_of_cons Hvs Hin.
      * apply Hkeep. rewrite He. apply update_zeros_lookup. left. congruence.
      * eauto.
Qed.

Lemma _parse_includes_zero (l : list var_expr) (q q' : OptimizationQuery) :
  _parse_includes plural_of db l q = Ok q' ->
  (forall v, ge_constraints q !! v = Some 0%Z -> ge_constraints q' !! v = Some 0%Z)
  /\ (forall c vs v, c ∈ l ->
        clause_vars plural_of db c building_types building_expr = Ok vs -> v ∈ vs ->
        ge_constraints q' !! v = Some 0%Z).
Proof.
  unfold _parse_includes. revert q. induction l as [|x l IH]; intros q H.
  - injection H as <-. split; [auto|]. intros x vs v Hx. now apply elem_of_nil in Hx.
  - simpl in H. apply bind_Ok_inv in H as (q1 & H1 & H).
    apply _parse_include_inv in H1 as (vs1 & Hvs1 & _ & _ & _ & Hg & _).
    destruct (IH q1 H) as [Hkeep Hnew]. split.
    + intros v Hv. apply Hkeep. rewrite Hg. apply update_zeros_lookup. now right.
    + intros y vs v [->|Hy]%elem_of_cons Hvs Hin.
      * apply Hkeep. rewrite Hg. apply update_zeros_lookup. left. congruence.
      * eauto.
Qed.

Lemma _parse_excludes_ge (l : list exclude_expr) (q q' : OptimizationQuery) :
  _parse_excludes plural_of db l q = Ok q' -> ge_constraints q' = ge_constraints q.
Proof.
  apply (for_each_rel (fun q q' => ge_constraints q' = ge_constraints q));
    [reflexivity | intros; congruence |].
  intros c q1 q2 H. apply _parse_exclude_inv in H as (vs & _ & _ & _ & Hg & _).
  exact Hg.
Qed.


End Accumulate.

(** ** Optimization queries on the demo catalog *)

(** C1, counterexample. [produce ? iron rod], without input clause: the
    [?] clause matches [item:iron-rod], yet the compiled query minimizes and
    its objective is the unweighted-resources default. *)
Lemma marked_output_without_inputs :
  compile_demo "produce ? iron rod"
    [clause false objective_value (entity "iron rod")] [] [] [] = Ok rods_alone
  /\ clause_vars plural_s demo_db (entity "iron rod") ["item"] "item"
     = Ok ["item:iron-rod"]
  /\ maximize_objective rods_alone = false
  /\ objective_coefficients rods_alone !! "item:iron-rod" = None
  /\ objective_coefficients rods_alone !! "unweighted-resources" = Some (-1)%Z.
Proof.
  split; [vm_compute; reflexivity|].
  split; [vm_compute; reflexivity|].
  split; [vm_compute; reflexivity|].
  split; vm_compute; reflexivity.
Qed.

Lemma objective_of_marked_output_witness :
  exists vs,
    clause_vars plural_s demo_db (entity "iron rod") ["item"] "item" = Ok vs
    /\ maximize_objective rods_from_ore = true
    /\ forall v, objective_coefficients rods_from_ore !! v
                 = if bool_decide (v ∈ vs) then Some 1%Z else None.
Proof.
  apply (objective_of_marked_output plural_s demo_db true
           "produce ? iron rod from 60 iron ore"
           [] (clause false objective_value (entity "iron rod")) []
           [clause false (num_value 60) (entity "iron ore")] [] []).
  - reflexivity.
  - reflexivity.
  - reflexivity.
  - discriminate.
  - vm_compute. reflexivity.
Defined.

Lemma default_objective_without_inputs_witness :
  (forall q, compile_demo "produce 60 iron rod"
               [clause false (num_value 60) (entity "iron rod")] [] [] [] = Ok q ->
     maximize_objective q = false /\ objective_coefficients q = unweighted_default)
  /\ exists q, compile_demo "produce 60 iron rod"
                 [clause false (num_value 60) (entity "iron rod")] [] [] [] = Ok q.
Proof.
  destruct (default_objective_without_inputs plural_s demo_db true
              "produce 60 iron rod"
              [clause false (num_value 60) (entity "iron rod")] [] [] eq_refl)
    as [Hobj Hex].
  split; [exact Hobj|].
  apply Hex; [discriminate | vm_compute; reflexivity | reflexivity | reflexivity].
Defined.

Lemma second_objective_is_refused_witness :
  compile_demo "produce ? iron rod from ? iron ore"
    [clause false objective_value (entity "iron rod")]
    [clause false objective_value (entity "iron ore")] [] []
  = Raise (QueryParseException "Only one objective may be specified.").
Proof.
  apply (second_objective_is_refused plural_s demo_db true).
  - vm_compute. lia.
  - discriminate.
  - vm_compute. reflexivity.
  - vm_compute. reflexivity.
Defined.

(** C3, counterexample. [produce ? unobtainium and ? iron rod] has two
    markers and fails on the first expression, which matches no item, with
    that expression's error. *)
Lemma unresolved_marker_reports_the_expression :
  compile_demo "produce ? unobtainium and ? iron rod"
    [clause false objective_value (entity "unobtainium");
     clause false objective_value (entity "iron rod")] [] [] []
  = Raise (could_not_parse "item" "unobtainium")
  /\ could_not_parse "item" "unobtainium" <> only_one_objective.
Proof. split; [vm_compute; reflexivity | discriminate]. Qed.



(** ** Recipe queries *)

Section Recipes.

Variable plural_of : string -> string.
Variable db : DB.
Variable maximize0 : bool.

Lemma find_first (p : Recipe -> bool) (l1 : list Recipe) (r : Recipe) (l2 : list Recipe) :
  Forall (fun r' => p r' = false) l1 -> p r = true ->
  List.find p (l1 ++ r :: l2) = Some r.
Proof.
  induction 1 as [|y l1 Hy _ IH]; intros Hr; simpl.
  - now rewrite Hr.
  - rewrite Hy. auto.
Qed.

Lemma find_none (p : Recipe -> bool) (l : list Recipe) :
  Forall (fun r' => p r' = false) l -> List.find p l = None.
Proof. induction 1 as [|y l Hy _ IH]; simpl; [reflexivity|]. now rewrite Hy. Qed.

Lemma list_remove_first (p : Recipe -> bool) (l1 : list Recipe) (r : Recipe)
  (l2 : list Recipe) :
  Forall (fun r' => p r' = false) l1 -> p r = true ->
  list_remove r (l1 ++ r :: l2) = l1 ++ l2.
Proof.
  induction 1 as [|y l1 Hy _ IH]; intros Hr; simpl.
  - now rewrite bool_decide_eq_true_2.
  - rewrite bool_decide_eq_false_2; [now rewrite IH|].
    intros ->. congruence.
Qed.

(** C6. For a recipe-compare query whose product item resolves to one
    item: a single producing recipe becomes the base recipe and there are no
    related recipes; among several, the first whose slug is the slug of the
    product becomes the base recipe and the others are the related recipes;
    when there are several and none has that slug, compilation fails with
    "Could not find base recipe for" the product. *)
Theorem base_recipe_selection raw e x (product : Entity) :
  _get_matches plural_of db e ["item"] = Ok [product] ->
  (forall r, recipes_for_product db (var product) = [r] ->
     _parse_recipe_compare_query plural_of db raw e x
     = Ok {| compare_raw_query := raw; product_item := product; base_recipe := r;
             related_recipes := []; exclude_alternates := x |})
  /\ (forall l1 r l2,
        recipes_for_product db (var product) = l1 ++ r :: l2 ->
        (2 <= length (l1 ++ r :: l2))%nat ->
        has_slug_of product r = true ->
        Forall (fun r' => has_slug_of product r' = false) l1 ->
        _parse_recipe_compare_query plural_of db raw e x
        = Ok {| compare_raw_query := raw; product_item := product; base_recipe := r;
                related_recipes := l1 ++ l2; exclude_alternates := x |})
  /\ ((2 <= length (recipes_for_product db (var product)))%nat ->
      Forall (fun r' => has_slug_of product r' = false)
        (recipes_for_product db (var product)) ->
      _parse_recipe_compare_query plural_of db raw e x
      = Raise (QueryParseException
                 ("Could not find base recipe for " +:+ human_readable_name product))).
Proof.
  intros Hm. unfold _parse_recipe_compare_query. rewrite Hm.
  cbn -[var slug human_readable_name String.append].
  fold (has_slug_of product).
  split; [|split].
  - intros r ->. reflexivity.
  - intros l1 r l2 Hrs Hlen Hr Hl1. rewrite Hrs.
    rewrite (find_first _ l1 r l2 Hl1 Hr), (list_remove_first _ l1 r l2 Hl1 Hr).
    destruct l1 as [|a [|b l1]]; try reflexivity.
    destruct l2; [simpl in Hlen; lia | reflexivity].
  - intros Hlen Hall. rewrite (find_none _ _ Hall).
    destruct (recipes_for_product db (var product)) as [|a [|b l]];
      [simpl in Hlen; lia | simpl in Hlen; lia | reflexivity].
Qed.

Lemma collect_inner (rs all non : list Recipe) :
  fold_left
    (fun acc recipe =>
       let '(all_vars, non_alternate_vars) := acc in
       (all_vars ++ [recipe],
        if negb (is_alternate recipe)
        then non_alternate_vars ++ [recipe] else non_alternate_vars))
    rs (all, non)
  = (all ++ rs, non ++ standard rs).
Proof.
  revert all non. induction rs as [|r rs IH]; intros all non; simpl.
  - now rewrite !app_nil_r.
  - rewrite IH. destruct (negb (is_alternate r)); simpl;
      now rewrite <- ?app_assoc.
Qed.

Lemma standard_app (l1 l2 : list Recipe) :
  standard (l1 ++ l2) = standard l1 ++ standard l2.
Proof. unfold standard. induction l1; simpl; [reflexivity|].
  destruct (negb (is_alternate a)); simpl; now rewrite IHl1. Qed.

Lemma collect_recipes_spec (matches : list Entity) :
  collect_recipes db matches = (producing db matches, standard (producing db matches)).
Proof.
  unfold collect_recipes.
  enough (forall all non,
             fold_left
               (fun acc m =>
                  fold_left
                    (fun acc recipe =>
                       let '(all_vars, non_alternate_vars) := acc in
                       (all_vars ++ [recipe],
                        if negb (is_alternate recipe)
                        then non_alternate_vars ++ [recipe] else non_alternate_vars))
                    (recipes_for_product db (var m)) acc)
               matches (all, non)
             = (all ++ producing db matches, non ++ standard (producing db matches)))
    as H by apply (H [] []).
  induction matches as [|m matches IH]; intros all non; simpl.
  - now rewrite !app_nil_r.
  - rewrite collect_inner, IH. unfold producing. simpl.
    now rewrite standard_app, !app_assoc.
Qed.

Lemma standard_nil_iff (rs : list Recipe) :
  standard rs = [] <-> Forall (fun r => is_alternate r = true) rs.
Proof.
  unfold standard. induction rs as [|r rs IH]; simpl.
  - split; auto.
  - destruct (is_alternate r) eqn:Hr; simpl.
    + rewrite IH. split; [auto | now inversion 1].
    + split; [discriminate | inversion 1; congruence].
Qed.

(** C10 (amended). For every [recipe for <X>] or [<X> recipe] query whose
    expression matches at least one item, the resulting InfoQuery holds the
    recipes that produce the matched items and are not alternate when there
    is one, and all the producing recipes otherwise, that is exactly when
    every producing recipe is alternate. *)
Theorem recipe_for_prefers_standard raw e (matches : list Entity) :
  _get_matches plural_of db e ["item"] = Ok matches ->
  matches <> [] ->
  parse plural_of db maximize0 raw (recipe_for_query e)
  = Ok (AInfoQuery
          {| info_raw_query := raw;
             vars := map ERecipe
                       (match standard (producing db matches) with
                        | [] => producing db matches
                        | _ :: _ => standard (producing db matches)
                        end) |})
  /\ (standard (producing db matches) = []
      <-> Forall (fun r => is_alternate r = true) (producing db matches)).
Proof.
  intros Hm Hne. split; [|apply standard_nil_iff].
  unfold parse, _parse_recipe_for_query. rewrite Hm. simpl.
  destruct matches as [|m matches]; [congruence|].
  cbn [length Nat.eqb]. rewrite collect_recipes_spec.
  destruct (standard (producing db (m :: matches))); reflexivity.
Qed.

End Recipes.

Lemma base_recipe_selection_witness :
  _parse_recipe_compare_query plural_s demo_db "compare recipes for iron rod"
    "iron rod" false
  = Ok {| compare_raw_query := "compare recipes for iron rod";
          product_item := EItem iron_rod; base_recipe := recipe_iron_rod;
          related_recipes := [recipe_steel_rod]; exclude_alternates := false |}.
Proof.
  destruct (base_recipe_selection plural_s demo_db "compare recipes for iron rod"
              "iron rod" false (EItem iron_rod)) as (_ & H & _).
  - vm_compute. reflexivity.
  - apply (H [] recipe_iron_rod [recipe_steel_rod]).
    + reflexivity.
    + simpl. lia.
    + reflexivity.
    + constructor.
Defined.

Lemma recipe_for_prefers_standard_witness :
  parse plural_s demo_db true "recipe for steel ingot" (recipe_for_query "steel ingot")
  = Ok (AInfoQuery {| info_raw_query := "recipe for steel ingot";
                      vars := [ERecipe recipe_steel_ingot] |}).
Proof.
  destruct (recipe_for_prefers_standard plural_s demo_db true "recipe for steel ingot"
              "steel ingot" [EItem steel_ingot]) as [H _].
  - vm_compute. reflexivity.
  - discriminate.
  - exact H.
Defined.

(** C10, counterexample. [recipe steel ingot] is the single-recipe
    query: "steel ingot" matches an item with a producing recipe that is not
    alternate, but no recipe, and the query fails. *)
Lemma single_recipe_resolves_recipes :
  _get_matches plural_s demo_db "steel ingot" ["item"] = Ok [EItem steel_ingot]
  /\ standard (producing demo_db [EItem steel_ingot]) = [recipe_steel_ingot]
  /\ parse plural_s demo_db true "recipe steel ingot" (single_recipe_query "steel ingot")
     = Raise (could_not_parse "recipe" "steel ingot").
Proof.
  split; [vm_compute; reflexivity|]. split; [reflexivity|]. vm_compute. reflexivity.
Qed.

(** ** Patterns without metacharacters *)

Module ReFacts.

Import Re.

Lemma accepts_Nul (s : string) : accepts Nul s = false.
Proof. induction s; simpl; auto. Qed.

Lemma accepts_Alt (r1 r2 : regex) (s : string) :
  accepts (Alt r1 r2) s = accepts r1 s || accepts r2 s.
Proof. revert r1 r2. induction s as [|a s IH]; intros; simpl; [reflexivity | apply IH]. Qed.

Lemma accepts_Seq_Nul (r : regex) (s : string) : accepts (Seq Nul r) s = false.
Proof. induction s as [|a s IH]; simpl; auto. Qed.

Lemma accepts_Seq_Eps (r : regex) (s : string) : accepts (Seq Eps r) s = accepts r s.
Proof.
  destruct s as [|a s]; simpl; [reflexivity|].
  now rewrite accepts_Alt, accepts_Seq_Nul.
Qed.

Lemma accepts_literal (p s : string) : accepts (literal_regex p) s = String.eqb p s.
Proof.
  revert s. induction p as [|c p IH]; intros s.
  - destruct s as [|a s]; simpl; [reflexivity | apply accepts_Nul].
  - destruct s as [|a s]; simpl; [reflexivity|].
    rewrite (Ascii.eqb_sym c a). destruct (Ascii.eqb a c).
    + now rewrite accepts_Seq_Eps.
    + apply accepts_Seq_Nul.
Qed.

Lemma regex_free_no_meta (p : string) : regex_free p = true -> any_meta p = false.
Proof.
  induction p as [|c p IH]; simpl; [reflexivity|].
  intros [[[Hm _]%andb_true_iff _]%andb_true_iff Hp]%andb_true_iff.
  apply negb_true_iff in Hm. rewrite Hm. auto.
Qed.

Lemma items_regex_free (p : string) :
  regex_free p = true ->
  exists its, items p = Ok its /\ fold_right Seq Eps its = literal_regex p.
Proof.
  induction p as [|c p IH]; [exists []; auto|].
  intros H. simpl in H.
  apply andb_true_iff in H as [Hc Hp].
  apply andb_true_iff in Hc as [Hc Hstar]. apply andb_true_iff in Hc as [_ Hdot].
  apply negb_true_iff in Hstar, Hdot.
  cbn [items]. rewrite Hstar.
  assert (atom c = Lit c) as Hatom by (unfold atom; now rewrite Hdot).
  destruct p as [|d p].
  - exists [atom c]. rewrite Hatom. auto.
  - assert (Ascii.eqb d "*" = false) as Hd.
    { simpl in Hp. apply andb_true_iff in Hp as [Hd _].
      apply andb_true_iff in Hd as [_ Hd]. now apply negb_true_iff in Hd. }
    rewrite Hd. destruct (IH Hp) as (its & -> & Hits).
    exists (atom c :: its). split; [reflexivity|].
    simpl. now rewrite Hatom, Hits.
Qed.

(** A pattern without metacharacters matches exactly itself. *)
Lemma compile_regex_free (p : string) :
  regex_free p = true ->
  exists r, compile p = Ok r /\ forall s, accepts r s = String.eqb p s.
Proof.
  intros H. unfold compile. rewrite (regex_free_no_meta p H).
  destruct (items_regex_free p H) as (its & -> & Hits).
  exists (fold_right Seq Eps its). split; [reflexivity|].
  intros s. rewrite Hits. apply accepts_literal.
Qed.

End ReFacts.

(** ** Entity resolution *)

Section Resolution.

Variable plural_of : string -> string.
Variable db : DB.

Lemma string_forall_impl (P Q : ascii -> bool) (s : string) :
  (forall c, P c = true -> Q c = true) ->
  string_forall P s = true -> string_forall Q s = true.
Proof.
  intros HPQ. induction s as [|c s IH]; simpl; [auto|].
  intros [Hc Hs]%andb_true_iff. rewrite (HPQ c Hc). auto.
Qed.

Lemma re_split_ext (sep1 sep2 : ascii -> bool) (s : string) :
  string_forall (fun c => Bool.eqb (sep1 c) (sep2 c)) s = true ->
  re_split sep1 s = re_split sep2 s.
Proof.
  induction s as [|c s IH]; simpl; [reflexivity|].
  intros [Hc Hs]%andb_true_iff. apply Bool.eqb_prop in Hc.
  rewrite Hc, (IH Hs). reflexivity.
Qed.

Lemma expr_parts_as_name (s : string) :
  no_underscore s = true -> expr_parts_of s = name_parts_of s.
Proof.
  intros H. unfold expr_parts_of, name_parts_of. f_equal.
  apply re_split_ext. revert H. apply string_forall_impl.
  intros c Hc. apply negb_true_iff in Hc. unfold sep_expr, sep_name.
  rewrite Hc. destruct (is_space c), (Ascii.eqb c "-"), (Ascii.eqb c ":"); reflexivity.
Qed.

Lemma expr_split_as_var (s : string) :
  no_underscore_or_space s = true -> re_split sep_expr s = re_split sep_var s.
Proof.
  intros H. apply re_split_ext. revert H. apply string_forall_impl.
  intros c [Hc Hsp]%andb_true_iff. apply negb_true_iff in Hc, Hsp.
  unfold sep_expr, sep_var. rewrite Hc, Hsp.
  destruct (Ascii.eqb c "-"), (Ascii.eqb c ":"); reflexivity.
Qed.

Lemma split_colon_1_forall (P : ascii -> bool) (s t : string) :
  split_colon_1 s = Ok t -> string_forall P s = true -> string_forall P t = true.
Proof.
  induction s as [|c s IH]; simpl; [discriminate|].
  intros H [_ Hs]%andb_true_iff.
  destruct (Ascii.eqb c ":"); [now injection H as <- | auto].
Qed.

Lemma filter_None_id (l : list string) :
  forallb nonempty l = true -> filter_None l = l.
Proof.
  unfold filter_None. induction l as [|x l IH]; simpl; [reflexivity|].
  intros [-> Hl]%andb_true_iff. now rewrite IH.
Qed.

Lemma list_string_eqb_eq (a b : list string) :
  list_string_eqb a b = true <-> a = b.
Proof. unfold list_string_eqb. apply bool_decide_eq_true. Qed.

Lemma list_string_eqb_refl (a : list string) : list_string_eqb a a = true.
Proof. now apply list_string_eqb_eq. Qed.

(** When the name comparisons all fail, the expression tokens differ
    from the tokens of the singular, of the plural and of the var. *)
Lemma check_names_false (parts : list string) (v : Entity) :
  check_names plural_of parts v = false ->
  parts <> name_parts_of (lower (human_readable_name v))
  /\ parts <> name_parts_of (plural_of (lower (human_readable_name v)))
  /\ parts <> filter_None (re_split sep_var (var v)).
Proof.
  unfold check_names. cbv zeta.
  destruct (list_string_eqb parts (name_parts_of (lower (human_readable_name v))))
    eqn:H1; [discriminate|].
  destruct (list_string_eqb parts
              (name_parts_of (plural_of (lower (human_readable_name v)))))
    eqn:H2; [discriminate|].
  match goal with
  | |- (if ?c then _ else _) = _ -> _ => destruct c; [discriminate|]
  end.
  intros H3. repeat split; intros Heq; apply list_string_eqb_eq in Heq; congruence.
Qed.

(** On a well-formed entry, an expression without metacharacters is
    decided by the token comparisons alone. *)
Lemma _check_var_regex_free (e : string) (v : Entity) :
  regex_free (normalize e) = true ->
  well_formed plural_of v = true ->
  _check_var plural_of e v
  = token_answer plural_of (expr_parts_of (normalize e)) v.
Proof.
  intros Hfree Hwf. unfold _check_var, token_answer. cbv zeta.
  destruct (check_names plural_of (expr_parts_of (normalize e)) v) eqn:Hnames;
    [reflexivity|].
  apply check_names_false in Hnames as (Hsing & Hplur & Hvar).
  unfold well_formed in Hwf.
  apply andb_true_iff in Hwf as [Hwf Htok]. apply andb_true_iff in Hwf as [Hwf Hv].
  apply andb_true_iff in Hwf as [Hs Hp].
  destruct (split_colon_1 (var v)) as [t|err] eqn:Ht; [|reflexivity].
  cbn [mbind result_bind].
  destruct (list_string_eqb (expr_parts_of (normalize e)) (re_split sep_var t))
    eqn:Htyp; [reflexivity|].
  destruct (ReFacts.compile_regex_free _ Hfree) as (r & -> & Hr).
  cbn [mbind result_bind]. rewrite !Hr. f_equal.
  assert (forall x, String.eqb (normalize e) x = true -> normalize e = x) as Heqb
      by (intros x; apply String.eqb_eq).
  destruct (String.eqb (normalize e) (lower (human_readable_name v))) eqn:E1.
  { exfalso. apply Hsing. rewrite (Heqb _ E1). now apply expr_parts_as_name. }
  destruct (String.eqb (normalize e) (plural_of (lower (human_readable_name v))))
    eqn:E2.
  { exfalso. apply Hplur. rewrite (Heqb _ E2). now apply expr_parts_as_name. }
  destruct (String.eqb (normalize e) (var v)) eqn:E3.
  { exfalso. apply Hvar. rewrite (Heqb _ E3). unfold expr_parts_of.
    now rewrite expr_split_as_var. }
  destruct (String.eqb (normalize e) t) eqn:E4; [|reflexivity].
  exfalso. rewrite (Heqb _ E4) in Htyp.
  unfold expr_parts_of in Htyp.
  rewrite expr_split_as_var in Htyp
    by (eapply split_colon_1_forall; eassumption).
  rewrite (filter_None_id _ Htok), list_string_eqb_refl in Htyp. discriminate.
Qed.

Lemma filter_raising_ext {A : Type} (f g : A -> result bool) (l : list A) :
  Forall (fun x => f x = g x) l -> filter_raising f l = filter_raising g l.
Proof. induction 1 as [|x l Hx _ IH]; simpl; [reflexivity|]. now rewrite Hx, IH. Qed.

(** C9 (amended). On a catalog whose allowed entries are well formed, two
    expressions without regular-expression metacharacters and with the same
    lower-case tokens produce the same matches; in particular "Iron Rod",
    "iron-rod", "iron_rod" and "IRON ROD" do. *)
Theorem resolution_ignores_case_and_separators (allowed_types : list string) :
  forallb (well_formed plural_of) (allowed_vars db allowed_types) = true ->
  (forall e1 e2,
     regex_free (normalize e1) = true ->
     regex_free (normalize e2) = true ->
     expr_parts_of (normalize e1) = expr_parts_of (normalize e2) ->
     _get_matches plural_of db e1 allowed_types
     = _get_matches plural_of db e2 allowed_types)
  /\ (_get_matches plural_of db "Iron Rod" allowed_types
      = _get_matches plural_of db "iron-rod" allowed_types
      /\ _get_matches plural_of db "iron-rod" allowed_types
         = _get_matches plural_of db "iron_rod" allowed_types
      /\ _get_matches plural_of db "iron_rod" allowed_types
         = _get_matches plural_of db "IRON ROD" allowed_types).
Proof.
  intros Hwf.
  assert (forall e1 e2,
            regex_free (normalize e1) = true ->
            regex_free (normalize e2) = true ->
            expr_parts_of (normalize e1) = expr_parts_of (normalize e2) ->
            _get_matches plural_of db e1 allowed_types
            = _get_matches plural_of db e2 allowed_types) as Hgen.
  { intros e1 e2 H1 H2 Hparts. unfold _get_matches.
    apply filter_raising_ext. apply Forall_forall. intros v Hv.
    assert (well_formed plural_of v = true) as Hv'.
    { rewrite forallb_forall in Hwf. apply Hwf. now apply list_elem_of_In. }
    cbv beta.
    rewrite (_check_var_regex_free e1 v H1 Hv'), (_check_var_regex_free e2 v H2 Hv').
    now rewrite Hparts. }
  split; [exact Hgen|].
  repeat split; apply Hgen; reflexivity.
Qed.

End Resolution.

Lemma resolution_ignores_case_and_separators_witness :
  _get_matches plural_s demo_db "Iron Rod" ["item"; "recipe"]
  = _get_matches plural_s demo_db "IRON_ROD" ["item"; "recipe"].
Proof.
  destruct (resolution_ignores_case_and_separators plural_s demo_db ["item"; "recipe"])
    as [H _].
  - vm_compute. reflexivity.
  - apply H; reflexivity.
Defined.

(** C9, counterexample. With a var that contains an underscore,
    "iron_rod" matches it through the regular-expression fallback and
    "Iron Rod" does not; on the demo catalog ".* rod" matches the iron rod
    and ".*_rod", which differs in the separator only, matches nothing. *)
Lemma raw_expression_reaches_the_regex :
  (_get_matches plural_s underscore_db "iron_rod" ["item"] = Ok [EItem ferrous_rod]
   /\ _get_matches plural_s underscore_db "Iron Rod" ["item"] = Ok [])
  /\ (_get_matches plural_s demo_db ".* rod" ["item"] = Ok [EItem iron_rod]
      /\ _get_matches plural_s demo_db ".*_rod" ["item"] = Ok []).
Proof. repeat split; vm_compute; reflexivity. Qed.

(** ** Rendering *)

Section Status.

Variable string_solution : OptimizationResult -> result string.
Variable solution_message : OptimizationResult -> Breadcrumbs -> result ResultMessage.

(** C7. For each of the statuses infeasible, unbounded, not solved and
    undefined, the string form of an OptimizationResult and its message are
    produced without an exception, whatever the renderers of an optimal
    solution would do; the message carries the string form as the title of
    its embed, and the string form is the explanation of the status: the
    advice to remove a constraint or to allow a byproduct when infeasible,
    the advice to add a constraint or to replace [?] with a value when
    unbounded, and "No solution has been found." when not solved or
    undefined. *)
Theorem unsolved_statuses_render (self : OptimizationResult) (breadcrumbs : Breadcrumbs) :
  unsolved (status self) ->
  exists text,
    OptimizationResult_str string_solution self = Ok text
    /\ OptimizationResult_message string_solution solution_message self breadcrumbs
       = Ok {| embed := Some {| title := text; description := "" |};
               content := breadcrumbs_str breadcrumbs;
               reactions := [];
               file := None |}
    /\ (status self = LpStatusInfeasible ->
        text = "Solution is infeasible, try removing a constraint or allowing a byproduct (e.g. rubber >= 0)")
    /\ (status self = LpStatusUnbounded ->
        text = "Solution is unbounded, try adding a constraint or replacing '?' with a concrete value (e.g. 1000)")
    /\ (status self = LpStatusNotSolved \/ status self = LpStatusUndefined ->
        text = "No solution has been found.").
Proof.
  intros Hst. unfold OptimizationResult_message, OptimizationResult_str.
  destruct Hst as [Hs | [Hs | [Hs | Hs]]]; rewrite Hs; cbn;
    (eexists; split; [reflexivity|]; split; [reflexivity|]);
    repeat split; try reflexivity;
    try (intros [H | H]; try reflexivity; discriminate H);
    try (intros H; discriminate H).
Qed.

End Status.

Section Cap.

Variable tabulate : table -> string -> string.

(** C8 (amended). The content of a recipe-comparison message never
    exceeds 2000 characters: it is the "too long" placeholder when the
    assembled text exceeds 2000 characters and the assembled text
    otherwise. *)
Theorem compare_message_is_capped (self : RecipeCompareResult) (breadcrumbs : Breadcrumbs) :
  (String.length (content (RecipeCompareResult_message tabulate self breadcrumbs))
   <= 2000)%nat
  /\ ((2000 < String.length (compare_text tabulate self breadcrumbs))%nat ->
      content (RecipeCompareResult_message tabulate self breadcrumbs)
      = "Output was too long")
  /\ ((String.length (compare_text tabulate self breadcrumbs) <= 2000)%nat ->
      content (RecipeCompareResult_message tabulate self breadcrumbs)
      = compare_text tabulate self breadcrumbs).
Proof.
  unfold RecipeCompareResult_message. cbn [content].
  destruct (2000 <? String.length (compare_text tabulate self breadcrumbs))%nat eqn:H.
  - apply Nat.ltb_lt in H. split; [vm_compute; lia|]. split; [reflexivity | lia].
  - apply Nat.ltb_ge in H. split; [exact H|]. split; [lia | reflexivity].
Qed.

End Cap.

Lemma compare_message_is_capped_witness :
  content (RecipeCompareResult_message
             (fun _ _ => String.concat "" (repeat "| iron rod " 200))
             {| product_name := "Iron Rod"; overall_stats := []; input_stats := [] |}
             {| breadcrumbs_str := "compare recipes for iron rod" |})
  = "Output was too long".
Proof.
  apply (proj1 (proj2 (compare_message_is_capped
                         (fun _ _ => String.concat "" (repeat "| iron rod " 200))
                         {| product_name := "Iron Rod"; overall_stats := [];
                            input_stats := [] |}
                         {| breadcrumbs_str := "compare recipes for iron rod" |}))).
  vm_compute. lia.
Defined.

(** C8, counterexample. With a navigation trail of 2200 characters the
    error, help and unsolved-optimization messages carry a content longer
    than 2000 characters, not a placeholder. *)
Lemma other_results_are_not_capped :
  (2000 < String.length (content (ErrorResult_message "no such item" long_crumbs)))%nat
  /\ (2000 < String.length (content (HelpResult_message long_crumbs)))%nat
  /\ OptimizationResult_message (fun _ => Ok "") (fun _ _ => Raise NotModelled)
       {| result_db := demo_db; result_vars := ∅; status := LpStatusInfeasible;
          query := OptimizationQuery_new false "" |} long_crumbs
     = Ok {| embed := Some {| title := infeasible_text; description := "" |};
             content := breadcrumbs_str long_crumbs; reactions := []; file := None |}
  /\ (2000 < String.length (breadcrumbs_str long_crumbs))%nat.
Proof.
  split; [vm_compute; lia|]. split; [vm_compute; lia|].
  split; [reflexivity | vm_compute; lia].
Qed.

Lemma unsolved_statuses_render_witness :
  OptimizationResult_str (fun _ => Raise NotModelled) unbounded_plan
  = Ok "Solution is unbounded, try adding a constraint or replacing '?' with a concrete value (e.g. 1000)".
Proof.
  destruct (unsolved_statuses_render (fun _ => Raise NotModelled)
              (fun _ _ => Raise NotModelled) unbounded_plan
              {| breadcrumbs_str := "" |})
    as (text & Hstr & _ & _ & Hunbounded & _).
  - right. left. reflexivity.
  - rewrite Hstr. f_equal. apply Hunbounded. reflexivity.
Defined.

(** ** Flow graph *)

Section Flow.

Variable self : Plan64.
Variable rate64 : Qc -> float.
Variable viz_label : Entity -> float -> string.
Variable str_round2 : float -> string.

Lemma add_edges64_spec (f : string * float -> string * string * string)
  (item_sinks : odict float) (s : Digraph64) :
  edges64 (fold_left (fun s sink => add_edge64 (f sink).1.1 (f sink).1.2 (f sink).2 s)
             item_sinks s)
  = edges64 s ++ map f item_sinks.
Proof.
  revert s. induction item_sinks as [|sink rest IH]; intros s; simpl.
  - now rewrite app_nil_r.
  - rewrite IH. simpl. rewrite <- app_assoc. now destruct (f sink) as [[? ?] ?].
Qed.

Lemma connect_source64_spec (item_name : string) (item_sinks : odict float)
  (src : string * float) (s s' : Digraph64) :
  connect_source64 str_round2 item_name item_sinks src s = Ok s' ->
  PrimFloat.eqb (total_sink_amount64 item_sinks) 0 = false
  /\ edges64 s' = edges64 s ++ source_edges64 str_round2 item_name item_sinks src.
Proof.
  unfold connect_source64. cbv zeta.
  destruct (PrimFloat.eqb (total_sink_amount64 item_sinks) 0); [discriminate|].
  intros [= <-]. split; [reflexivity|].
  exact (add_edges64_spec
           (fun sink =>
              (src.1, sink.1,
               get_edge_label str_round2 item_name
                 (edge_amount64 src.2 (total_sink_amount64 item_sinks) sink.2)))
           item_sinks s).
Qed.

Lemma connect_sources64_spec (item_name : string) (item_sinks item_sources : odict float)
  (s s' : Digraph64) :
  for_each (connect_source64 str_round2 item_name item_sinks) item_sources s = Ok s' ->
  edges64 s'
  = edges64 s ++ flat_map (source_edges64 str_round2 item_name item_sinks) item_sources.
Proof.
  revert s. induction item_sources as [|src rest IH]; intros s H.
  - injection H as <-. simpl. now rewrite app_nil_r.
  - simpl in H. apply bind_Ok_inv in H as (s1 & H1 & H).
    apply connect_source64_spec in H1 as [_ H1]. apply IH in H.
    rewrite H, H1. simpl. now rewrite app_assoc.
Qed.

Lemma connect_item64_spec (all_sinks : targets64) (entry : string * odict float)
  (s s' : Digraph64) :
  connect_item64 self str_round2 all_sinks entry s = Ok s' ->
  edges64 s' = edges64 s ++ item_edges64 self str_round2 all_sinks entry.
Proof.
  unfold connect_item64, item_edges64.
  destruct (odict_get entry.1 (items (plan_db self))) as [item|]; [|discriminate].
  destruct (odict_get entry.1 all_sinks) as [item_sinks|].
  - apply connect_sources64_spec.
  - intros [= <-]. now rewrite app_nil_r.
Qed.

Lemma connect64_spec (all_sources all_sinks : targets64) (s s' : Digraph64) :
  connect64 self str_round2 all_sources all_sinks s = Ok s' ->
  edges64 s'
  = edges64 s ++ flat_map (item_edges64 self str_round2 all_sinks) all_sources.
Proof.
  unfold connect64. revert s.
  induction all_sources as [|entry rest IH]; intros s H.
  - injection H as <-. simpl. now rewrite app_nil_r.
  - simpl in H. apply bind_Ok_inv in H as (s1 & H1 & H).
    apply connect_item64_spec in H1. apply IH in H.
    rewrite H, H1. simpl. now rewrite app_assoc.
Qed.

Lemma connect64_totals (all_sources all_sinks : targets64) (s s' : Digraph64) :
  connect64 self str_round2 all_sources all_sinks s = Ok s' ->
  forall item_var item_sources item_sinks,
    (item_var, item_sources) ∈ all_sources -> item_sources <> [] ->
    odict_get item_var all_sinks = Some item_sinks ->
    PrimFloat.eqb (total_sink_amount64 item_sinks) 0 = false.
Proof.
  unfold connect64. intros H item_var item_sources item_sinks Hentry Hne Hsinks.
  apply list_elem_of_split in Hentry as (l1 & l2 & ->).
  rewrite for_each_app in H. apply bind_Ok_inv in H as (s1 & _ & H).
  simpl in H. apply bind_Ok_inv in H as (s2 & H & _).
  unfold connect_item64 in H. simpl in H. rewrite Hsinks in H.
  destruct (odict_get item_var (items (plan_db self))); [|discriminate].
  destruct item_sources as [|src rest]; [contradiction|].
  simpl in H. apply bind_Ok_inv in H as (s3 & H & _).
  now apply connect_source64_spec in H as [H _].
Qed.

End Flow.




(** * Further properties *)

Import More ResultMore Plans Cases.

(** ** The objective *)

Section Objective.

Variable plural_of : string -> string.
Variable db : DB.
Variable maximize0 : bool.

Lemma _parse_inputs_for_each (c : value_expr) (inputs : list value_expr)
  (q : OptimizationQuery) :
  _parse_inputs plural_of db (c :: inputs) q
  = for_each (_parse_input plural_of db) (c :: inputs) q.
Proof. reflexivity. Qed.

Lemma app_cons_not_nil {A : Type} (l1 : list A) (x : A) (l2 : list A) :
  exists y l, l1 ++ x :: l2 = y :: l.
Proof. destruct l1 as [|y l1]; simpl; eauto. Qed.

(** X1. An input clause marked [?] becomes the objective of a query that
    compiles: the query minimises, every var the clause resolves to has the
    coefficient -1 and no other var has one, and no other output or input
    clause carries a marker. *)
Theorem objective_of_marked_input raw outputs ins1 c ins2 includes excludes q :
  is_objective c = true ->
  _parse_optimization_query plural_of db maximize0 raw outputs (ins1 ++ c :: ins2)
    includes excludes = Ok q ->
  exists vs,
    clause_vars plural_of db (target c) ["resource"; "item"] "resource or item" = Ok vs
    /\ maximize_objective q = false
    /\ (forall v, objective_coefficients q !! v
                  = if bool_decide (v ∈ vs) then Some (-1)%Z else None)
    /\ count_objective outputs = 0%nat
    /\ count_objective ins1 = 0%nat
    /\ count_objective ins2 = 0%nat.
Proof.
  intros Hc H.
  apply _parse_optimization_query_phases in H as (q1 & q2 & q3 & Ho & Hi & Hinc & Hexc).
  destruct (app_cons_not_nil ins1 c ins2) as (y & l & Hyl).
  rewrite Hyl, _parse_inputs_for_each, <- Hyl in Hi.
  rewrite for_each_app in Hi. apply bind_Ok_inv in Hi as (qa & Ha & Hi).
  simpl in Hi. apply bind_Ok_inv in Hi as (qb & Hb & Hi).
  apply _parse_input_inv in Hb as (vs & Hvs & Hne & Hb).
  unfold is_objective in Hc. destruct (clause_value c); try discriminate.
  destruct Hb as (Hqa & Hmax & Hobj & _).
  assert (objective_coefficients qb <> ∅) as Hqb
      by (rewrite Hobj; now apply dict_of_const_nonempty).
  destruct (for_each_marks _ _ _ _ (_parse_input_marks plural_of db) Hi)
    as (Hle2 & Hsame2 & Hone2).
  assert (count_objective ins2 = 0%nat) as Hc2.
  { destruct (count_objective ins2) as [|[|n]]; [reflexivity | | lia].
    destruct Hone2 as [Hempty _]; [reflexivity | contradiction]. }
  destruct (Hsame2 Hc2) as [Ho2 Hm2].
  destruct (for_each_marks _ _ _ _ (_parse_input_marks plural_of db) Ha)
    as (Hle1 & Hsame1 & Hone1).
  assert (count_objective ins1 = 0%nat) as Hc1.
  { destruct (count_objective ins1) as [|[|n]]; [reflexivity | | lia].
    destruct Hone1 as [_ Hnon]; [reflexivity | contradiction]. }
  destruct (Hsame1 Hc1) as [Ho1 _].
  apply _parse_outputs_for_each in Ho as [_ Ho].
  destruct (for_each_marks _ _ _ _ (_parse_output_marks plural_of db) Ho)
    as (Hle0 & _ & Hone0).
  assert (count_objective outputs = 0%nat) as Hc0.
  { destruct (count_objective outputs) as [|[|n]]; [reflexivity | | lia].
    destruct Hone0 as [_ Hnon]; [reflexivity|]. rewrite <- Ho1 in Hnon. contradiction. }
  destruct (_parse_includes_same _ _ _ _ _ Hinc) as [Ho3 Hm3].
  destruct (_parse_excludes_same _ _ _ _ _ Hexc) as [Ho4 Hm4].
  exists vs. split; [assumption|]. split; [congruence|]. split; [|auto].
  intros v. rewrite Ho4, Ho3, Ho2, Hobj. apply dict_of_const_lookup.
Qed.

(** X2. A query with an input clause and no [?] marker compiles to an empty
    objective: no coefficient is written, and the direction is the one the
    query object was created with. *)
Theorem objective_stays_empty raw outputs inputs includes excludes q :
  inputs <> [] ->
  count_objective outputs = 0%nat ->
  count_objective inputs = 0%nat ->
  _parse_optimization_query plural_of db maximize0 raw outputs inputs includes excludes
  = Ok q ->
  objective_coefficients q = ∅ /\ maximize_objective q = maximize0.
Proof.
  intros Hne Hco Hci H.
  apply _parse_optimization_query_phases in H as (q1 & q2 & q3 & Ho & Hi & Hinc & Hexc).
  apply _parse_outputs_for_each in Ho as [_ Ho].
  destruct (for_each_marks _ _ _ _ (_parse_output_marks plural_of db) Ho)
    as (_ & Hsame0 & _).
  destruct (Hsame0 Hco) as [Ho1 Hm1].
  destruct inputs as [|i inputs]; [congruence|].
  rewrite _parse_inputs_for_each in Hi.
  destruct (for_each_marks _ _ _ _ (_parse_input_marks plural_of db) Hi)
    as (_ & Hsame1 & _).
  destruct (Hsame1 Hci) as [Ho2 Hm2].
  destruct (_parse_includes_same _ _ _ _ _ Hinc) as [Ho3 Hm3].
  destruct (_parse_excludes_same _ _ _ _ _ Hexc) as [Ho4 Hm4].
  split; [rewrite Ho4, Ho3, Ho2, Ho1 | rewrite Hm4, Hm3, Hm2, Hm1]; reflexivity.
Qed.

End Objective.

(** ** The flags *)

Section Flags.

Variable plural_of : string -> string.
Variable db : DB.
Variable maximize0 : bool.

Lemma flag_value_set_flag_if (c : bool) (f g : flag) (q : OptimizationQuery) :
  flag_value g (set_flag_if c f q) = flag_value g q || (c && bool_decide (f = g)).
Proof.
  destruct c; simpl; [|now rewrite orb_false_r].
  destruct f, g; simpl; rewrite ?orb_true_r, ?orb_false_r; reflexivity.
Qed.

Lemma flag_value_include_flags (v : string) (g : flag) (q : OptimizationQuery) :
  flag_value g (include_flags v q) = flag_value g q || include_flag_of v g.
Proof.
  unfold include_flags. rewrite !flag_value_set_flag_if.
  destruct g; simpl; rewrite ?andb_false_r, ?andb_true_r, ?orb_false_r; reflexivity.
Qed.

Lemma flag_value_fold_include (vs : list string) (g : flag) (q : OptimizationQuery) :
  flag_value g (fold_left (fun q v => include_flags v q) vs q)
  = flag_value g q || existsb (fun v => include_flag_of v g) vs.
Proof.
  revert q. induction vs as [|v vs IH]; intros q; simpl.
  - now rewrite orb_false_r.
  - rewrite IH, flag_value_include_flags. now rewrite orb_assoc.
Qed.

Lemma _parse_output_flags (c : value_expr) (q q' : OptimizationQuery) (g : flag) :
  _parse_output plural_of db c q = Ok q' ->
  flag_value g q'
  = flag_value g q || (strict c && bool_decide (Strict_outputs = g))
    || (power c && bool_decide (Has_power_output = g)).
Proof.
  unfold _parse_output. intros H.
  apply bind_Ok_inv in H as (vs & _ & H).
  apply bind_Ok_inv in H as (q1 & Hq1 & [= <-]). cbv zeta.
  rewrite !flag_value_set_flag_if. do 2 f_equal.
  destruct (clause_value c).
  - destruct (0 <? size (objective_coefficients q))%nat; [discriminate|].
    injection Hq1 as <-. now destruct g.
  - injection Hq1 as <-. now destruct g.
  - injection Hq1 as <-. now destruct g.
Qed.

Lemma _parse_input_flags (c : value_expr) (q q' : OptimizationQuery) (g : flag) :
  _parse_input plural_of db c q = Ok q' ->
  flag_value g q' = flag_value g q || (strict c && bool_decide (Strict_inputs = g)).
Proof.
  unfold _parse_input. intros H.
  apply bind_Ok_inv in H as (vs & _ & H).
  apply bind_Ok_inv in H as (q1 & Hq1 & [= <-]).
  rewrite !flag_value_set_flag_if. f_equal.
  destruct (clause_value c).
  - destruct (0 <? size (objective_coefficients q))%nat; [discriminate|].
    injection Hq1 as <-. now destruct g.
  - injection Hq1 as <-. now destruct g.
  - injection Hq1 as <-. now destruct g.
Qed.

Lemma _parse_include_flags (c : var_expr) (q q' : OptimizationQuery) (g : flag) :
  _parse_include plural_of db c q = Ok q' ->
  flag_value g q'
  = flag_value g q
    || existsb (fun v => include_flag_of v g) (include_vars_of plural_of db c).
Proof.
  unfold _parse_include, include_vars_of, vars_of. intros H.
  apply bind_Ok_inv in H as (vs & Hvs & [= <-]). cbv zeta.
  rewrite Hvs, flag_value_fold_include. f_equal.
Qed.

Lemma _parse_exclude_flags (x : exclude_expr) (q q' : OptimizationQuery) (g : flag) :
  _parse_exclude plural_of db x q = Ok q' ->
  flag_value g q'
  = flag_value g q || (is_byproducts x && bool_decide (Strict_outputs = g)).
Proof.
  unfold _parse_exclude. intros H.
  apply bind_Ok_inv in H as (vs & _ & [= <-]). cbv zeta.
  transitivity (flag_value g
                  (set_flag_if (match x with byproducts => true | _ => false end)
                     Strict_outputs q)); [now destruct g|].
  rewrite flag_value_set_flag_if. now destruct x.
Qed.

(** A loop whose every step adds [gain c] to a flag adds the disjunction
    over the list. *)
Lemma for_each_flag {A : Type}
  (step : A -> OptimizationQuery -> result OptimizationQuery) (gain : A -> bool)
  (g : flag) (l : list A) (q q' : OptimizationQuery) :
  (forall c q q', step c q = Ok q' -> flag_value g q' = flag_value g q || gain c) ->
  for_each step l q = Ok q' ->
  flag_value g q' = flag_value g q || existsb gain l.
Proof.
  intros Hstep. revert q. induction l as [|c l IH]; intros q H.
  - injection H as <-. simpl. now rewrite orb_false_r.
  - simpl in H. apply bind_Ok_inv in H as (q1 & H1 & H).
    rewrite (IH _ H), (Hstep _ _ _ H1). simpl. now rewrite orb_assoc.
Qed.

Lemma existsb_and_const {A : Type} (p : A -> bool) (b : bool) (l : list A) :
  existsb (fun x => p x && b) l = existsb p l && b.
Proof.
  induction l as [|x l IH]; simpl; [reflexivity|].
  rewrite IH. destruct (p x), b, (existsb p l); reflexivity.
Qed.

Lemma existsb_two_flags {A : Type} (p r : A -> bool) (a b : bool) (l : list A) :
  existsb (fun c => (p c && a) || (r c && b)) l
  = (existsb p l && a) || (existsb r l && b).
Proof.
  induction l as [|c l IH]; simpl; [reflexivity|]. rewrite IH.
  destruct (p c), (r c), a, b, (existsb p l), (existsb r l); reflexivity.
Qed.

Lemma existsb_flat_map {A B : Type} (p : B -> bool) (f : A -> list B) (l : list A) :
  existsb p (flat_map f l) = existsb (fun x => existsb p (f x)) l.
Proof.
  induction l as [|x l IH]; simpl; [reflexivity|]. now rewrite existsb_app, IH.
Qed.

(** The value of every flag of a compiled query. *)
Lemma flag_value_compiled raw outputs inputs includes excludes q (g : flag) :
  _parse_optimization_query plural_of db maximize0 raw outputs inputs includes excludes
  = Ok q ->
  flag_value g q
  = (existsb strict outputs && bool_decide (Strict_outputs = g))
    || (existsb power outputs && bool_decide (Has_power_output = g))
    || (existsb strict inputs && bool_decide (Strict_inputs = g))
    || existsb (fun v => include_flag_of v g)
         (flat_map (include_vars_of plural_of db) includes)
    || (existsb is_byproducts excludes && bool_decide (Strict_outputs = g)).
Proof.
  intros H.
  apply _parse_optimization_query_phases in H as (q1 & q2 & q3 & Ho & Hi & Hinc & Hexc).
  apply _parse_outputs_for_each in Ho as [_ Ho].
  apply (for_each_flag _
           (fun c => (strict c && bool_decide (Strict_outputs = g))
                     || (power c && bool_decide (Has_power_output = g))) g) in Ho;
    [|intros c qa qb Hs; rewrite (_parse_output_flags _ _ _ g Hs);
      symmetry; apply orb_assoc].
  assert (flag_value g q2
          = flag_value g q1 || (existsb strict inputs && bool_decide (Strict_inputs = g)))
    as Hi'.
  { destruct inputs as [|i inputs].
    - injection Hi as <-. simpl. rewrite orb_false_r. now destruct g.
    - apply (for_each_flag _ (fun c => strict c && bool_decide (Strict_inputs = g)) g)
        in Hi; [|intros c qa qb Hs; apply (_parse_input_flags _ _ _ g Hs)].
      now rewrite Hi, existsb_and_const. }
  apply (for_each_flag _
           (fun c => existsb (fun v => include_flag_of v g)
                       (include_vars_of plural_of db c)) g) in Hinc;
    [|intros c qa qb Hs; apply (_parse_include_flags _ _ _ g Hs)].
  apply (for_each_flag _
           (fun x => is_byproducts x && bool_decide (Strict_outputs = g)) g) in Hexc;
    [|intros c qa qb Hs; apply (_parse_exclude_flags _ _ _ g Hs)].
  rewrite Hexc, Hinc, Hi', Ho, existsb_and_const, existsb_flat_map.
  assert (flag_value g (OptimizationQuery_new maximize0 raw) = false) as ->
      by now destruct g.
  simpl.
  assert (existsb
            (fun c => (strict c && bool_decide (Strict_outputs = g))
                      || (power c && bool_decide (Has_power_output = g))) outputs
          = (existsb strict outputs && bool_decide (Strict_outputs = g))
            || (existsb power outputs && bool_decide (Has_power_output = g))) as ->.
  { apply existsb_two_flags. }
  reflexivity.
Qed.

(** X3. The flags of a compiled query record its clauses: outputs are strict
    when an output clause says [only] or byproducts are excluded, inputs are
    strict when an input clause says [only], the power flag is set when an
    output clause asks for power, and each of the four building flags is
    set when an include clause resolves to a var with its prefix. *)
Theorem flags_record_the_clauses raw outputs inputs includes excludes q :
  _parse_optimization_query plural_of db maximize0 raw outputs inputs includes excludes
  = Ok q ->
  strict_outputs q = existsb strict outputs || existsb is_byproducts excludes
  /\ strict_inputs q = existsb strict inputs
  /\ has_power_output q = existsb power outputs
  /\ strict_recipes q
     = existsb (fun v => startswith v "recipe:")
         (flat_map (include_vars_of plural_of db) includes)
  /\ strict_power_recipes q
     = existsb (fun v => startswith v "power-recipe:")
         (flat_map (include_vars_of plural_of db) includes)
  /\ strict_crafters q
     = existsb (fun v => startswith v "crafter:")
         (flat_map (include_vars_of plural_of db) includes)
  /\ strict_generators q
     = existsb (fun v => startswith v "generator:")
         (flat_map (include_vars_of plural_of db) includes).
Proof.
  intros H.
  assert (forall l, existsb (fun _ : string => false) l = false) as Hfalse
      by (induction l; simpl; auto).
  repeat split.
  - change (strict_outputs q) with (flag_value Strict_outputs q).
    rewrite (flag_value_compiled _ _ _ _ _ _ Strict_outputs H). simpl.
    rewrite Hfalse, !andb_false_r, !andb_true_r, !orb_false_r. reflexivity.
  - change (strict_inputs q) with (flag_value Strict_inputs q).
    rewrite (flag_value_compiled _ _ _ _ _ _ Strict_inputs H). simpl.
    rewrite Hfalse, !andb_false_r, !andb_true_r, !orb_false_r. reflexivity.
  - change (has_power_output q) with (flag_value Has_power_output q).
    rewrite (flag_value_compiled _ _ _ _ _ _ Has_power_output H). simpl.
    rewrite Hfalse, !andb_false_r, !andb_true_r, !orb_false_r. reflexivity.
  - change (strict_recipes q) with (flag_value Strict_recipes q).
    rewrite (flag_value_compiled _ _ _ _ _ _ Strict_recipes H). simpl.
    rewrite !andb_false_r, !orb_false_r. reflexivity.
  - change (strict_power_recipes q) with (flag_value Strict_power_recipes q).
    rewrite (flag_value_compiled _ _ _ _ _ _ Strict_power_recipes H). simpl.
    rewrite !andb_false_r, !orb_false_r. reflexivity.
  - change (strict_crafters q) with (flag_value Strict_crafters q).
    rewrite (flag_value_compiled _ _ _ _ _ _ Strict_crafters H). simpl.
    rewrite !andb_false_r, !orb_false_r. reflexivity.
  - change (strict_generators q) with (flag_value Strict_generators q).
    rewrite (flag_value_compiled _ _ _ _ _ _ Strict_generators H). simpl.
    rewrite !andb_false_r, !orb_false_r. reflexivity.
Qed.

End Flags.

(** ** The bounds *)

Section Bounds.

Variable plural_of : string -> string.
Variable db : DB.
Variable maximize0 : bool.

Lemma dict_update_const_lookup (m : gmap string Z) (z : Z) (vs : list string)
  (v : string) :
  dict_update m (dict_of (map (fun v => (v, z)) vs)) !! v
  = if bool_decide (v ∈ vs) then Some z else m !! v.
Proof.
  unfold dict_update. case_bool_decide as Hin.
  - apply lookup_union_Some_l. rewrite dict_of_const_lookup.
    now rewrite bool_decide_eq_true_2.
  - rewrite lookup_union_r; [reflexivity|].
    rewrite dict_of_const_lookup. now rewrite bool_decide_eq_false_2.
Qed.

Lemma bounds_all_update (P : Z -> Prop) (m : gmap string Z) (z : Z) (vs : list string) :
  bounds_all P m -> P z ->
  bounds_all P (dict_update m (dict_of (map (fun v => (v, z)) vs))).
Proof.
  intros Hm Hz v z'. rewrite dict_update_const_lookup.
  case_bool_decide; [now intros [= <-] | apply Hm].
Qed.

Lemma _parse_output_signs c q q' :
  _parse_output plural_of db c q = Ok q' -> signs q -> signs q'.
Proof.
  intros H (He & Hg & Hl). apply _parse_output_inv in H as (vs & _ & _ & H).
  unfold signs. destruct (clause_value c).
  - destruct H as (_ & _ & _ & -> & -> & ->). auto.
  - destruct H as (_ & -> & -> & ->). split; [auto|]. split; [|auto].
    now apply bounds_all_update.
  - destruct H as (_ & -> & -> & ->). split; [|auto].
    apply bounds_all_update; [assumption | lia].
Qed.

Lemma _parse_input_signs c q q' :
  _parse_input plural_of db c q = Ok q' -> signs q -> signs q'.
Proof.
  intros H (He & Hg & Hl). apply _parse_input_inv in H as (vs & _ & _ & H).
  unfold signs. destruct (clause_value c).
  - destruct H as (_ & _ & _ & -> & -> & ->). auto.
  - destruct H as (_ & -> & -> & ->). split; [auto|]. split; [auto|].
    now apply bounds_all_update.
  - destruct H as (_ & -> & -> & ->). split; [auto|]. split; [|auto].
    apply bounds_all_update; [assumption | lia].
Qed.

Lemma _parse_include_signs c q q' :
  _parse_include plural_of db c q = Ok q' -> signs q -> signs q'.
Proof.
  intros H (He & Hg & Hl). unfold signs.
  apply _parse_include_inv in H as (vs & _ & _ & _ & -> & -> & ->).
  split; [auto|]. split; [|auto]. now apply bounds_all_update.
Qed.

Lemma _parse_exclude_signs x q q' :
  _parse_exclude plural_of db x q = Ok q' -> signs q -> signs q'.
Proof.
  intros H (He & Hg & Hl). unfold signs.
  apply _parse_exclude_inv in H as (vs & _ & _ & -> & -> & ->).
  split; [|auto]. now apply bounds_all_update.
Qed.

Lemma for_each_invariant {A : Type} (P : OptimizationQuery -> Prop)
  (step : A -> OptimizationQuery -> result OptimizationQuery)
  (l : list A) (q q' : OptimizationQuery) :
  (forall c q q', step c q = Ok q' -> P q -> P q') ->
  for_each step l q = Ok q' -> P q -> P q'.
Proof.
  intros Hstep. revert q. induction l as [|c l IH]; intros q H Hq.
  - now injection H as <-.
  - simpl in H. apply bind_Ok_inv in H as (q1 & H1 & H). eauto.
Qed.

(** X4. In a compiled query every equality bound is zero or more, every
    lower bound is zero or less, and every upper bound is zero. *)
Theorem bounds_have_fixed_signs raw outputs inputs includes excludes q :
  _parse_optimization_query plural_of db maximize0 raw outputs inputs includes excludes
  = Ok q ->
  (forall v z, eq_constraints q !! v = Some z -> (0 <= z)%Z)
  /\ (forall v z, ge_constraints q !! v = Some z -> (z <= 0)%Z)
  /\ (forall v z, le_constraints q !! v = Some z -> z = 0%Z).
Proof.
  intros H.
  apply _parse_optimization_query_phases in H as (q1 & q2 & q3 & Ho & Hi & Hinc & Hexc).
  apply _parse_outputs_for_each in Ho as [_ Ho].
  assert (signs (OptimizationQuery_new maximize0 raw)) as H0.
  { repeat split; intros v z; simpl; rewrite lookup_empty; discriminate. }
  apply (for_each_invariant signs _ _ _ _ _parse_output_signs Ho) in H0.
  assert (signs q2) as H2.
  { destruct inputs as [|i inputs].
    - injection Hi as <-. exact H0.
    - exact (for_each_invariant signs _ _ _ _ _parse_input_signs Hi H0). }
  apply (for_each_invariant signs _ _ _ _ _parse_include_signs Hinc) in H2.
  apply (for_each_invariant signs _ _ _ _ _parse_exclude_signs Hexc) in H2.
  exact H2.
Qed.

Lemma directed_same (q q' : OptimizationQuery) :
  same_objective q q' -> directed q -> directed q'.
Proof. unfold directed. intros [-> ->]. auto. Qed.

Lemma directed_const (q : OptimizationQuery) (b : bool) (vs : list string) :
  maximize_objective q = b ->
  objective_coefficients q
  = dict_of (map (fun v => (v, if b then 1%Z else (-1)%Z)) vs) ->
  directed q.
Proof.
  intros Hb Ho v z. rewrite Ho, Hb, dict_of_const_lookup.
  case_bool_decide; [now intros [= <-] | discriminate].
Qed.

Lemma _parse_output_directed c q q' :
  _parse_output plural_of db c q = Ok q' -> directed q -> directed q'.
Proof.
  intros H Hq. apply _parse_output_inv in H as (vs & _ & _ & H).
  destruct (clause_value c).
  - destruct H as (_ & Hm & Ho & _). exact (directed_const q' true vs Hm Ho).
  - destruct H as (Hs & _). eapply directed_same; eassumption.
  - destruct H as (Hs & _). eapply directed_same; eassumption.
Qed.

Lemma _parse_input_directed c q q' :
  _parse_input plural_of db c q = Ok q' -> directed q -> directed q'.
Proof.
  intros H Hq. apply _parse_input_inv in H as (vs & _ & _ & H).
  destruct (clause_value c).
  - destruct H as (_ & Hm & Ho & _). exact (directed_const q' false vs Hm Ho).
  - destruct H as (Hs & _). eapply directed_same; eassumption.
  - destruct H as (Hs & _). eapply directed_same; eassumption.
Qed.

(** X5. Every objective coefficient of a compiled query is 1 when the query
    maximises and -1 when it minimises. *)
Theorem coefficients_follow_the_direction raw outputs inputs includes excludes q :
  _parse_optimization_query plural_of db maximize0 raw outputs inputs includes excludes
  = Ok q ->
  forall v z, objective_coefficients q !! v = Some z ->
    z = if maximize_objective q then 1%Z else (-1)%Z.
Proof.
  intros H.
  apply _parse_optimization_query_phases in H as (q1 & q2 & q3 & Ho & Hi & Hinc & Hexc).
  apply _parse_outputs_for_each in Ho as [_ Ho].
  assert (directed (OptimizationQuery_new maximize0 raw)) as H0.
  { intros v z. simpl. rewrite lookup_empty. discriminate. }
  apply (for_each_invariant directed _ _ _ _ _parse_output_directed Ho) in H0.
  assert (directed q2) as H2.
  { destruct inputs as [|i inputs].
    - injection Hi as <-. intros v z. simpl.
      intros [<- <-]%lookup_singleton_Some. reflexivity.
    - exact (for_each_invariant directed _ _ _ _ _parse_input_directed Hi H0). }
  apply (directed_same _ _ (_parse_includes_same _ _ _ _ _ Hinc)) in H2.
  apply (directed_same _ _ (_parse_excludes_same _ _ _ _ _ Hexc)) in H2.
  exact H2.
Qed.

End Bounds.

(** ** The last write *)

Section LastWrite.

Variable plural_of : string -> string.
Variable db : DB.
Variable maximize0 : bool.

Lemma for_each_keeps {A : Type} (look : OptimizationQuery -> option Z)
  (step : A -> OptimizationQuery -> result OptimizationQuery) (quiet : A -> Prop)
  (l : list A) (q q' : OptimizationQuery) :
  (forall c q q', step c q = Ok q' -> quiet c -> look q' = look q) ->
  (forall c, c ∈ l -> quiet c) ->
  for_each step l q = Ok q' -> look q' = look q.
Proof.
  intros Hstep. revert q. induction l as [|c l IH]; intros q Hall H.
  - now injection H as <-.
  - simpl in H. apply bind_Ok_inv in H as (q1 & H1 & H).
    rewrite (IH q1); [|intros c' Hc'; apply Hall; now apply elem_of_cons; right|exact H].
    apply (Hstep _ _ _ H1). apply Hall. apply elem_of_cons. now left.
Qed.

Lemma _parse_output_eq_quiet (v : string) c q q' :
  _parse_output plural_of db c q = Ok q' ->
  (is_num c = true -> v ∉ output_vars_of plural_of db c) ->
  eq_constraints q' !! v = eq_constraints q !! v.
Proof.
  intros H Hq. apply _parse_output_inv in H as (vs & Hvs & _ & H).
  unfold is_num, output_vars_of, vars_of in Hq. rewrite Hvs in Hq.
  destruct (clause_value c).
  - destruct H as (_ & _ & _ & -> & _). reflexivity.
  - destruct H as (_ & -> & _). reflexivity.
  - destruct H as (_ & -> & _). rewrite dict_update_const_lookup.
    rewrite bool_decide_eq_false_2; [reflexivity | auto].
Qed.

Lemma _parse_input_eq_same c q q' :
  _parse_input plural_of db c q = Ok q' -> eq_constraints q' = eq_constraints q.
Proof.
  intros H. apply _parse_input_inv in H as (vs & _ & _ & H).
  destruct (clause_value c); tauto.
Qed.

Lemma _parse_exclude_eq_quiet (v : string) x q q' :
  _parse_exclude plural_of db x q = Ok q' ->
  v ∉ exclude_vars_of plural_of db x ->
  eq_constraints q' !! v = eq_constraints q !! v.
Proof.
  intros H Hq. apply _parse_exclude_inv in H as (vs & Hvs & _ & -> & _).
  unfold exclude_vars_of in Hq. rewrite Hvs in Hq.
  rewrite dict_update_const_lookup. now rewrite bool_decide_eq_false_2.
Qed.

(** X6. The amount of a numeric output clause is the equality bound of every
    var it resolves to, unless a later numeric output clause or an exclusion
    resolves to the same var. *)
Theorem output_equality_is_kept raw outs1 c outs2 inputs includes excludes q
  (n : N) (v : string) :
  clause_value c = num_value n ->
  v ∈ output_vars_of plural_of db c ->
  (forall c', c' ∈ outs2 -> is_num c' = true -> v ∉ output_vars_of plural_of db c') ->
  (forall x, x ∈ excludes -> v ∉ exclude_vars_of plural_of db x) ->
  _parse_optimization_query plural_of db maximize0 raw (outs1 ++ c :: outs2) inputs
    includes excludes = Ok q ->
  eq_constraints q !! v = Some (Z.of_N n).
Proof.
  intros Hn Hv Hlater Hexcl H.
  apply _parse_optimization_query_phases in H as (q1 & q2 & q3 & Ho & Hi & Hinc & Hexc).
  apply _parse_outputs_for_each in Ho as [_ Ho].
  rewrite for_each_app in Ho. apply bind_Ok_inv in Ho as (qa & _ & Ho).
  simpl in Ho. apply bind_Ok_inv in Ho as (qb & Hb & Ho).
  apply _parse_output_inv in Hb as (vs & Hvs & _ & Hb).
  unfold output_vars_of, vars_of in Hv. rewrite Hvs in Hv. rewrite Hn in Hb.
  destruct Hb as (_ & Heq & _).
  assert (eq_constraints qb !! v = Some (Z.of_N n)) as Hqb.
  { rewrite Heq, dict_update_const_lookup. now rewrite bool_decide_eq_true_2. }
  apply (for_each_keeps (fun q => eq_constraints q !! v) _
           (fun c' => is_num c' = true -> v ∉ output_vars_of plural_of db c'))
    in Ho; [|intros; now apply (_parse_output_eq_quiet v c0 q0 q') | exact Hlater].
  assert (eq_constraints q2 = eq_constraints q1) as H12.
  { destruct inputs as [|i inputs]; [now injection Hi as <-|].
    revert Hi. apply (for_each_rel (fun q q' => eq_constraints q' = eq_constraints q));
      [reflexivity | intros; congruence | apply _parse_input_eq_same]. }
  assert (eq_constraints q3 = eq_constraints q2) as H23.
  { revert Hinc. apply (for_each_rel (fun q q' => eq_constraints q' = eq_constraints q));
      [reflexivity | intros; congruence |].
    intros c0 qx qy Hs. apply _parse_include_inv in Hs as (? & _ & _ & _ & He & _).
    exact He. }
  apply (for_each_keeps (fun q => eq_constraints q !! v) _
           (fun x => v ∉ exclude_vars_of plural_of db x)) in Hexc;
    [|intros; now apply (_parse_exclude_eq_quiet v c0 q0 q') | exact Hexcl].
  rewrite Hexc, H23, H12, Ho. exact Hqb.
Qed.

Lemma _parse_input_ge_quiet (v : string) c q q' :
  _parse_input plural_of db c q = Ok q' ->
  (is_num c = true -> v ∉ input_vars_of plural_of db c) ->
  ge_constraints q' !! v = ge_constraints q !! v.
Proof.
  intros H Hq. apply _parse_input_inv in H as (vs & Hvs & _ & H).
  unfold is_num, input_vars_of, vars_of in Hq. rewrite Hvs in Hq.
  destruct (clause_value c).
  - destruct H as (_ & _ & _ & _ & -> & _). reflexivity.
  - destruct H as (_ & _ & -> & _). reflexivity.
  - destruct H as (_ & _ & -> & _). rewrite dict_update_const_lookup.
    rewrite bool_decide_eq_false_2; [reflexivity | auto].
Qed.

Lemma _parse_include_ge_quiet (v : string) c q q' :
  _parse_include plural_of db c q = Ok q' ->
  v ∉ include_vars_of plural_of db c ->
  ge_constraints q' !! v = ge_constraints q !! v.
Proof.
  intros H Hq. apply _parse_include_inv in H as (vs & Hvs & _ & _ & _ & -> & _).
  unfold include_vars_of, vars_of in Hq. rewrite Hvs in Hq.
  rewrite dict_update_const_lookup. now rewrite bool_decide_eq_false_2.
Qed.

(** X7. The amount of a numeric input clause, negated, is the lower bound of
    every var it resolves to, unless a later numeric input clause or an
    include clause resolves to the same var. *)
Theorem input_bound_is_negated raw outputs ins1 c ins2 includes excludes q
  (n : N) (v : string) :
  clause_value c = num_value n ->
  v ∈ input_vars_of plural_of db c ->
  (forall c', c' ∈ ins2 -> is_num c' = true -> v ∉ input_vars_of plural_of db c') ->
  (forall i, i ∈ includes -> v ∉ include_vars_of plural_of db i) ->
  _parse_optimization_query plural_of db maximize0 raw outputs (ins1 ++ c :: ins2)
    includes excludes = Ok q ->
  ge_constraints q !! v = Some (- Z.of_N n)%Z.
Proof.
  intros Hn Hv Hlater Hincl H.
  apply _parse_optimization_query_phases in H as (q1 & q2 & q3 & Ho & Hi & Hinc & Hexc).
  assert (for_each (_parse_input plural_of db) (ins1 ++ c :: ins2) q1 = Ok q2) as Hi'.
  { destruct ins1; exact Hi. }
  rewrite for_each_app in Hi'. apply bind_Ok_inv in Hi' as (qa & _ & Hi').
  simpl in Hi'. apply bind_Ok_inv in Hi' as (qb & Hb & Hi').
  apply _parse_input_inv in Hb as (vs & Hvs & _ & Hb).
  unfold input_vars_of, vars_of in Hv. rewrite Hvs in Hv. rewrite Hn in Hb.
  destruct Hb as (_ & _ & Hge & _).
  assert (ge_constraints qb !! v = Some (- Z.of_N n)%Z) as Hqb.
  { rewrite Hge, dict_update_const_lookup. now rewrite bool_decide_eq_true_2. }
  apply (for_each_keeps (fun q => ge_constraints q !! v) _
           (fun c' => is_num c' = true -> v ∉ input_vars_of plural_of db c'))
    in Hi'; [|intros; now apply (_parse_input_ge_quiet v c0 q0 q') | exact Hlater].
  apply (for_each_keeps (fun q => ge_constraints q !! v) _
           (fun i => v ∉ include_vars_of plural_of db i)) in Hinc;
    [|intros; now apply (_parse_include_ge_quiet v c0 q0 q') | exact Hincl].
  rewrite (_parse_excludes_ge _ _ _ _ _ Hexc), Hinc, Hi'. exact Hqb.
Qed.

End LastWrite.

(** ** Matching *)

Section Categories.

Variable plural_of : string -> string.
Variable db : DB.
Variable maximize0 : bool.

Lemma filter_raising_sublist {A : Type} (p : A -> result bool) (l ms : list A) :
  filter_raising p l = Ok ms -> sublist ms l.
Proof.
  revert ms. induction l as [|x l IH]; intros ms H; simpl in H.
  - injection H as <-. constructor.
  - apply bind_Ok_inv in H as (b & _ & H).
    apply bind_Ok_inv in H as (rest & Hrest & [= <-]).
    destruct b; [apply sublist_skip | apply sublist_cons]; auto.
Qed.

Lemma filter_raising_accepts {A : Type} (p : A -> result bool) (l ms : list A) (x : A) :
  filter_raising p l = Ok ms -> x ∈ ms -> p x = Ok true.
Proof.
  revert ms. induction l as [|y l IH]; intros ms H Hx; simpl in H.
  - injection H as <-. now apply elem_of_nil in Hx.
  - apply bind_Ok_inv in H as (b & Hb & H).
    apply bind_Ok_inv in H as (rest & Hrest & [= <-]).
    destruct b; [|eauto].
    apply elem_of_cons in Hx as [->|Hx]; eauto.
Qed.

Lemma allowed_vars_category (tys : list string) (m : Entity) :
  m ∈ allowed_vars db tys -> category m ∈ tys.
Proof.
  assert (forall ty, allowed ty tys = true -> ty ∈ tys) as Hallowed.
  { intros ty H. unfold allowed in H. apply existsb_exists in H as (x & Hx & Heq).
    apply String.eqb_eq in Heq. subst. now apply list_elem_of_In. }
  unfold allowed_vars. rewrite !elem_of_app.
  intros [H|[H|[H|[H|[H|H]]]]].
  - destruct (allowed "resource" tys) eqn:Ha; [|now apply elem_of_nil in H].
    apply list_elem_of_fmap in H as (i & -> & Hi).
    apply list_elem_of_In, filter_In in Hi as [_ Hi]. simpl. rewrite Hi. auto.
  - destruct (allowed "item" tys) eqn:Ha; [|now apply elem_of_nil in H].
    apply list_elem_of_fmap in H as (i & -> & Hi).
    apply list_elem_of_In, filter_In in Hi as [_ Hi]. simpl.
    apply negb_true_iff in Hi. rewrite Hi. auto.
  - destruct (allowed "recipe" tys) eqn:Ha; [|now apply elem_of_nil in H].
    apply list_elem_of_fmap in H as (i & -> & Hi). simpl. auto.
  - destruct (allowed "power-recipe" tys) eqn:Ha; [|now apply elem_of_nil in H].
    apply list_elem_of_fmap in H as (i & -> & Hi). simpl. auto.
  - destruct (allowed "crafter" tys) eqn:Ha; [|now apply elem_of_nil in H].
    apply list_elem_of_fmap in H as (i & -> & Hi). simpl. auto.
  - destruct (allowed "generator" tys) eqn:Ha; [|now apply elem_of_nil in H].
    apply list_elem_of_fmap in H as (i & -> & Hi). simpl. auto.
Qed.

Lemma filter_raising_complete {A : Type} (p : A -> result bool) (l ms : list A) (x : A) :
  filter_raising p l = Ok ms -> x ∈ l -> p x = Ok true -> x ∈ ms.
Proof.
  revert ms. induction l as [|y l IH]; intros ms H Hx Hp; simpl in H.
  - now apply elem_of_nil in Hx.
  - apply bind_Ok_inv in H as (b & Hb & H).
    apply bind_Ok_inv in H as (rest & Hrest & [= <-]).
    apply elem_of_cons in Hx as [->|Hx].
    + rewrite Hp in Hb. injection Hb as <-. apply elem_of_cons. now left.
    + destruct b; [apply elem_of_cons; right|]; eauto.
Qed.


End Categories.

(** ** Names *)

Lemma is_space_lower_char (c : ascii) : is_space (lower_char c) = is_space c.
Proof. destruct c as [[] [] [] [] [] [] [] []]; reflexivity. Qed.

Lemma lower_lstrip (s : string) : lower (lstrip s) = lstrip (lower s).
Proof.
  induction s as [|c s IH]; simpl; [reflexivity|].
  rewrite is_space_lower_char. destruct (is_space c); [exact IH | reflexivity].
Qed.

Lemma lower_rstrip (s : string) : lower (rstrip s) = rstrip (lower s).
Proof.
  induction s as [|c s IH]; simpl; [reflexivity|].
  rewrite <- IH, is_space_lower_char.
  destruct (rstrip s) as [|d t]; simpl; [|reflexivity].
  destruct (is_space c); reflexivity.
Qed.

Lemma lower_strip (s : string) : lower (strip s) = strip (lower s).
Proof. unfold strip. now rewrite lower_rstrip, lower_lstrip. Qed.

(** A string is its stripped part between two runs of white space. *)
Lemma lstrip_split (s : string) :
  exists u, s = u +:+ lstrip s /\ string_forall is_space u = true.
Proof.
  induction s as [|c s (u & Hu & Hsp)]; [exists ""; auto|].
  simpl. destruct (is_space c) eqn:Hc.
  - exists (String c u). split; [exact (f_equal (String c) Hu)|].
    simpl. now rewrite Hc, Hsp.
  - exists "". auto.
Qed.

Lemma rstrip_split (s : string) :
  exists u, s = rstrip s +:+ u /\ string_forall is_space u = true.
Proof.
  induction s as [|c s (u & Hu & Hsp)]; [exists ""; auto|].
  simpl. destruct (rstrip s) as [|d t] eqn:Hr.
  - change (s = u) in Hu. subst u. destruct (is_space c) eqn:Hc.
    + exists (String c s). split; [reflexivity|]. simpl. now rewrite Hc, Hsp.
    + exists s. split; [reflexivity | exact Hsp].
  - exists u. split; [exact (f_equal (String c) Hu) | exact Hsp].
Qed.

Lemma re_split_cons (sep : ascii -> bool) (s : string) :
  exists w ws, re_split sep s = w :: ws.
Proof.
  destruct s as [|c s]; simpl; [eauto|].
  destruct (sep c); [eauto|]. destruct (re_split sep s); eauto.
Qed.

Lemma append_cons (c : ascii) (u t : string) :
  String c u +:+ t = String c (u +:+ t).
Proof. reflexivity. Qed.

Lemma append_nil_l (t : string) : "" +:+ t = t.
Proof. reflexivity. Qed.

Lemma append_nil_r (u : string) : u +:+ "" = u.
Proof. induction u as [|c u IH]; [reflexivity|]. now rewrite append_cons, IH. Qed.

Lemma re_split_separators_l (sep : ascii -> bool) (u t : string) :
  string_forall sep u = true ->
  re_split sep (u +:+ t) = replicate (String.length u) "" ++ re_split sep t.
Proof.
  induction u as [|c u IH]; [reflexivity|].
  rewrite append_cons. simpl.
  intros [Hc Hu]%andb_true_iff. rewrite Hc. now rewrite IH.
Qed.

Lemma re_split_separators_r (sep : ascii -> bool) (t u : string) :
  string_forall sep u = true ->
  re_split sep (t +:+ u) = re_split sep t ++ replicate (String.length u) "".
Proof.
  intros Hu. induction t as [|c t IH].
  - rewrite append_nil_l. rewrite <- (append_nil_r u) at 1.
    rewrite (re_split_separators_l sep u "" Hu). simpl.
    clear. induction (String.length u) as [|n IHn]; simpl; [reflexivity | now f_equal].
  - rewrite append_cons. simpl. rewrite IH. destruct (sep c); [reflexivity|].
    destruct (re_split_cons sep t) as (w & ws & ->). reflexivity.
Qed.

Lemma filter_None_app (l1 l2 : list string) :
  filter_None (l1 ++ l2) = filter_None l1 ++ filter_None l2.
Proof. unfold filter_None. apply List.filter_app. Qed.

Lemma filter_None_replicate (n : nat) : filter_None (replicate n "") = [].
Proof. induction n; simpl; auto. Qed.

(** Stripping does not change the tokens when white space separates. *)
Lemma tokens_strip (sep : ascii -> bool) (s : string) :
  (forall c, is_space c = true -> sep c = true) ->
  filter_None (re_split sep (strip s)) = filter_None (re_split sep s).
Proof.
  intros Hsep. unfold strip.
  destruct (lstrip_split s) as (u & Hu & Hsu).
  destruct (rstrip_split (lstrip s)) as (u' & Hu' & Hsu').
  rewrite Hu at 2. rewrite Hu' at 2.
  rewrite re_split_separators_l, re_split_separators_r
    by (eapply string_forall_impl; [exact Hsep | assumption]).
  now rewrite !filter_None_app, !filter_None_replicate, app_nil_r.
Qed.

Lemma strip_no_space (s : string) :
  string_forall (fun c => negb (is_space c)) s = true -> strip s = s.
Proof.
  intros H. unfold strip.
  assert (lstrip s = s) as ->.
  { destruct s as [|c s]; simpl in *; [reflexivity|].
    apply andb_true_iff in H as [Hc _]. apply negb_true_iff in Hc. now rewrite Hc. }
  induction s as [|c s IH]; simpl in *; [reflexivity|].
  apply andb_true_iff in H as [Hc Hs]. apply negb_true_iff in Hc.
  rewrite (IH Hs), Hc. now destruct s.
Qed.

Section OwnNames.

Variable plural_of : string -> string.

Lemma sep_expr_space (c : ascii) : is_space c = true -> sep_expr c = true.
Proof. unfold sep_expr. now intros ->. Qed.

Lemma check_names_singular (parts : list string) (v : Entity) :
  parts = name_parts_of (lower (human_readable_name v)) ->
  check_names plural_of parts v = true.
Proof. intros ->. unfold check_names. cbv zeta. now rewrite list_string_eqb_refl. Qed.

Lemma check_names_var (parts : list string) (v : Entity) :
  parts = filter_None (re_split sep_var (var v)) ->
  check_names plural_of parts v = true.
Proof.
  intros ->. unfold check_names. cbv zeta. rewrite list_string_eqb_refl.
  repeat match goal with |- (if ?c then _ else _) = _ => destruct c end; reflexivity.
Qed.

(** X9. An entity answers to its own names: to its human readable name in
    any letter case when the name has no underscore; and, when its name is
    not empty, so that [inflect] returns a plural for it, to its var when the
    var is in lower case without underscore or space, and to its var without
    the type prefix when that is in lower case without underscore, space or
    regex metacharacter. *)
Theorem entity_answers_to_its_names (v : Entity) :
  (forall e, lower e = lower (human_readable_name v) ->
     no_underscore (lower (human_readable_name v)) = true ->
     _check_var plural_of e v = Ok true)
  /\ (human_readable_name v <> "" ->
      lower (var v) = var v ->
      no_underscore_or_space (var v) = true ->
      _check_var plural_of (var v) v = Ok true)
  /\ (forall t, human_readable_name v <> "" ->
        split_colon_1 (var v) = Ok t ->
        lower t = t ->
        no_underscore_or_space t = true ->
        regex_free t = true ->
        _check_var plural_of t v = Ok true).
Proof.
  split; [|split].
  - intros e He Hu. unfold _check_var. cbv zeta.
    rewrite check_names_singular; [reflexivity|].
    unfold normalize, expr_parts_of. rewrite lower_strip, He.
    rewrite (tokens_strip sep_expr _ sep_expr_space).
    now apply expr_parts_as_name.
  - intros _ Hlow Hu. unfold _check_var. cbv zeta.
    rewrite check_names_var; [reflexivity|].
    unfold normalize, expr_parts_of. rewrite lower_strip, Hlow.
    rewrite (tokens_strip sep_expr _ sep_expr_space).
    now rewrite expr_split_as_var.
  - intros t _ Ht Hlow Hu Hfree. unfold _check_var. cbv zeta.
    assert (normalize t = t) as Hnorm.
    { unfold normalize. rewrite lower_strip, Hlow. apply strip_no_space.
      revert Hu. apply string_forall_impl. now intros c [_ ?]%andb_true_iff. }
    rewrite Hnorm.
    destruct (check_names plural_of (expr_parts_of t) v); [reflexivity|].
    rewrite Ht. cbn [mbind result_bind].
    destruct (list_string_eqb (expr_parts_of t) (re_split sep_var t)); [reflexivity|].
    destruct (ReFacts.compile_regex_free t Hfree) as (r & -> & Hr).
    cbn [mbind result_bind]. rewrite !Hr, (String.eqb_refl t).
    now rewrite !orb_true_r.
Qed.

End OwnNames.

(** ** Info queries *)

Section InfoQueries.

Variable plural_of : string -> string.
Variable db : DB.
Variable maximize0 : bool.

Lemma list_remove_Permutation (r : Recipe) (l : list Recipe) :
  r ∈ l -> r :: list_remove r l ≡ₚ l.
Proof.
  induction l as [|y l IH]; [intros H; now apply elem_of_nil in H|].
  intros H. simpl. case_bool_decide as Hy.
  - now subst.
  - apply elem_of_cons in H as [->|H]; [congruence|].
    rewrite Permutation_swap. now rewrite IH.
Qed.

Lemma find_elem_of (p : Recipe -> bool) (l : list Recipe) (r : Recipe) :
  List.find p l = Some r -> r ∈ l /\ p r = true.
Proof.
  intros H. apply find_some in H as [H1 H2]. split; [now apply list_elem_of_In | exact H2].
Qed.

(** X10. A recipe comparison that compiles has matched exactly one item; its
    base recipe and its related recipes together are the recipes that
    produce the item, each as often as it is listed; and when there are
    related recipes the base recipe has the slug of the item. *)
Theorem compare_query_partitions_producers raw e x (q : RecipeCompareQuery) :
  _parse_recipe_compare_query plural_of db raw e x = Ok q ->
  _get_matches plural_of db e ["item"] = Ok [product_item q]
  /\ base_recipe q :: related_recipes q
     ≡ₚ recipes_for_product db (var (product_item q))
  /\ (related_recipes q <> [] -> has_slug_of (product_item q) (base_recipe q) = true)
  /\ compare_raw_query q = raw
  /\ exclude_alternates q = x.
Proof.
  unfold _parse_recipe_compare_query. intros H.
  apply bind_Ok_inv in H as (ms & Hms & H).
  destruct ms as [|product [|m ms]]; [discriminate | | discriminate].
  cbn -[var slug human_readable_name String.append list_remove List.find] in H.
  fold (has_slug_of product) in H.
  destruct (recipes_for_product db (var product)) as [|r [|r' rs]] eqn:Hrs;
    [discriminate | |].
  - injection H as <-. cbn [product_item base_recipe related_recipes
                              compare_raw_query exclude_alternates].
    rewrite Hrs. split; [assumption|]. split; [reflexivity|].
    split; [congruence|]. split; reflexivity.
  - destruct (List.find (has_slug_of product) (r :: r' :: rs)) as [base|] eqn:Hfind;
      [|discriminate].
    injection H as <-. cbn [product_item base_recipe related_recipes
                              compare_raw_query exclude_alternates].
    apply find_elem_of in Hfind as [Hin Hslug].
    rewrite Hrs. split; [assumption|].
    split; [exact (list_remove_Permutation base (r :: r' :: rs) Hin)|].
    split; [intros _; exact Hslug|]. split; reflexivity.
Qed.

(** X11. An entity query that compiles holds at least one entity: the
    matching items, crafters and generators, with no recipe among them, or,
    only when none of those matches, the matching recipes and power
    recipes. *)
Theorem entity_details_prefers_non_recipes raw e (q : InfoQuery) :
  _parse_entity_details plural_of db raw e = Ok q ->
  vars q <> []
  /\ ((_get_matches plural_of db e ["resource"; "item"; "crafter"; "generator"]
       = Ok (vars q)
       /\ Forall (fun m => is_recipe_kind m = false) (vars q))
      \/ (_get_matches plural_of db e ["resource"; "item"; "crafter"; "generator"]
          = Ok []
          /\ _get_matches plural_of db e ["recipe"; "power-recipe"] = Ok (vars q)
          /\ Forall (fun m => is_recipe_kind m = true) (vars q))).
Proof.
  unfold _parse_entity_details. intros H.
  apply bind_Ok_inv in H as (ms & Hms & H).
  assert (forall tys l, _get_matches plural_of db e tys = Ok l ->
                        Forall (fun m => category m ∈ tys) l) as Hcat.
  { intros tys l Hl. apply Forall_forall. intros m Hm.
    unfold _get_matches in Hl.
    apply allowed_vars_category with (db := db).
    eapply elem_of_sublist; [exact Hm|]. eapply filter_raising_sublist; eassumption. }
  destruct ms as [|m ms].
  - simpl in H. apply bind_Ok_inv in H as (rs & Hrs & H).
    destruct rs as [|r rs]; [discriminate|]. injection H as <-. simpl.
    split; [discriminate|]. right. split; [assumption|]. split; [assumption|].
    eapply Forall_impl; [exact (Hcat _ _ Hrs)|].
    intros [i| | | |] Hc; simpl in *; try reflexivity;
      exfalso; revert Hc; try destruct (is_resource i);
      rewrite !elem_of_cons, elem_of_nil; intros [?|[?|?]]; discriminate || tauto.
  - injection H as <-. simpl. split; [discriminate|]. left. split; [assumption|].
    eapply Forall_impl; [exact (Hcat _ _ Hms)|].
    intros [i|r|p|c|g] Hc; simpl in *; try reflexivity;
      exfalso; revert Hc;
      rewrite !elem_of_cons, elem_of_nil; intros [?|[?|[?|[?|?]]]]; discriminate || tauto.
Qed.

(** A pattern that [re] refuses. *)
Lemma _check_var_refused (e : string) (v : Entity) :
  Re.compile (normalize e) = Raise re_error ->
  _check_var plural_of e v <> Ok false.
Proof.
  intros Hre. unfold _check_var. cbv zeta.
  destruct (check_names plural_of (expr_parts_of (normalize e)) v); [discriminate|].
  destruct (split_colon_1 (var v)) as [t|err]; [|discriminate].
  cbn [mbind result_bind].
  destruct (list_string_eqb (expr_parts_of (normalize e)) (re_split sep_var t));
    [discriminate|].
  rewrite Hre. discriminate.
Qed.

Lemma filter_raising_all {A : Type} (p : A -> result bool) (l ms : list A) :
  (forall x, p x <> Ok false) -> filter_raising p l = Ok ms -> ms = l.
Proof.
  intros Hp. revert ms. induction l as [|x l IH]; intros ms H; simpl in H.
  - now injection H as <-.
  - apply bind_Ok_inv in H as (b & Hb & H).
    apply bind_Ok_inv in H as (rest & Hrest & [= <-]).
    destruct b; [f_equal; auto | destruct (Hp x Hb)].
Qed.

Lemma items_two (c d : ascii) (p : string) :
  Re.items (String c (String d p))
  = if Ascii.eqb c "*" then Raise re_error
    else if Ascii.eqb d "*"
         then rest ← Re.items p; Ok (Re.Star (Re.atom c) :: rest)
         else rest ← Re.items (String d p); Ok (Re.atom c :: rest).
Proof. reflexivity. Qed.

Lemma items_raises (p : string) :
  (forall err, Re.items p = Raise err -> err = re_error)
  /\ (forall c err, Re.items (String c p) = Raise err -> err = re_error).
Proof.
  induction p as [|d p [IH1 IH2]].
  - split; [discriminate|]. intros c err. simpl.
    destruct (Ascii.eqb c "*"); [now intros [= <-] | discriminate].
  - split; [exact (IH2 d)|]. intros c err H.
    rewrite items_two in H.
    destruct (Ascii.eqb c "*"); [now injection H as <-|].
    destruct (Ascii.eqb d "*").
    + apply IH1. destruct (Re.items p) as [its|err']; [discriminate|].
      now injection H as <-.
    + apply (IH2 d). destruct (Re.items (String d p)) as [its|err']; [discriminate|].
      now injection H as <-.
Qed.

Lemma split_colon_1_raises (s : string) (err : exn) :
  split_colon_1 s = Raise err -> err = IndexError.
Proof.
  induction s as [|c s IH]; simpl; [now intros [= <-]|].
  destruct (Ascii.eqb c ":"); [discriminate | exact IH].
Qed.

Lemma _check_var_raises (e : string) (v : Entity) (err : exn) :
  _check_var plural_of e v = Raise err ->
  err = IndexError \/ err = re_error \/ err = NotModelled.
Proof.
  unfold _check_var. cbv zeta.
  destruct (check_names plural_of (expr_parts_of (normalize e)) v); [discriminate|].
  destruct (split_colon_1 (var v)) as [t|err'] eqn:Ht.
  - cbn [mbind result_bind].
    destruct (list_string_eqb (expr_parts_of (normalize e)) (re_split sep_var t));
      [discriminate|].
    destruct (Re.compile (normalize e)) as [r|err'] eqn:Hc; [discriminate|].
    cbn [mbind result_bind]. intros [= <-]. right.
    unfold Re.compile in Hc. destruct (Re.any_meta (normalize e)).
    + injection Hc as <-. now right.
    + destruct (Re.items (normalize e)) as [its|err''] eqn:Hits; [discriminate|].
      injection Hc as <-. left. now apply (proj1 (items_raises (normalize e))).
  - cbn [mbind result_bind]. intros [= <-]. left.
    eapply split_colon_1_raises; eassumption.
Qed.

Lemma _get_matches_raises (e : string) (tys : list string) (err : exn) :
  _get_matches plural_of db e tys = Raise err ->
  err = IndexError \/ err = re_error \/ err = NotModelled.
Proof.
  unfold _get_matches. induction (allowed_vars db tys) as [|v l IH]; simpl;
    [discriminate|].
  destruct (_check_var plural_of e v) as [b|err'] eqn:Hv.
  - cbn [mbind result_bind].
    destruct (filter_raising (_check_var plural_of e) l); [discriminate|].
    cbn [mbind result_bind]. intros [= <-]. now apply IH.
  - cbn [mbind result_bind]. intros [= <-]. eapply _check_var_raises; eassumption.
Qed.

(** X12. An expression that [re] refuses as a pattern is never reported as
    unmatched when there is a candidate: the lookup raises, or it returns
    every candidate. *)
Theorem refused_pattern_is_never_unmatched (e : string) (tys : list string)
  (what : string) :
  Re.compile (normalize e) = Raise re_error ->
  allowed_vars db tys <> [] ->
  clause_vars plural_of db (entity e) tys what <> Raise (could_not_parse what e)
  /\ forall ms, _get_matches plural_of db e tys = Ok ms -> ms = allowed_vars db tys.
Proof.
  intros Hre Hne.
  assert (forall ms, _get_matches plural_of db e tys = Ok ms -> ms = allowed_vars db tys)
    as Hall.
  { intros ms. apply filter_raising_all. intros v. now apply _check_var_refused. }
  split; [|exact Hall].
  unfold clause_vars.
  destruct (_get_matches plural_of db e tys) as [ms|err] eqn:Hm.
  - rewrite (Hall ms eq_refl). cbn [mbind result_bind].
    destruct (allowed_vars db tys); [congruence | discriminate].
  - cbn [mbind result_bind]. intros [= ->].
    apply _get_matches_raises in Hm as [Hm|[Hm|Hm]]; discriminate.
Qed.

End InfoQueries.

(** ** Recipe listings *)

Lemma fold_left_app_flat_map {A B : Type} (f : A -> list B) (l : list A) (acc : list B) :
  fold_left (fun vars m => vars ++ f m) l acc = acc ++ flat_map f l.
Proof.
  revert acc. induction l as [|x l IH]; intros acc; simpl.
  - now rewrite app_nil_r.
  - rewrite IH. now rewrite app_assoc.
Qed.

Section Listings.

Variable plural_of : string -> string.
Variable db : DB.

Lemma length_zero_nil {A : Type} (l : list A) : (length l =? 0)%nat = false -> l <> [].
Proof. destruct l; [discriminate|discriminate]. Qed.

Lemma _parse_recipes_from_query_vars raw e (q : InfoQuery) :
  _parse_recipes_from_query plural_of db raw e = Ok q ->
  exists ms,
    _get_matches plural_of db e ["resource"; "item"] = Ok ms
    /\ ms <> []
    /\ info_raw_query q = raw
    /\ vars q = map ERecipe (flat_map (fun m => recipes_for_ingredient db (var m)) ms).
Proof.
  unfold _parse_recipes_from_query. intros H.
  apply bind_Ok_inv in H as (ms & Hms & H). exists ms. split; [exact Hms|].
  destruct (length ms =? 0)%nat eqn:Hlen; [discriminate|].
  injection H as <-. split; [now apply length_zero_nil|]. split; [reflexivity|].
  transitivity
    ([] ++ flat_map (fun m => map ERecipe (recipes_for_ingredient db (var m))) ms).
  - exact (fold_left_app_flat_map
             (fun m => map ERecipe (recipes_for_ingredient db (var m))) ms []).
  - cbn [app]. clear. induction ms as [|m ms IH]; [reflexivity|].
    cbn [flat_map]. rewrite map_app. now f_equal.
Qed.

(** X13. A recipes-from query that compiles keeps the raw text, has at least
    one match, and holds exactly the recipes that consume one of the
    matched items. *)
Theorem recipes_from_lists_consumers raw e (q : InfoQuery) :
  _parse_recipes_from_query plural_of db raw e = Ok q ->
  exists ms,
    _get_matches plural_of db e ["resource"; "item"] = Ok ms
    /\ ms <> []
    /\ info_raw_query q = raw
    /\ forall v, v ∈ vars q
                 <-> exists m r, m ∈ ms /\ r ∈ recipes_for_ingredient db (var m)
                                 /\ v = ERecipe r.
Proof.
  intros H. apply _parse_recipes_from_query_vars in H as (ms & Hms & Hne & Hraw & Hvars).
  exists ms. split; [exact Hms|]. split; [exact Hne|]. split; [exact Hraw|].
  intros v. rewrite Hvars. rewrite list_elem_of_fmap. split.
  - intros (r & -> & Hr). apply list_elem_of_In, in_flat_map in Hr as (m & Hm & Hr).
    exists m, r. repeat split; now apply list_elem_of_In.
  - intros (m & r & Hm & Hr & ->). exists r. split; [reflexivity|].
    apply list_elem_of_In, in_flat_map. exists m. split; now apply list_elem_of_In.
Qed.

(** X14. A recipes-for query that compiles has at least one match and lists,
    match after match, what the prefix of the matched var selects: the
    recipes that produce an item, the recipes made in a crafter, the power
    recipes of a generator. It lists recipes and power recipes only. *)
Theorem recipes_for_lists_only_recipes raw e (q : InfoQuery) :
  _parse_recipes_for_query plural_of db raw e = Ok q ->
  exists ms,
    _get_matches plural_of db e ["resource"; "item"; "crafter"; "generator"] = Ok ms
    /\ ms <> []
    /\ vars q = flat_map (fun m => listed_for db (var m)) ms
    /\ Forall (fun v => is_recipe_kind v = true) (vars q).
Proof.
  unfold _parse_recipes_for_query. intros H.
  apply bind_Ok_inv in H as (ms & Hms & H). exists ms. split; [exact Hms|].
  destruct (length ms =? 0)%nat eqn:Hlen; [discriminate|].
  injection H as <-. split; [now apply length_zero_nil|].
  assert (Hvars : vars {| info_raw_query := raw;
                          vars := fold_left
                            (fun vars m => vars ++ listed_for db (var m)) ms [] |}
                  = flat_map (fun m => listed_for db (var m)) ms)
    by exact (fold_left_app_flat_map (fun m => listed_for db (var m)) ms []).
  assert (Hsame : forall (l : list Entity) acc,
             fold_left
               (fun vars m =>
                  let v := var m in
                  if startswith v "item" || startswith v "resource"
                  then vars ++ map ERecipe (recipes_for_product db v)
                  else if startswith v "crafter"
                  then vars ++ map ERecipe
                         (List.filter (fun r => String.eqb (var (crafter r)) v)
                            (values (recipes db)))
                  else if startswith v "generator"
                  then vars ++ map EPowerRecipe
                         (List.filter (fun r => String.eqb (var (generator r)) v)
                            (values (power_recipes db)))
                  else vars) l acc
             = fold_left (fun vars m => vars ++ listed_for db (var m)) l acc).
  { induction l as [|m l IH]; intros acc; [reflexivity|].
    cbn [fold_left]. rewrite IH. f_equal. cbv zeta. unfold listed_for.
    destruct (startswith (var m) "item" || startswith (var m) "resource");
      [reflexivity|].
    destruct (startswith (var m) "crafter"); [reflexivity|].
    destruct (startswith (var m) "generator"); [reflexivity|].
    now rewrite app_nil_r. }
  cbn [vars] in Hvars |- *. rewrite Hsame, Hvars. split; [reflexivity|].
  apply Forall_forall. intros v Hv. apply list_elem_of_In, in_flat_map in Hv.
  destruct Hv as (m & _ & Hv). unfold listed_for in Hv.
  destruct (startswith (var m) "item" || startswith (var m) "resource");
    [apply in_map_iff in Hv as (r & <- & _); reflexivity|].
  destruct (startswith (var m) "crafter");
    [apply in_map_iff in Hv as (r & <- & _); reflexivity|].
  destruct (startswith (var m) "generator");
    [apply in_map_iff in Hv as (r & <- & _); reflexivity|].
  destruct Hv.
Qed.

End Listings.

(** ** The solution of a result *)

Lemma for_each_inv {A S : Type} (P : S -> Prop) (body : A -> S -> result S)
  (l : list A) (s s' : S) :
  (forall x s s', x ∈ l -> body x s = Ok s' -> P s -> P s') ->
  for_each body l s = Ok s' -> P s -> P s'.
Proof.
  revert s. induction l as [|x l IH]; intros s Hstep H Hs.
  - now injection H as <-.
  - simpl in H. apply bind_Ok_inv in H as (s1 & H1 & H).
    apply (IH s1); [|exact H|].
    + intros y t t' Hy. apply Hstep. now apply elem_of_cons; right.
    + apply (Hstep x s s1); [apply elem_of_cons; now left|exact H1|exact Hs].
Qed.

Lemma odict_get_set {V : Type} (k k' : string) (v : V) (d : odict V) :
  odict_get k (odict_set k' v d)
  = if String.eqb k' k then Some v else odict_get k d.
Proof.
  induction d as [|[k0 v0] d IH]; simpl.
  - reflexivity.
  - destruct (String.eqb_spec k0 k') as [->|Hne]; simpl.
    + destruct (String.eqb k' k); reflexivity.
    + rewrite IH. destruct (String.eqb_spec k0 k) as [->|Hne'].
      * destruct (String.eqb_spec k' k) as [->|_]; [congruence|reflexivity].
      * reflexivity.
Qed.

Lemma odict_get_nil_iff {V : Type} (d : odict V) :
  (forall k, odict_get k d = None) -> d = [].
Proof.
  destruct d as [|[k v] d]; [reflexivity|]. intros H. specialize (H k).
  simpl in H. rewrite String.eqb_refl in H. discriminate.
Qed.

Section Extraction.

Local Open Scope Qc_scope.

Variable self : OptimizationResult.

Lemma nonzero_value_Some (v : string) (a : Qc) :
  nonzero_value self v = Ok (Some a)
  <-> result_vars self !! v = Some (Some a) /\ a <> 0.
Proof.
  unfold nonzero_value, get_value.
  destruct (result_vars self !! v) as [[x|]|]; simpl.
  - case_bool_decide as Hx; split.
    + discriminate.
    + intros [[= ->] Hne]. contradiction.
    + intros [= ->]. auto.
    + intros [[= ->] _]. reflexivity.
  - split; [discriminate | intros [[=] _]].
  - split; [discriminate | intros [[=] _]].
Qed.

Lemma nonzero_value_Ok (v : string) :
  is_Some (result_vars self !! v) -> exists x, nonzero_value self v = Ok x.
Proof.
  intros [x Hx]. unfold nonzero_value, get_value. rewrite Hx. simpl. eauto.
Qed.

Lemma comprehend_sound {A : Type} `{CatalogEntity A} (keep : Qc -> bool)
  (amount : Qc -> Qc) (objs : list A) (d : odict (A * Qc)) :
  comprehend self keep amount objs = Ok d ->
  forall v obj a, odict_get v d = Some (obj, a) ->
    exists x, result_vars self !! v = Some (Some x) /\ x <> 0 /\ keep x = true
              /\ a = amount x /\ var obj = v /\ obj ∈ objs.
Proof.
  unfold comprehend. intros Hd.
  refine (for_each_inv
            (fun d => forall v obj a, odict_get v d = Some (obj, a) ->
               exists x, result_vars self !! v = Some (Some x) /\ x <> 0
                         /\ keep x = true /\ a = amount x /\ var obj = v
                         /\ obj ∈ objs) _ _ _ _ _ Hd _).
  - intros o s s' Ho Hstep Hs v obj a.
    apply bind_Ok_inv in Hstep as (x & Hx & Hstep).
    destruct x as [x|]; [|injection Hstep as <-; apply Hs].
    destruct (keep x) eqn:Hk; [|injection Hstep as <-; apply Hs].
    injection Hstep as <-. rewrite odict_get_set.
    destruct (String.eqb_spec (var o) v) as [<-|_]; [|apply Hs].
    intros [= <- <-]. apply nonzero_value_Some in Hx as [Hx Hne].
    exists x. repeat split; assumption.
  - intros v obj a [=].
Qed.

Lemma comprehend_complete {A : Type} `{CatalogEntity A} (keep : Qc -> bool)
  (amount : Qc -> Qc) (objs : list A) (d0 d : odict (A * Qc)) :
  for_each
    (fun obj d =>
       x ← nonzero_value self (var obj);
       match x with
       | Some a => if keep a then Ok (odict_set (var obj) (obj, amount a) d) else Ok d
       | None => Ok d
       end) objs d0 = Ok d ->
  (forall v, is_Some (odict_get v d0) -> is_Some (odict_get v d))
  /\ forall obj x, obj ∈ objs -> result_vars self !! var obj = Some (Some x) ->
       x <> 0 -> keep x = true -> is_Some (odict_get (var obj) d).
Proof.
  revert d0. induction objs as [|o objs IH]; intros d0 Hd.
  - injection Hd as <-. split; [auto|]. intros obj x Hin. now apply elem_of_nil in Hin.
  - simpl in Hd. apply bind_Ok_inv in Hd as (d1 & H1 & Hd).
    destruct (IH d1 Hd) as [Hkeep Hall].
    apply bind_Ok_inv in H1 as (x & Hx & H1).
    assert (Hgrow : forall v, is_Some (odict_get v d0) -> is_Some (odict_get v d1)).
    { destruct x as [x|]; [|injection H1 as <-; auto].
      destruct (keep x); [|injection H1 as <-; auto].
      injection H1 as <-. intros v Hv. rewrite odict_get_set.
      destruct (String.eqb (var o) v); [eauto|exact Hv]. }
    split; [auto|].
    intros obj y Hin Hy Hne Hk. apply elem_of_cons in Hin as [->|Hin]; [|eauto].
    apply Hkeep.
    assert (Hx' : nonzero_value self (var o) = Ok (Some y))
      by (apply nonzero_value_Some; auto).
    rewrite Hx' in Hx. injection Hx as <-. rewrite Hk in H1. injection H1 as <-.
    rewrite odict_get_set, String.eqb_refl. eauto.
Qed.

(** X15. The inputs and outputs of a result split the items by the sign of
    their value: an input has a negative value and is recorded with its
    magnitude, an output has a positive value, no var is both, and every
    item with a value other than zero is the one or the other. *)
Theorem inputs_and_outputs_split_by_sign (ex : Extracted) :
  extract self = Ok ex ->
  (forall v item a, odict_get v (ex_inputs ex) = Some (item, a) ->
     0 < a /\ result_vars self !! v = Some (Some (- a))
     /\ odict_get v (ex_outputs ex) = None)
  /\ (forall v item a, odict_get v (ex_outputs ex) = Some (item, a) ->
        0 < a /\ result_vars self !! v = Some (Some a)
        /\ odict_get v (ex_inputs ex) = None)
  /\ (forall item x, item ∈ values (items (result_db self)) ->
        result_vars self !! var item = Some (Some x) -> x <> 0 ->
        is_Some (odict_get (var item)
                   (if bool_decide (x < 0) then ex_inputs ex else ex_outputs ex))).
Proof.
  unfold extract. intros H.
  apply bind_Ok_inv in H as (ins & Hins & H).
  apply bind_Ok_inv in H as (outs & Houts & H).
  apply bind_Ok_inv in H as (rs & _ & H).
  apply bind_Ok_inv in H as (cs & _ & H).
  apply bind_Ok_inv in H as (gs & _ & H).
  apply bind_Ok_inv in H as (p & _ & H).
  injection H as <-. cbn [ex_inputs ex_outputs].
  pose proof (comprehend_sound _ _ _ _ Hins) as Sin.
  pose proof (comprehend_sound _ _ _ _ Houts) as Sout.
  assert (Hneg : forall x : Qc, x < 0 -> ~ 0 < x).
  { intros x H1 H2. exact (Qclt_not_le _ _ H1 (Qclt_le_weak _ _ H2)). }
  split; [|split].
  - intros v item a Hv. destruct (Sin v item a Hv) as (x & Hx & _ & Hk & -> & _).
    apply bool_decide_eq_true in Hk.
    split; [|split].
    + apply Qclt_minus_iff in Hk. now rewrite Qcplus_0_l in Hk.
    + rewrite Qcopp_involutive. exact Hx.
    + destruct (odict_get v outs) as [[item' a']|] eqn:Hv'; [|reflexivity].
      destruct (Sout v item' a' Hv') as (y & Hy & _ & Hk' & _).
      apply bool_decide_eq_true in Hk'. rewrite Hx in Hy. injection Hy as <-.
      now destruct (Hneg x Hk).
  - intros v item a Hv. destruct (Sout v item a Hv) as (x & Hx & _ & Hk & -> & _).
    apply bool_decide_eq_true in Hk.
    split; [exact Hk|split; [exact Hx|]].
    destruct (odict_get v ins) as [[item' a']|] eqn:Hv'; [|reflexivity].
    destruct (Sin v item' a' Hv') as (y & Hy & _ & Hk' & _).
    apply bool_decide_eq_true in Hk'. rewrite Hx in Hy. injection Hy as <-.
    now destruct (Hneg x Hk').
  - intros item x Hin Hx Hne. case_bool_decide as Hlt.
    + apply (proj2 (comprehend_complete _ _ _ _ _ Hins) item x Hin Hx Hne).
      now apply bool_decide_eq_true.
    + apply (proj2 (comprehend_complete _ _ _ _ _ Houts) item x Hin Hx Hne).
      apply bool_decide_eq_true.
      destruct (Qclt_le_dec x 0) as [Hlt'|Hle]; [contradiction|].
      apply Qcle_lt_or_eq in Hle as [Hl|He]; [exact Hl|congruence].
Qed.

Lemma no_non_zero_var (v : string) (a : Qc) :
  __has_non_zero_var self = false -> nonzero_value self v = Ok (Some a) -> False.
Proof.
  unfold __has_non_zero_var. intros Hno Hv. apply nonzero_value_Some in Hv as [Hv Hne].
  apply not_true_iff_false in Hno. apply Hno. apply existsb_exists.
  exists (v, Some a). split.
  - apply list_elem_of_In. now apply elem_of_map_to_list.
  - simpl. now rewrite bool_decide_eq_false_2.
Qed.

Lemma comprehend_nothing {A : Type} `{CatalogEntity A} (keep : Qc -> bool)
  (amount : Qc -> Qc) (objs : list A) (d : odict (A * Qc)) :
  __has_non_zero_var self = false ->
  comprehend self keep amount objs = Ok d -> d = [].
Proof.
  intros Hno Hd. apply odict_get_nil_iff. intros k.
  destruct (odict_get k d) as [[obj a]|] eqn:Hk; [|reflexivity].
  destruct (comprehend_sound _ _ _ _ Hd k obj a Hk) as (x & Hx & Hne & _).
  destruct (no_non_zero_var k x Hno). now apply nonzero_value_Some.
Qed.

(** X16. When a result with an optimal status reports no solution, nothing is
    extracted from it: no inputs, outputs, recipes, crafters or generators,
    and a net power of zero. *)
Theorem zero_solution_extracts_nothing (ex : Extracted) :
  status self = LpStatusOptimal -> has_solution self = false ->
  extract self = Ok ex ->
  ex = {| ex_inputs := []; ex_outputs := []; ex_recipes := []; ex_crafters := [];
          ex_generators := []; ex_net_power := 0 |}.
Proof.
  unfold has_solution. intros -> Hno. rewrite Z.eqb_refl in Hno. simpl in Hno.
  unfold extract. intros H.
  apply bind_Ok_inv in H as (ins & Hins & H).
  apply bind_Ok_inv in H as (outs & Houts & H).
  apply bind_Ok_inv in H as (rs & Hrs & H).
  apply bind_Ok_inv in H as (cs & Hcs & H).
  apply bind_Ok_inv in H as (gs & Hgs & H).
  apply bind_Ok_inv in H as (p & Hp & H).
  injection H as <-.
  rewrite (comprehend_nothing _ _ _ _ Hno Hins), (comprehend_nothing _ _ _ _ Hno Houts),
    (comprehend_nothing _ _ _ _ Hno Hrs), (comprehend_nothing _ _ _ _ Hno Hcs),
    (comprehend_nothing _ _ _ _ Hno Hgs).
  destruct p as [x|]; [|reflexivity]. destruct (no_non_zero_var "power" x Hno Hp).
Qed.

End Extraction.

(** ** Pages *)

Lemma py_slice_page {A : Type} (l : list A) (p : Z) :
  (1 <= p)%Z ->
  py_slice l ((p - 1) * num_on_page) ((p - 1) * num_on_page + num_on_page)
  = take 9 (drop (9 * Z.to_nat (p - 1)) l).
Proof.
  intros Hp. unfold py_slice, wrap, num_on_page.
  destruct (Z.ltb_spec ((p - 1) * 9) 0) as [?|_]; [lia|].
  destruct (Z.ltb_spec ((p - 1) * 9 + 9) 0) as [?|_]; [lia|].
  set (n := length l).
  destruct (decide (n <= 9 * Z.to_nat (p - 1))) as [Hge|Hlt].
  - rewrite (drop_ge l (9 * _)) by exact Hge.
    rewrite (drop_ge l) by (subst n; lia). now rewrite !take_nil.
  - replace (Z.to_nat (Z.min (Z.max ((p - 1) * 9) 0) (Z.of_nat n)))
      with (9 * Z.to_nat (p - 1)) by lia.
    destruct (decide (9 <= n - 9 * Z.to_nat (p - 1))) as [Hfull|Hpart].
    + f_equal. lia.
    + rewrite !take_ge; [reflexivity| |]; rewrite length_drop; subst n; lia.
Qed.

Lemma nth_error_as_lookup {A : Type} (l : list A) (n : nat) : nth_error l n = l !! n.
Proof. revert n. induction l as [|x l IH]; intros [|n]; simpl; auto. Qed.

Lemma concat_chunks {A : Type} (l : list A) (n : nat) :
  concat (map (fun i => take 9 (drop (9 * i) l)) (seq 0 n)) = take (9 * n) l.
Proof.
  induction n as [|n IH].
  - now rewrite take_0.
  - rewrite seq_S, map_app, concat_app, IH. simpl. rewrite app_nil_r.
    rewrite take_take_drop. f_equal. lia.
Qed.

Section Paging.

Variable self : InfoResult.

Lemma vars_on_page_chunk (p : Z) :
  (1 <= p)%Z ->
  vars_on_page self p
  = take 9 (drop (9 * Z.to_nat (p - 1)) (map human_readable_name (_vars self))).
Proof. intros Hp. unfold vars_on_page. cbv zeta. now apply py_slice_page. Qed.

Lemma _num_pages_bounds :
  let n := Z.of_nat (length (_vars self)) in
  (n <= 9 * _num_pages self < n + 9)%Z.
Proof.
  cbv zeta. unfold _num_pages, num_on_page.
  pose proof (Z.div_mod (Z.of_nat (length (_vars self)) + 9 - 1) 9 ltac:(lia)).
  pose proof (Z.mod_pos_bound (Z.of_nat (length (_vars self)) + 9 - 1) 9 ltac:(lia)).
  lia.
Qed.

(** X17. The pages of an info result, from the first to the last, list every
    name once and in order; each of them holds between one and nine names,
    and a page after the last is empty. *)
Theorem pages_cover_the_matches :
  concat (map (fun i => vars_on_page self (Z.of_nat i))
            (seq 1 (Z.to_nat (_num_pages self))))
  = map human_readable_name (_vars self)
  /\ (forall p, (1 <= p <= _num_pages self)%Z ->
        0 < length (vars_on_page self p) <= 9)
  /\ (forall p, (_num_pages self < p)%Z -> vars_on_page self p = []).
Proof.
  pose proof _num_pages_bounds as Hb. cbv zeta in Hb.
  assert (Hlen : length (map human_readable_name (_vars self)) = length (_vars self))
    by apply length_map.
  split; [|split].
  - rewrite <- seq_shift, map_map.
    erewrite map_ext; [rewrite concat_chunks|].
    + apply take_ge. rewrite Hlen. lia.
    + intros i. cbv beta. rewrite vars_on_page_chunk by lia.
      do 3 f_equal. lia.
  - intros p Hp. rewrite vars_on_page_chunk by lia.
    rewrite length_take, length_drop, Hlen. lia.
  - intros p Hp. pose proof (Z.div_pos (Z.of_nat (length (_vars self)) + 9 - 1) 9).
    assert (0 <= _num_pages self)%Z by (unfold _num_pages, num_on_page; lia).
    rewrite vars_on_page_chunk by lia.
    rewrite drop_ge; [apply take_nil|]. rewrite Hlen. lia.
Qed.

(** X18. The name listed at an index of a page is the name of the entity
    that [_get_var_on_page] returns for that page and index. *)
Theorem listed_entry_is_selected (p : Z) (i : nat) (name : string) :
  (1 <= p)%Z -> vars_on_page self p !! i = Some name ->
  exists v, _get_var_on_page self p (Z.of_nat i) = Ok v
            /\ human_readable_name v = name.
Proof.
  intros Hp Hi. rewrite vars_on_page_chunk in Hi by exact Hp.
  apply lookup_take_Some in Hi as [Hi Hlt].
  rewrite lookup_drop, list_lookup_fmap in Hi.
  destruct (_vars self !! (9 * Z.to_nat (p - 1) + i)) as [v|] eqn:Hv; [|discriminate].
  injection Hi as Hname. exists v. split; [|exact Hname].
  unfold _get_var_on_page, py_index, wrap, num_on_page. cbv zeta.
  destruct (Z.ltb_spec ((p - 1) * 9 + Z.of_nat i) 0) as [?|_]; [lia|].
  destruct (Z.ltb_spec ((p - 1) * 9 + Z.of_nat i) 0) as [?|_]; [lia|].
  replace (Z.to_nat ((p - 1) * 9 + Z.of_nat i)) with (9 * Z.to_nat (p - 1) + i) by lia.
  rewrite nth_error_as_lookup, Hv. reflexivity.
Qed.

End Paging.

Section Sorting.

Context {A : Type} (key : A -> string).

Lemma insert_by_Permutation (x : A) (l : list A) : insert_by key x l ≡ₚ x :: l.
Proof.
  induction l as [|y l IH]; simpl; [reflexivity|].
  destruct (String.leb (key x) (key y)); [reflexivity|].
  rewrite IH. apply Permutation_swap.
Qed.

Lemma sorted_by_Permutation (l : list A) : sorted_by key l ≡ₚ l.
Proof.
  induction l as [|x l IH]; simpl; [reflexivity|].
  rewrite insert_by_Permutation. now rewrite IH.
Qed.

Lemma insert_by_Sorted (x : A) (l : list A) :
  Sorted (key_le key) l -> Sorted (key_le key) (insert_by key x l).
Proof.
  induction 1 as [|y l Hl IH Hhd]; simpl.
  - repeat constructor.
  - destruct (String.leb (key x) (key y)) eqn:Hxy.
    + constructor; [now constructor|]. constructor. exact Hxy.
    + constructor; [exact IH|].
      assert (Hyx : key_le key y x).
      { destruct (String.leb_total (key x) (key y)) as [H|H]; [congruence|exact H]. }
      destruct Hhd as [|z l Hyz]; simpl.
      * now constructor.
      * destruct (String.leb (key x) (key z)); now constructor.
Qed.

Lemma sorted_by_Sorted (l : list A) : Sorted (key_le key) (sorted_by key l).
Proof.
  induction l as [|x l IH]; simpl; [constructor|]. now apply insert_by_Sorted.
Qed.

End Sorting.

Lemma sorted_by_fixed (l : list string) :
  Sorted (key_le (fun s => s)) l -> sorted_by (fun s => s) l = l.
Proof.
  induction 1 as [|x l Hl IH Hhd]; [reflexivity|].
  change (sorted_by (fun s => s) (x :: l))
    with (insert_by (fun s => s) x (sorted_by (fun s => s) l)).
  rewrite IH.
  destruct Hhd as [|y l Hxy]; simpl; [reflexivity|].
  unfold key_le in Hxy. now rewrite Hxy.
Qed.

Lemma Sorted_map_key {A : Type} (key : A -> string) (l : list A) :
  Sorted (key_le key) l -> Sorted (key_le (fun s => s)) (map key l).
Proof.
  induction 1 as [|x l Hl IH Hhd]; simpl; constructor; [exact IH|].
  destruct Hhd; simpl; now constructor.
Qed.

(** X19. An info result keeps the matches it is given, ordered by name; and
    unless there is exactly one match, its text is the names in that order,
    one per line. *)
Theorem matches_are_listed_by_name (vars_ : list Entity) (raw : string) :
  _vars (InfoResult_new vars_ raw) ≡ₚ vars_
  /\ Sorted (key_le human_readable_name) (_vars (InfoResult_new vars_ raw))
  /\ forall details, length vars_ <> 1 ->
       InfoResult_str details (InfoResult_new vars_ raw)
       = join nl (map human_readable_name (_vars (InfoResult_new vars_ raw))).
Proof.
  cbn [_vars InfoResult_new].
  pose proof (sorted_by_Permutation human_readable_name vars_) as Hperm.
  pose proof (sorted_by_Sorted human_readable_name vars_) as Hsorted.
  split; [exact Hperm|split; [exact Hsorted|]].
  intros details Hlen. unfold InfoResult_str. cbn [_vars InfoResult_new].
  rewrite sorted_by_fixed by now apply Sorted_map_key.
  apply Permutation_length in Hperm.
  destruct (sorted_by human_readable_name vars_) as [|v [|w l]]; try reflexivity.
  simpl in Hperm. congruence.
Qed.

Section Selectors.

Variable PREVIOUS_PAGE INFO NEXT_PAGE : string.
Variable NUM_EMOJI : list string.
Variable fresh_reactions : list string.

Lemma page_lines_selectors (names : list string) (k : nat) (out reactions : list string) :
  page_lines NUM_EMOJI true (Z.of_nat k) names out reactions
  = if decide (k + length names < length NUM_EMOJI \/ names = [])
    then Ok (out ++ zip_with (fun prefix var_ => "- " +:+ prefix +:+ var_)
                      (drop (S k) NUM_EMOJI) names,
             reactions ++ take (length names) (drop (S k) NUM_EMOJI))
    else Raise IndexError.
Proof.
  revert k out reactions. induction names as [|n names IH]; intros k out reactions.
  - simpl. rewrite decide_True by now right.
    rewrite zip_with_nil_r, take_0, !app_nil_r. reflexivity.
  - cbn [page_lines]. unfold py_index at 1, wrap. cbv zeta.
    destruct (Z.ltb_spec (Z.of_nat k + 1) 0) as [?|_]; [lia|].
    destruct (Z.ltb_spec (Z.of_nat k + 1) 0) as [?|_]; [lia|].
    replace (Z.to_nat (Z.of_nat k + 1)) with (S k) by lia.
    destruct (nth_error NUM_EMOJI (S k)) as [e|] eqn:He; cbn [mbind Py.result_bind].
    + replace (Z.of_nat k + 1)%Z with (Z.of_nat (S k)) by lia. rewrite IH.
      assert (Hk : S k < length NUM_EMOJI) by (apply nth_error_Some; congruence).
      rewrite nth_error_as_lookup in He.
      rewrite (drop_S NUM_EMOJI e (S k) He).
      destruct (decide (S k + length names < length NUM_EMOJI \/ names = []))
        as [Hd|Hd].
      * rewrite decide_True by (left; simpl; destruct Hd as [?| ->]; simpl; lia).
        cbn [zip_with length take]. rewrite <- !app_assoc. reflexivity.
      * rewrite decide_False; [reflexivity|].
        intros [Hlt|[=]]. apply Hd. left. simpl in Hlt. lia.
    + apply nth_error_None in He.
      rewrite decide_False; [reflexivity|].
      intros [Hlt|[=]]. simpl in Hlt. lia.
Qed.

(** X20. With the selectors switched on, a page offers one number emoji per
    entry, from [NUM_EMOJI[1]] on, and starts each line with it; a page with
    at least as many entries as there are number emoji raises IndexError. *)
Theorem selectors_number_the_entries (self : InfoResult) (crumbs : Breadcrumbs)
  (page : Z) :
  _add_reaction_selectors self = true ->
  (length (vars_on_page self page) < length NUM_EMOJI ->
     exists m, _get_info_page PREVIOUS_PAGE INFO NEXT_PAGE NUM_EMOJI fresh_reactions self crumbs
                 page
               = Ok m
               /\ info_reactions m
                  = fresh_reactions
                    ++ take (length (vars_on_page self page)) (drop 1 NUM_EMOJI)
               /\ info_description m
                  = join nl (numbered NUM_EMOJI (vars_on_page self page)))
  /\ (vars_on_page self page <> [] ->
      length NUM_EMOJI <= length (vars_on_page self page) ->
      _get_info_page PREVIOUS_PAGE INFO NEXT_PAGE NUM_EMOJI fresh_reactions self crumbs
                 page
      = Raise IndexError).
Proof.
  intros Hsel. unfold _get_info_page. rewrite Hsel.
  change 0%Z with (Z.of_nat 0). rewrite page_lines_selectors. split.
  - intros Hlt. rewrite decide_True by (left; lia).
    eexists. split; [reflexivity|]. split; reflexivity.
  - intros Hne Hge. rewrite decide_False; [reflexivity|].
    intros [Hlt|Hnil]; [lia|contradiction].
Qed.

End Selectors.

(** ** Percentages *)

Section Percentages.

Lemma round_half_even_near (x : Qc) :
  let n := Qnum (this x) in
  let d := Zpos (Qden (this x)) in
  (2 * round_half_even x * d - d <= 2 * n <= 2 * round_half_even x * d + d)%Z.
Proof.
  cbv zeta. unfold round_half_even. cbv zeta.
  set (n := Qnum (this x)). set (d := Zpos (Qden (this x))).
  assert (Hd : (0 < d)%Z) by (subst d; lia).
  pose proof (Z.div_mod n d ltac:(lia)) as Hdm.
  pose proof (Z.mod_pos_bound n d Hd) as Hm.
  destruct (Z.ltb_spec (2 * (n - n / d * d)) d) as [H1|H1]; [nia|].
  destruct (Z.ltb_spec d (2 * (n - n / d * d))) as [H2|H2]; [nia|].
  destruct (Z.even (n / d)); nia.
Qed.

Lemma round_half_even_small (x : Qc) :
  let n := Qnum (this x) in
  let d := Zpos (Qden (this x)) in
  (- d <= 2 * n <= d)%Z -> round_half_even x = 0%Z.
Proof.
  cbv zeta. unfold round_half_even. cbv zeta.
  set (n := Qnum (this x)). set (d := Zpos (Qden (this x))).
  intros Hn. assert (Hd : (0 < d)%Z) by (subst d; lia).
  destruct (Z_lt_le_dec n 0) as [Hneg|Hpos].
  - assert (Hfl : (n / d = -1)%Z).
    { symmetry. apply (Z.div_unique n d (-1) (n + d)); lia. }
    rewrite Hfl.
    destruct (Z.ltb_spec (2 * (n - -1 * d)) d) as [H1|H1]; [lia|].
    destruct (Z.ltb_spec d (2 * (n - -1 * d))) as [H2|H2]; reflexivity.
  - assert (Hfl : (n / d = 0)%Z).
    { apply Z.div_small. lia. }
    rewrite Hfl.
    destruct (Z.ltb_spec (2 * (n - 0 * d)) d) as [H1|H1]; [reflexivity|].
    destruct (Z.ltb_spec d (2 * (n - 0 * d))) as [H2|H2]; [lia|reflexivity].
Qed.

Lemma round_half_even_unique (x : Qc) (r : Z) :
  let n := Qnum (this x) in
  let d := Zpos (Qden (this x)) in
  (2 * r * d - d <= 2 * n <= 2 * r * d + d)%Z ->
  ((2 * n = 2 * r * d - d)%Z \/ (2 * n = 2 * r * d + d)%Z -> Z.even r = true) ->
  round_half_even x = r.
Proof.
  cbv zeta. unfold round_half_even. cbv zeta.
  set (n := Qnum (this x)). set (d := Zpos (Qden (this x))).
  intros Hnear Htie. assert (Hd : (0 < d)%Z) by (subst d; lia).
  pose proof (Z.div_mod n d ltac:(lia)) as Hdm.
  pose proof (Z.mod_pos_bound n d Hd) as Hm.
  set (fl := (n / d)%Z) in *.
  assert (Hrem : (n - fl * d = n mod d)%Z) by lia.
  destruct (Z.ltb_spec (2 * (n - fl * d)) d) as [H1|H1]; [nia|].
  destruct (Z.ltb_spec d (2 * (n - fl * d))) as [H2|H2]; [nia|].
  assert (Hhalf : (2 * n = 2 * fl * d + d)%Z) by lia.
  assert (Hr : r = fl \/ r = (fl + 1)%Z) by nia.
  destruct Hr as [-> | ->].
  - rewrite Htie; [reflexivity|]. right. exact Hhalf.
  - assert (Hev : Z.even (fl + 1) = true) by (apply Htie; left; lia).
    replace (fl + 1)%Z with (Z.succ fl) in Hev by lia.
    rewrite Z.even_succ, <- Z.negb_even in Hev.
    apply negb_true_iff in Hev. now rewrite Hev.
Qed.

Lemma round_half_even_tie (x : Qc) :
  let n := Qnum (this x) in
  let d := Zpos (Qden (this x)) in
  let r := round_half_even x in
  (2 * n = 2 * r * d - d)%Z \/ (2 * n = 2 * r * d + d)%Z -> Z.even r = true.
Proof.
  cbv zeta. unfold round_half_even. cbv zeta.
  set (n := Qnum (this x)). set (d := Zpos (Qden (this x))).
  assert (Hd : (0 < d)%Z) by (subst d; lia).
  pose proof (Z.div_mod n d ltac:(lia)) as Hdm.
  pose proof (Z.mod_pos_bound n d Hd) as Hm.
  set (fl := (n / d)%Z) in *.
  destruct (Z.ltb_spec (2 * (n - fl * d)) d) as [H1|H1]; [nia|].
  destruct (Z.ltb_spec d (2 * (n - fl * d))) as [H2|H2]; [nia|].
  intros _. destruct (Z.even fl) eqn:Hev; [exact Hev|].
  replace (fl + 1)%Z with (Z.succ fl) by lia.
  now rewrite Z.even_succ, <- Z.negb_even, Hev.
Qed.

Local Open Scope Qc_scope.

Lemma half_below_iff (x : Qc) (r : Z) :
  (Q2Qc (inject_Z r - (1 # 2)) <= x
   <-> (2 * r * Zpos (Qden (this x)) - Zpos (Qden (this x)) <= 2 * Qnum (this x))%Z)
  /\ (x <= Q2Qc (inject_Z r + (1 # 2))
      <-> (2 * Qnum (this x) <= 2 * r * Zpos (Qden (this x)) + Zpos (Qden (this x)))%Z)
  /\ (x = Q2Qc (inject_Z r - (1 # 2))
      <-> (2 * Qnum (this x) = 2 * r * Zpos (Qden (this x)) - Zpos (Qden (this x)))%Z)
  /\ (x = Q2Qc (inject_Z r + (1 # 2))
      <-> (2 * Qnum (this x) = 2 * r * Zpos (Qden (this x)) + Zpos (Qden (this x)))%Z).
Proof.
  assert (Heq : forall q : Q, x = Q2Qc q <-> (this x == q)%Q).
  { intros q. split.
    - intros ->. cbn [this Q2Qc]. apply Qred_correct.
    - intros H. apply Qc_is_canon. cbn [this Q2Qc]. now rewrite Qred_correct. }
  split; [|split; [|split]].
  - unfold Qcle. cbn [this Q2Qc]. rewrite Qred_correct.
    unfold Qle, Qminus, Qplus, Qopp, inject_Z. cbn [Qnum Qden]. lia.
  - unfold Qcle. cbn [this Q2Qc]. rewrite Qred_correct.
    unfold Qle, Qminus, Qplus, Qopp, inject_Z. cbn [Qnum Qden]. lia.
  - rewrite Heq. unfold Qeq, Qminus, Qplus, Qopp, inject_Z. cbn [Qnum Qden]. lia.
  - rewrite Heq. unfold Qeq, Qminus, Qplus, Qopp, inject_Z. cbn [Qnum Qden]. lia.
Qed.

(** X21. The percentage text of a number is the integer within one half of
    it, the even one of the two when the number lies halfway between two
    integers, followed by [%] and preceded by a plus sign exactly when the
    number is above zero; there always is such an integer; so a rise of at
    most one half reads [+0%] and a fall of at most one half reads [0%]. *)
Theorem percentage_marks_the_sign (x : Qc) :
  (forall r : Z,
     Q2Qc (inject_Z r - (1 # 2)) <= x -> x <= Q2Qc (inject_Z r + (1 # 2)) ->
     (x = Q2Qc (inject_Z r - (1 # 2)) \/ x = Q2Qc (inject_Z r + (1 # 2)) ->
      Z.even r = true) ->
     get_percentage_str (percent_number x)
     = (if bool_decide (0 < x) then "+" else "") +:+ str_int r +:+ "%")
  /\ (exists r : Z,
        Q2Qc (inject_Z r - (1 # 2)) <= x /\ x <= Q2Qc (inject_Z r + (1 # 2))
        /\ (x = Q2Qc (inject_Z r - (1 # 2)) \/ x = Q2Qc (inject_Z r + (1 # 2)) ->
            Z.even r = true))
  /\ (0 < x -> x <= Q2Qc (1 # 2) -> get_percentage_str (percent_number x) = "+0%")
  /\ (Q2Qc (- 1 # 2) <= x -> x <= 0 -> get_percentage_str (percent_number x) = "0%").
Proof.
  split; [|split; [|split]].
  - intros r Hlo Hhi Htie.
    destruct (half_below_iff x r) as (Hlo' & Hhi' & Heq1 & Heq2).
    assert (round_half_even x = r) as Hr.
    { apply round_half_even_unique; cbv zeta.
      - split; [now apply Hlo'|now apply Hhi'].
      - intros [H|H]; apply Htie; [left; now apply Heq1|right; now apply Heq2]. }
    unfold get_percentage_str. rewrite Hr. case_bool_decide; reflexivity.
  - exists (round_half_even x).
    destruct (half_below_iff x (round_half_even x)) as (Hlo' & Hhi' & Heq1 & Heq2).
    pose proof (round_half_even_near x) as Hnear. cbv zeta in Hnear.
    split; [apply Hlo'; lia|]. split; [apply Hhi'; lia|].
    intros [H|H]; apply (round_half_even_tie x); cbv zeta;
      [left; now apply Heq1|right; now apply Heq2].
  - intros Hpos Hle. unfold get_percentage_str.
    rewrite bool_decide_eq_true_2 by exact Hpos.
    rewrite round_half_even_small; [reflexivity|].
    cbv zeta. unfold Qclt, Qlt in Hpos. unfold Qcle, Qle in Hle. simpl in Hpos, Hle. lia.
  - intros Hge Hle. unfold get_percentage_str.
    rewrite bool_decide_eq_false_2.
    + rewrite round_half_even_small; [reflexivity|].
      cbv zeta. unfold Qcle, Qle in Hge, Hle. simpl in Hge, Hle. lia.
    + intros Hlt. exact (Qclt_not_le _ _ Hlt Hle).
Qed.

End Percentages.

(** ** Drawing the flow graph *)

Lemma for_each_total_inv {A S : Type} (P : S -> Prop) (body : A -> S -> result S)
  (l : list A) (s : S) :
  (forall x s, x ∈ l -> P s -> exists s', body x s = Ok s' /\ P s') ->
  P s -> exists s', for_each body l s = Ok s' /\ P s'.
Proof.
  revert s. induction l as [|x l IH]; intros s Hstep Hs; simpl; [eauto|].
  destruct (Hstep x s) as (s1 & -> & Hs1); [apply elem_of_cons; now left|exact Hs|].
  simpl. apply IH; [|exact Hs1].
  intros y t Hy. apply Hstep. apply elem_of_cons. now right.
Qed.

Lemma fold_left_inv {A S : Type} (P : S -> Prop) (f : S -> A -> S) (l : list A) (s : S) :
  (forall x s, x ∈ l -> P s -> P (f s x)) -> P s -> P (fold_left f l s).
Proof.
  revert s. induction l as [|x l IH]; intros s Hstep Hs; simpl; [exact Hs|].
  apply IH.
  - intros y t Hy. apply Hstep. apply elem_of_cons. now right.
  - apply Hstep; [apply elem_of_cons; now left|exact Hs].
Qed.

Lemma odict_get_elem_of {V : Type} (k : string) (v : V) (d : odict V) :
  odict_get k d = Some v -> (k, v) ∈ d.
Proof.
  induction d as [|[k' v'] d IH]; simpl; [discriminate|].
  destruct (String.eqb_spec k' k) as [->|_].
  - intros [= ->]. apply elem_of_cons. now left.
  - intros H. apply elem_of_cons. right. auto.
Qed.

Lemma odict_set_Forall {V : Type} (P : string * V -> Prop) (k : string) (v : V)
  (d : odict V) :
  Forall P d -> P (k, v) -> Forall P (odict_set k v d).
Proof.
  intros Hd Hkv. induction Hd as [|[k' v'] d Hx Hd IH]; simpl.
  - now constructor.
  - destruct (String.eqb k' k); constructor; assumption.
Qed.

Lemma odict_set_not_nil {V : Type} (k : string) (v : V) (d : odict V) :
  odict_set k v d <> [].
Proof. destruct d as [|[k' v'] d]; simpl; [|destruct (String.eqb k' k)]; discriminate. Qed.

Section Drawing.

Local Open Scope Qc_scope.

Lemma positive_sinks_add (item_var target : string) (amount : Qc) (t : targets) :
  positive_sinks t -> 0 < amount ->
  positive_sinks (add_to_target item_var t target amount).
Proof.
  intros Ht Ha. unfold add_to_target. cbv zeta.
  apply odict_set_Forall; [exact Ht|]. cbn [snd]. split.
  - apply odict_set_not_nil.
  - apply odict_set_Forall; [|exact Ha].
    destruct (odict_get item_var t) as [d|] eqn:Hd; [|constructor].
    apply odict_get_elem_of in Hd.
    unfold positive_sinks in Ht. rewrite Forall_forall in Ht.
    exact (proj2 (Ht _ Hd)).
Qed.

Lemma known_sources_add (db : DB) (item_var target : string) (amount : Qc)
  (t : targets) :
  known_sources db t -> is_Some (odict_get item_var (items db)) ->
  known_sources db (add_to_target item_var t target amount).
Proof. intros Ht Hk. unfold add_to_target. now apply odict_set_Forall. Qed.

Lemma total_sink_amount_acc (item_sinks : odict Qc) (acc : Qc) :
  fold_left (fun total sink => total + sink.2) item_sinks acc
  = acc + fold_right (fun sink total => sink.2 + total) 0 item_sinks.
Proof.
  revert acc. induction item_sinks as [|sink rest IH]; intros acc; simpl.
  - ring.
  - rewrite IH. ring.
Qed.

Lemma total_sink_amount_pos (item_sinks : odict Qc) :
  item_sinks <> [] -> Forall (fun s => 0 < s.2) item_sinks ->
  0 < total_sink_amount item_sinks.
Proof.
  intros Hne Hpos. unfold total_sink_amount. rewrite total_sink_amount_acc.
  rewrite Qcplus_0_l.
  destruct Hpos as [|s rest Hs Hrest]; [contradiction|]. simpl.
  apply Qcplus_pos_nonneg; [exact Hs|]. clear Hne Hs.
  induction Hrest as [|s' rest Hs' Hrest IH]; simpl.
  - apply Qcle_refl.
  - apply Qclt_le_weak. now apply Qcplus_pos_nonneg.
Qed.

Variable self : OptimizationResult.

Lemma valued_nonzero (v : string) :
  valued self v = true -> exists x, nonzero_value self v = Ok x.
Proof.
  unfold valued, nonzero_value, get_value.
  destruct (result_vars self !! v); [simpl; eauto|discriminate].
Qed.

Lemma runs_forward_pos (v : string) (a : Qc) :
  runs_forward self v = true -> nonzero_value self v = Ok (Some a) -> 0 < a.
Proof.
  intros Hf Hv. apply nonzero_value_Some in Hv as [Hv Hne].
  unfold runs_forward in Hf. rewrite Hv in Hf. apply bool_decide_eq_true in Hf.
  apply Qcle_lt_or_eq in Hf as [Hlt|He]; [exact Hlt|congruence].
Qed.

Lemma __add_nodes_total {A : Type} `{CatalogEntity A} (objs : list A) (s : Digraph) :
  forallb (fun obj => valued self (var obj)) objs = true ->
  exists g, __add_nodes self objs s = Ok g.
Proof.
  intros Hall. unfold __add_nodes.
  destruct (for_each_total_inv (fun _ => True)
              (fun obj s =>
                 x ← nonzero_value self (var obj);
                 match x with
                 | None => Ok s
                 | Some amount => Ok (add_node (viz_name obj) (entity_node amount) s)
                 end) objs s) as (g & Hg & _); [|exact I|eauto].
  intros obj t Hobj _.
  rewrite forallb_forall in Hall.
  destruct (valued_nonzero (var obj)) as [x ->];
    [apply Hall; now apply list_elem_of_In|].
  simpl. destruct x; eauto.
Qed.

Lemma known_of_closed (v : string) :
  match odict_get v (items (result_db self)) with Some _ => true | None => false end
  = true -> is_Some (odict_get v (items (result_db self))).
Proof. destruct (odict_get v (items (result_db self))); [eauto|discriminate]. Qed.

Lemma items_drawable (st : GraphState) :
  all_valued self = true -> closed_catalog (result_db self) = true ->
  drawable self st ->
  exists st', for_each (item_step self) (values (items (result_db self))) st = Ok st'
              /\ drawable self st'.
Proof.
  unfold all_valued, closed_catalog. cbv zeta. rewrite !andb_true_iff.
  intros [[[Hv _] _] _] [Hc _] Hst.
  rewrite forallb_forall in Hv. rewrite forallb_forall in Hc.
  apply for_each_total_inv; [|exact Hst].
  intros item s Hitem [Hsinks Hsources]. apply list_elem_of_In in Hitem.
  unfold item_step.
  destruct (valued_nonzero (var item) (Hv _ Hitem)) as [x Hx]. rewrite Hx. simpl.
  destruct x as [amount|]; [|eexists; split; [reflexivity|now split]].
  case_bool_decide as Hneg; eexists; (split; [reflexivity|]); split; cbn; try assumption.
  - apply known_sources_add; [exact Hsources|]. apply known_of_closed. now apply Hc.
  - apply positive_sinks_add; [exact Hsinks|].
    apply nonzero_value_Some in Hx as [_ Hne].
    destruct (Qclt_le_dec amount 0) as [Hlt|Hle]; [contradiction|].
    apply Qcle_lt_or_eq in Hle as [Hl|He]; [exact Hl|congruence].
Qed.

Lemma recipes_drawable (st : GraphState) :
  all_valued self = true -> closed_catalog (result_db self) = true ->
  consuming self = true -> drawable self st ->
  exists st', for_each (recipe_step self) (values (recipes (result_db self))) st = Ok st'
              /\ drawable self st'.
Proof.
  unfold all_valued, closed_catalog, consuming. cbv zeta. rewrite !andb_true_iff.
  intros [[[_ Hv] _] _] [_ Hc] [Hr _] Hst.
  rewrite forallb_forall in Hv. rewrite forallb_forall in Hc.
  rewrite forallb_forall in Hr.
  apply for_each_total_inv; [|exact Hst].
  intros recipe s Hrecipe Hs. apply list_elem_of_In in Hrecipe.
  unfold recipe_step.
  destruct (valued_nonzero (var recipe) (Hv _ Hrecipe)) as [x Hx]. rewrite Hx. simpl.
  destruct x as [amount|]; [|eexists; split; [reflexivity|exact Hs]].
  eexists; split; [reflexivity|].
  specialize (Hr _ Hrecipe). apply andb_true_iff in Hr as [Hfwd Hrates].
  pose proof (runs_forward_pos _ _ Hfwd Hx) as Hpos.
  rewrite forallb_forall in Hrates.
  specialize (Hc _ Hrecipe). rewrite forallb_forall in Hc.
  apply fold_left_inv.
  - intros prod t Hprod [Hsinks Hsources]. split; cbn; [exact Hsinks|].
    apply known_sources_add; [exact Hsources|]. apply known_of_closed.
    apply Hc. now apply list_elem_of_In.
  - apply fold_left_inv; [|exact Hs].
    intros ing t Hing [Hsinks Hsources]. split; cbn; [|exact Hsources].
    apply positive_sinks_add; [exact Hsinks|].
    apply Qcmult_pos_pos; [exact Hpos|].
    apply list_elem_of_In in Hing. specialize (Hrates _ Hing).
    now apply bool_decide_eq_true in Hrates.
Qed.

Lemma power_recipes_drawable (st : GraphState) :
  all_valued self = true -> consuming self = true -> drawable self st ->
  exists st',
    for_each (power_recipe_step self) (values (power_recipes (result_db self))) st
    = Ok st' /\ drawable self st'.
Proof.
  unfold all_valued, consuming. cbv zeta. rewrite !andb_true_iff.
  intros [[[_ _] Hv] _] [_ Hr] Hst.
  rewrite forallb_forall in Hv. rewrite forallb_forall in Hr.
  apply for_each_total_inv; [|exact Hst].
  intros pr s Hpr [Hsinks Hsources]. apply list_elem_of_In in Hpr.
  unfold power_recipe_step.
  destruct (valued_nonzero (var pr) (Hv _ Hpr)) as [x Hx]. rewrite Hx. simpl.
  destruct x as [amount|]; [|eexists; split; [reflexivity|now split]].
  eexists; split; [reflexivity|]. split; cbn; [|exact Hsources].
  specialize (Hr _ Hpr). apply andb_true_iff in Hr as [Hfwd Hrate].
  apply positive_sinks_add; [exact Hsinks|].
  apply Qcmult_pos_pos; [exact (runs_forward_pos _ _ Hfwd Hx)|].
  now apply bool_decide_eq_true in Hrate.
Qed.

Lemma collect_drawable :
  all_valued self = true -> closed_catalog (result_db self) = true ->
  consuming self = true ->
  exists st, collect self = Ok st /\ drawable self st.
Proof.
  intros Hv Hc Hr. unfold collect. cbv zeta.
  pose proof Hv as Hv'. unfold all_valued in Hv'. cbv zeta in Hv'.
  rewrite !andb_true_iff in Hv'. destruct Hv' as [[[Hvi Hvr] Hvp] Hpower].
  destruct (__add_nodes_total (values (items (result_db self))) empty_graph Hvi)
    as [g1 Hg1].
  cbn [graph]. rewrite Hg1. cbn [mbind Py.result_bind].
  destruct (items_drawable
              (with_graph g1 {| graph := empty_graph; sources := []; sinks := [];
                                power_output := 0 |}) Hv Hc)
    as (st1 & -> & Hst1); [split; constructor|].
  cbn [mbind Py.result_bind].
  destruct (__add_nodes_total (values (recipes (result_db self))) (graph st1) Hvr)
    as [g2 ->]. cbn [mbind Py.result_bind].
  destruct (recipes_drawable (with_graph g2 st1) Hv Hc Hr Hst1) as (st2 & -> & Hst2).
  cbn [mbind Py.result_bind].
  destruct (valued_nonzero "power" Hpower) as [p ->]. cbn [mbind Py.result_bind].
  destruct (__add_nodes_total (values (power_recipes (result_db self))) (graph st2) Hvp)
    as [g3 ->]. cbn [mbind Py.result_bind].
  destruct (power_recipes_drawable (with_graph g3 st2) Hv Hr Hst2) as (st3 & -> & Hst3).
  cbn [mbind Py.result_bind].
  eexists. split; [reflexivity|exact Hst3].
Qed.

Lemma connect_source_total (item_name : string) (item_sinks : odict Qc)
  (srcs : odict Qc) (s : Digraph) :
  total_sink_amount item_sinks <> 0 ->
  exists g, for_each (connect_source item_name item_sinks) srcs s = Ok g.
Proof.
  intros Hne.
  destruct (for_each_total_inv (fun _ => True)
              (connect_source item_name item_sinks) srcs s) as (g & Hg & _);
    [|exact I|eauto].
  intros src t _ _. unfold connect_source. cbv zeta.
  rewrite bool_decide_eq_false_2 by exact Hne. eauto.
Qed.

Lemma connect_total (all_sources all_sinks : targets) (s : Digraph) :
  positive_sinks all_sinks -> known_sources (result_db self) all_sources ->
  exists g, connect self all_sources all_sinks s = Ok g.
Proof.
  intros Hsinks Hsources. unfold connect.
  destruct (for_each_total_inv (fun _ => True) (connect_item self all_sinks)
              all_sources s) as (g & Hg & _); [|exact I|eauto].
  intros entry t Hentry _. unfold connect_item.
  unfold known_sources in Hsources. rewrite Forall_forall in Hsources.
  destruct (Hsources _ Hentry) as [item ->].
  destruct (odict_get entry.1 all_sinks) as [item_sinks|] eqn:Hs; [|eauto].
  apply odict_get_elem_of in Hs.
  unfold positive_sinks in Hsinks. rewrite Forall_forall in Hsinks.
  destruct (Hsinks _ Hs) as [Hne Hpos]. cbn [snd] in Hne, Hpos.
  destruct (connect_source_total (human_readable_name item) item_sinks entry.2 t)
    as [g Hg]; [|eauto].
  pose proof (total_sink_amount_pos _ Hne Hpos) as Hlt.
  intros He. rewrite He in Hlt. exact (Qclt_not_eq _ _ Hlt eq_refl).
Qed.


End Drawing.

(** ** Instances of the statements *)

Lemma objective_of_marked_input_witness :
  exists vs,
    clause_vars plural_s demo_db (entity "iron ore") ["resource"; "item"]
      "resource or item" = Ok vs
    /\ maximize_objective ore_for_rods = false
    /\ (forall v, objective_coefficients ore_for_rods !! v
                  = if bool_decide (v ∈ vs) then Some (-1)%Z else None)
    /\ count_objective [clause false (num_value 30) (entity "iron rod")] = 0%nat
    /\ count_objective [] = 0%nat
    /\ count_objective [] = 0%nat.
Proof.
  apply (objective_of_marked_input plural_s demo_db true
           "produce 30 iron rod from ? iron ore"
           [clause false (num_value 30) (entity "iron rod")] []
           (clause false objective_value (entity "iron ore")) [] [] []).
  - reflexivity.
  - vm_compute. reflexivity.
Defined.

Lemma objective_stays_empty_witness :
  objective_coefficients bounded_rods = ∅ /\ maximize_objective bounded_rods = true.
Proof.
  apply (objective_stays_empty plural_s demo_db true
           "produce only 30 iron rod from 60 iron ore using constructor without coal"
           [clause true (num_value 30) (entity "iron rod")]
           [clause false (num_value 60) (entity "iron ore")]
           [entity "constructor"] [exclude_var (entity "coal")]).
  - discriminate.
  - reflexivity.
  - reflexivity.
  - vm_compute. reflexivity.
Defined.

Lemma flags_record_the_clauses_witness :
  strict_outputs bounded_rods = true /\ strict_inputs bounded_rods = false
  /\ strict_crafters bounded_rods = true /\ strict_recipes bounded_rods = false.
Proof.
  destruct (flags_record_the_clauses plural_s demo_db true
              "produce only 30 iron rod from 60 iron ore using constructor without coal"
              [clause true (num_value 30) (entity "iron rod")]
              [clause false (num_value 60) (entity "iron ore")]
              [entity "constructor"] [exclude_var (entity "coal")] bounded_rods)
    as (H1 & H2 & _ & H4 & _ & H6 & _).
  - vm_compute. reflexivity.
  - rewrite H1, H2, H4, H6. vm_compute. auto.
Defined.

Lemma bounds_have_fixed_signs_witness :
  (forall v z, eq_constraints bounded_rods !! v = Some z -> (0 <= z)%Z)
  /\ (forall v z, ge_constraints bounded_rods !! v = Some z -> (z <= 0)%Z)
  /\ (forall v z, le_constraints bounded_rods !! v = Some z -> z = 0%Z).
Proof.
  apply (bounds_have_fixed_signs plural_s demo_db true
           "produce only 30 iron rod from 60 iron ore using constructor without coal"
           [clause true (num_value 30) (entity "iron rod")]
           [clause false (num_value 60) (entity "iron ore")]
           [entity "constructor"] [exclude_var (entity "coal")]).
  vm_compute. reflexivity.
Defined.

Lemma coefficients_follow_the_direction_witness :
  objective_coefficients ore_for_rods !! "item:iron-ore" = Some (-1)%Z
  /\ forall v z, objective_coefficients ore_for_rods !! v = Some z ->
       z = if maximize_objective ore_for_rods then 1%Z else (-1)%Z.
Proof.
  split; [vm_compute; reflexivity|].
  apply (coefficients_follow_the_direction plural_s demo_db true
           "produce 30 iron rod from ? iron ore"
           [clause false (num_value 30) (entity "iron rod")]
           [clause false objective_value (entity "iron ore")] [] []).
  vm_compute. reflexivity.
Defined.

Lemma output_equality_is_kept_witness :
  eq_constraints bounded_rods !! "item:iron-rod" = Some 30%Z.
Proof.
  apply (output_equality_is_kept plural_s demo_db true
           "produce only 30 iron rod from 60 iron ore using constructor without coal"
           [] (clause true (num_value 30) (entity "iron rod")) []
           [clause false (num_value 60) (entity "iron ore")]
           [entity "constructor"] [exclude_var (entity "coal")] bounded_rods 30%N).
  - reflexivity.
  - apply (bool_decide_unpack _). vm_compute. exact I.
  - intros c' Hc'. now apply elem_of_nil in Hc'.
  - intros x Hx. apply list_elem_of_singleton in Hx as ->.
    apply (bool_decide_unpack _). vm_compute. exact I.
  - vm_compute. reflexivity.
Defined.

Lemma input_bound_is_negated_witness :
  ge_constraints bounded_rods !! "item:iron-ore" = Some (-60)%Z.
Proof.
  apply (input_bound_is_negated plural_s demo_db true
           "produce only 30 iron rod from 60 iron ore using constructor without coal"
           [clause true (num_value 30) (entity "iron rod")]
           [] (clause false (num_value 60) (entity "iron ore")) []
           [entity "constructor"] [exclude_var (entity "coal")] bounded_rods 60%N).
  - reflexivity.
  - apply (bool_decide_unpack _). vm_compute. exact I.
  - intros c' Hc'. now apply elem_of_nil in Hc'.
  - intros x Hx. apply list_elem_of_singleton in Hx as ->.
    apply (bool_decide_unpack _). vm_compute. exact I.
  - vm_compute. reflexivity.
Defined.


Lemma entity_answers_to_its_names_witness :
  _check_var plural_s "IRON ROD" (EItem iron_rod) = Ok true
  /\ _check_var plural_s "item:iron-rod" (EItem iron_rod) = Ok true
  /\ _check_var plural_s "iron-rod" (EItem iron_rod) = Ok true.
Proof.
  destruct (entity_answers_to_its_names plural_s (EItem iron_rod)) as (H1 & H2 & H3).
  split; [|split].
  - apply H1; reflexivity.
  - apply H2; [discriminate|reflexivity|reflexivity].
  - apply H3; [discriminate|reflexivity|reflexivity|reflexivity|reflexivity].
Defined.

Lemma refused_pattern_is_never_unmatched_witness :
  clause_vars plural_s demo_db (entity "*") ["item"] "item"
  = Raise re_error
  /\ forall ms, _get_matches plural_s demo_db "*" ["item"] = Ok ms ->
       ms = allowed_vars demo_db ["item"].
Proof.
  split; [vm_compute; reflexivity|].
  apply (refused_pattern_is_never_unmatched plural_s demo_db "*" ["item"] "item").
  - vm_compute. reflexivity.
  - vm_compute. discriminate.
Defined.

Lemma compare_query_partitions_producers_witness :
  _get_matches plural_s demo_db "iron rod" ["item"]
  = Ok [product_item rod_comparison]
  /\ base_recipe rod_comparison :: related_recipes rod_comparison
     ≡ₚ recipes_for_product demo_db (var (product_item rod_comparison))
  /\ (related_recipes rod_comparison <> [] ->
      has_slug_of (product_item rod_comparison) (base_recipe rod_comparison) = true)
  /\ compare_raw_query rod_comparison = "compare recipes for iron rod"
  /\ exclude_alternates rod_comparison = false.
Proof.
  apply (compare_query_partitions_producers plural_s demo_db).
  vm_compute. reflexivity.
Defined.

Lemma entity_details_prefers_non_recipes_witness :
  vars rod_details = [EItem iron_rod]
  /\ ((_get_matches plural_s demo_db "iron rod"
         ["resource"; "item"; "crafter"; "generator"] = Ok (vars rod_details)
       /\ Forall (fun m => is_recipe_kind m = false) (vars rod_details))
      \/ (_get_matches plural_s demo_db "iron rod"
            ["resource"; "item"; "crafter"; "generator"] = Ok []
          /\ _get_matches plural_s demo_db "iron rod" ["recipe"; "power-recipe"]
             = Ok (vars rod_details)
          /\ Forall (fun m => is_recipe_kind m = true) (vars rod_details))).
Proof.
  split; [vm_compute; reflexivity|].
  apply (entity_details_prefers_non_recipes plural_s demo_db "iron rod" "iron rod").
  vm_compute. reflexivity.
Defined.

Lemma recipes_from_lists_consumers_witness :
  exists ms,
    _get_matches plural_s demo_db "iron ore" ["resource"; "item"] = Ok ms
    /\ ms <> []
    /\ info_raw_query ore_consumers = "recipes from iron ore"
    /\ forall v, v ∈ vars ore_consumers
                 <-> exists m r, m ∈ ms /\ r ∈ recipes_for_ingredient demo_db (var m)
                                 /\ v = ERecipe r.
Proof.
  apply (recipes_from_lists_consumers plural_s demo_db "recipes from iron ore"
           "iron ore").
  vm_compute. reflexivity.
Defined.

Lemma recipes_for_lists_only_recipes_witness :
  exists ms,
    _get_matches plural_s demo_db "constructor"
      ["resource"; "item"; "crafter"; "generator"] = Ok ms
    /\ ms <> []
    /\ vars constructor_recipes = flat_map (fun m => listed_for demo_db (var m)) ms
    /\ Forall (fun v => is_recipe_kind v = true) (vars constructor_recipes).
Proof.
  apply (recipes_for_lists_only_recipes plural_s demo_db "recipes for constructor"
           "constructor").
  vm_compute. reflexivity.
Defined.

Lemma inputs_and_outputs_split_by_sign_witness :
  map fst (ex_inputs rod_extract) = ["item:iron-ore"]
  /\ map fst (ex_outputs rod_extract) = ["item:iron-rod"]
  /\ forall v item a, odict_get v (ex_inputs rod_extract) = Some (item, a) ->
       (0 < a)%Qc /\ result_vars staffed_rod_plan !! v = Some (Some (- a)%Qc)
       /\ odict_get v (ex_outputs rod_extract) = None.
Proof.
  split; [vm_compute; reflexivity|]. split; [vm_compute; reflexivity|].
  apply (inputs_and_outputs_split_by_sign staffed_rod_plan rod_extract).
  vm_compute. reflexivity.
Defined.

Lemma zero_solution_extracts_nothing_witness : idle_extract = nothing_extracted.
Proof.
  apply (zero_solution_extracts_nothing idle_plan).
  - reflexivity.
  - vm_compute. reflexivity.
  - vm_compute. reflexivity.
Defined.

Lemma listed_entry_is_selected_witness :
  exists v, _get_var_on_page whole_catalog 2 0 = Ok v
            /\ human_readable_name v = "Recipe: Foundry Steel".
Proof.
  apply (listed_entry_is_selected whole_catalog 2 0 "Recipe: Foundry Steel").
  - lia.
  - vm_compute. reflexivity.
Defined.

Lemma selectors_number_the_entries_witness :
  exists m, _get_info_page "<" "i" ">" keycaps [] whole_catalog_selecting
              {| breadcrumbs_str := "o" |} 2 = Ok m
            /\ info_reactions m = ["1"; "2"; "3"; "4"; "5"].
Proof.
  destruct (selectors_number_the_entries "<" "i" ">" keycaps [] whole_catalog_selecting
              {| breadcrumbs_str := "o" |} 2 eq_refl) as [H _].
  destruct H as (m & Hm & Hr & _); [vm_compute; lia|].
  exists m. split; [exact Hm|]. rewrite Hr. vm_compute. reflexivity.
Defined.

Lemma percentage_marks_the_sign_witness :
  get_percentage_str (percent_number (Q2Qc (3 # 2))) = "+2%"
  /\ get_percentage_str (percent_number (Q2Qc (5 # 2))) = "+2%"
  /\ get_percentage_str (percent_number (Q2Qc (- 3 # 2))) = "-2%".
Proof.
  split; [|split].
  - rewrite (proj1 (percentage_marks_the_sign (Q2Qc (3 # 2))) 2%Z);
      [reflexivity | vm_compute; discriminate | vm_compute; discriminate
      | intros _; reflexivity].
  - rewrite (proj1 (percentage_marks_the_sign (Q2Qc (5 # 2))) 2%Z);
      [reflexivity | vm_compute; discriminate | vm_compute; discriminate
      | intros _; reflexivity].
  - rewrite (proj1 (percentage_marks_the_sign (Q2Qc (- 3 # 2))) (-2)%Z);
      [reflexivity | vm_compute; discriminate | vm_compute; discriminate
      | intros _; reflexivity].
Defined.

